(** * Netcatty Windows Hello addon: a shallow embedding of addon.cc

    The development follows [electron/native/netcatty-windows-hello/src/addon.cc].
    Bytes ([uint8_t], [char]) are [Byte.byte]; [std::vector<uint8_t>] and
    [std::string] are [list byte]; [std::wstring] is a list of UTF-16 code
    units; [HRESULT] is a signed 32-bit integer kept in [Z]; [HWND] is a
    pointer-sized token kept in [Z] with [0] for [nullptr].  Calls into
    Win32, COM, WebAuthn and N-API are answered by an explicit platform
    description and leave an event in a trace, so that the order and the
    arguments of every call can be stated. *)

From Stdlib Require Import Strings.String Strings.Byte.
From Stdlib Require Import List ZArith NArith Bool Lia.
Import ListNotations.

Local Open Scope list_scope.

(** ** Bytes and strings *)

Definition bytes := list byte.

(** A narrow string literal, as the bytes of a [std::string]. *)
Definition lit (s : string) : bytes := list_byte_of_string s.

Definition chNUL : byte := x00.
Definition chQuote : byte := x22.   (* the double quote *)
Definition chPlus : byte := x2b.
Definition chMinus : byte := x2d.
Definition chSlash : byte := x2f.
Definition chEquals : byte := x3d.
Definition chUnderscore : byte := x5f.

(** [s.back()] and [s.pop_back()] on a [std::string]; both are only called
    on non-empty strings in the source. *)
Definition back (s : bytes) : byte := last s chNUL.
Definition pop_back (s : bytes) : bytes := removelast s.

Definition empty {A} (s : list A) : bool :=
  match s with [] => true | _ => false end.

(** [while (!s.empty() && p(s.back())) s.pop_back();] *)
Fixpoint drop_leading {A} (p : A -> bool) (s : list A) : list A :=
  match s with
  | [] => []
  | x :: s' => if p x then drop_leading p s' else s
  end.

Definition pop_back_while {A} (p : A -> bool) (s : list A) : list A :=
  rev (drop_leading p (rev s)).

(** [static_cast<DWORD>(n)] of a [size_t]. *)
Definition DWORD_of_size (n : nat) : Z := Z.of_nat n mod 2 ^ 32.

(** ** CryptBinaryToStringA *)

Module Crypt32.

Definition alphabet : bytes :=
  lit "ABCDEFGHIJKLMNOPQRSTUVWXYZabcdefghijklmnopqrstuvwxyz0123456789+/".

Definition digit (n : N) : byte := nth (N.to_nat n) alphabet chNUL.

Definition sextet1 (a : byte) : N := N.shiftr (Byte.to_N a) 2.
Definition sextet2 (a b : byte) : N :=
  N.lor (N.shiftl (N.land (Byte.to_N a) 3) 4) (N.shiftr (Byte.to_N b) 4).
Definition sextet3 (b c : byte) : N :=
  N.lor (N.shiftl (N.land (Byte.to_N b) 15) 2) (N.shiftr (Byte.to_N c) 6).
Definition sextet4 (c : byte) : N := N.land (Byte.to_N c) 63.

(** Modelled from the spec: the platform's base64 encoder is not part of
    the repository; section 4.1 calls it the standard base64 alphabet with
    [=] padding, which is RFC 4648 section 4.  [CRYPT_STRING_NOCRLF] means
    that no line break is inserted. *)
Fixpoint base64 (data : bytes) : bytes :=
  match data with
  | [] => []
  | [a] =>
      [digit (sextet1 a); digit (sextet2 a x00); chEquals; chEquals]
  | [a; b] =>
      [digit (sextet1 a); digit (sextet2 a b); digit (sextet3 b x00); chEquals]
  | a :: b :: c :: rest =>
      digit (sextet1 a) :: digit (sextet2 a b) :: digit (sextet3 b c)
        :: digit (sextet4 c) :: base64 rest
  end.

(** The first [cbBinary] bytes at [pbBinary]. *)
Definition binary (pbBinary : bytes) (cbBinary : Z) : bytes :=
  firstn (Z.to_nat cbBinary) pbBinary.

(** [CryptBinaryToStringA(pb, cb, CRYPT_STRING_BASE64 | CRYPT_STRING_NOCRLF,
    nullptr, &outLen)]: the size query.  It stores in the [DWORD] [outLen]
    the number of characters needed, the terminating NUL included; a number
    that a [DWORD] cannot hold cannot be stored, and the call fails. *)
Definition CryptBinaryToStringA_size (pbBinary : bytes) (cbBinary : Z)
  : option Z :=
  let needed := (Z.of_nat (length (base64 (binary pbBinary cbBinary))) + 1)%Z in
  if (needed <? 2 ^ 32)%Z then Some needed else None.

(** [CryptBinaryToStringA(pb, cb, flags, buf, &outLen)] with a buffer of
    [outLen] characters: it fails when the buffer is too small, and
    otherwise writes the encoding and a terminating NUL, leaving the rest
    of the buffer as it was. *)
Definition CryptBinaryToStringA (pbBinary : bytes) (cbBinary : Z)
           (pszString : bytes) : option bytes :=
  let s := base64 (binary pbBinary cbBinary) ++ [chNUL] in
  if length s <=? length pszString
  then Some (s ++ skipn (length s) pszString)
  else None.

End Crypt32.

(** ** Base64UrlEncode (addon.cc, lines 221-241) *)

Definition base64url_transform (ch : byte) : byte :=
  if Byte.eqb ch chPlus then chMinus
  else if Byte.eqb ch chSlash then chUnderscore
  else ch.

Definition Base64UrlEncode (data : bytes) : bytes :=
  match data with
  | [] => []
  | _ =>
      let cb := DWORD_of_size (length data) in
      match Crypt32.CryptBinaryToStringA_size data cb with
      | None => []
      | Some outLen =>
          let base64 := repeat chNUL (Z.to_nat outLen) in
          match Crypt32.CryptBinaryToStringA data cb base64 with
          | None => []
          | Some base64 =>
              let base64 :=
                match base64 with
                | [] => base64
                | _ => if Byte.eqb (back base64) chNUL
                       then pop_back base64 else base64
                end in
              let base64 := map base64url_transform base64 in
              pop_back_while (fun ch => Byte.eqb ch chEquals) base64
          end
      end
  end.


(** ** Platform data types *)

Local Open Scope Z_scope.

Definition HRESULT := Z.
Definition DWORD := Z.
Definition BOOL := Z.
Definition HWND := Z.

Definition nullptr : HWND := 0.

(** [winerror.h]: the status codes the source names, as signed 32-bit
    values, and the [SUCCEEDED]/[FAILED] macros. *)
Definition S_OK : HRESULT := 0.
Definition E_FAIL : HRESULT := -2147467259.              (* 0x80004005 *)
Definition RPC_E_CHANGED_MODE : HRESULT := -2147417850.  (* 0x80010106 *)
Definition RPC_E_TOO_LATE : HRESULT := -2147417831.      (* 0x80010119 *)

Definition SUCCEEDED (hr : HRESULT) : bool := 0 <=? hr.
Definition FAILED (hr : HRESULT) : bool := hr <? 0.

(** [std::wstring]: UTF-16 code units. *)
Definition wchar_t := N.
Definition wstring := list wchar_t.

(** A wide literal [L"..."] of ASCII characters. *)
Definition wlit (s : string) : wstring := map Byte.to_N (list_byte_of_string s).

Definition kOriginPrefix : wstring := wlit "https://".

(** [webauthn.h]: the constants the source names. *)
Definition WEBAUTHN_CREDENTIAL_TYPE_PUBLIC_KEY : wstring := wlit "public-key".
Definition WEBAUTHN_HASH_ALGORITHM_SHA_256 : wstring := wlit "SHA-256".
Definition WEBAUTHN_COSE_ALGORITHM_ECDSA_P256_WITH_SHA256 : Z := -7.
Definition WEBAUTHN_COSE_ALGORITHM_RSASSA_PKCS1_V1_5_WITH_SHA256 : Z := -257.
Definition WEBAUTHN_AUTHENTICATOR_ATTACHMENT_ANY : DWORD := 0.
Definition WEBAUTHN_AUTHENTICATOR_ATTACHMENT_PLATFORM : DWORD := 1.
Definition WEBAUTHN_AUTHENTICATOR_ATTACHMENT_CROSS_PLATFORM : DWORD := 2.
Definition WEBAUTHN_USER_VERIFICATION_REQUIREMENT_ANY : DWORD := 0.
Definition WEBAUTHN_USER_VERIFICATION_REQUIREMENT_REQUIRED : DWORD := 1.
Definition WEBAUTHN_USER_VERIFICATION_REQUIREMENT_PREFERRED : DWORD := 2.
Definition WEBAUTHN_USER_VERIFICATION_REQUIREMENT_DISCOURAGED : DWORD := 3.
Definition WEBAUTHN_ATTESTATION_CONVEYANCE_PREFERENCE_ANY : DWORD := 0.
Definition WEBAUTHN_ATTESTATION_CONVEYANCE_PREFERENCE_NONE : DWORD := 1.
Definition WEBAUTHN_ATTESTATION_CONVEYANCE_PREFERENCE_INDIRECT : DWORD := 2.
Definition WEBAUTHN_ATTESTATION_CONVEYANCE_PREFERENCE_DIRECT : DWORD := 3.

Record WEBAUTHN_RP_ENTITY_INFORMATION := {
  rp_dwVersion : DWORD;
  rp_pwszId : wstring;
  rp_pwszName : wstring
}.

Record WEBAUTHN_USER_ENTITY_INFORMATION := {
  user_dwVersion : DWORD;
  user_cbId : DWORD;
  user_pbId : bytes;
  user_pwszName : wstring;
  user_pwszDisplayName : wstring
}.

Record WEBAUTHN_COSE_CREDENTIAL_PARAMETER := {
  cose_dwVersion : DWORD;
  cose_pwszCredentialType : wstring;
  cose_lAlg : Z
}.

Record WEBAUTHN_COSE_CREDENTIAL_PARAMETERS := {
  cCredentialParameters : DWORD;
  pCredentialParameters : list WEBAUTHN_COSE_CREDENTIAL_PARAMETER
}.

Record WEBAUTHN_CLIENT_DATA := {
  cd_dwVersion : DWORD;
  cbClientDataJSON : DWORD;
  pbClientDataJSON : bytes;
  pwszHashAlgId : wstring
}.

Record WEBAUTHN_CREDENTIAL := {
  cred_dwVersion : DWORD;
  cred_cbId : DWORD;
  cred_pbId : bytes;
  cred_pwszCredentialType : wstring
}.

Record WEBAUTHN_CREDENTIALS := {
  cCredentials : DWORD;
  pCredentials : list WEBAUTHN_CREDENTIAL
}.

(** The fields of the option structures that the source sets; every other
    field is left zero by the [{}] initializer. *)
Record WEBAUTHN_AUTHENTICATOR_MAKE_CREDENTIAL_OPTIONS := {
  mco_dwVersion : DWORD;
  mco_dwTimeoutMilliseconds : DWORD;
  mco_dwAuthenticatorAttachment : DWORD;
  mco_dwUserVerificationRequirement : DWORD;
  mco_dwAttestationConveyancePreference : DWORD
}.

Record WEBAUTHN_AUTHENTICATOR_GET_ASSERTION_OPTIONS := {
  gao_dwVersion : DWORD;
  gao_dwTimeoutMilliseconds : DWORD;
  gao_CredentialList : WEBAUTHN_CREDENTIALS;
  gao_dwAuthenticatorAttachment : DWORD;
  gao_dwUserVerificationRequirement : DWORD
}.

(** The native results the authenticator allocates.  [pbCredentialId] is a
    pointer ([None] for null) to native memory, given by the byte at each
    offset from it; [cbCredentialId] is the number of bytes of the
    credential id. *)
Record WEBAUTHN_CREDENTIAL_ATTESTATION := {
  pbCredentialId : option (nat -> byte);
  cbCredentialId : N
}.

Record WEBAUTHN_ASSERTION := {
  pbAuthenticatorData : bytes;
  pbSignature : bytes
}.

(** The bytes between [pbCredentialId] and [pbCredentialId + cbCredentialId]. *)
Definition credential_id_range (a : WEBAUTHN_CREDENTIAL_ATTESTATION) : bytes :=
  match pbCredentialId a with
  | None => []
  | Some mem => map mem (seq 0 (N.to_nat (cbCredentialId a)))
  end.

Record MakeCredentialCall := {
  mc_hWnd : HWND;
  mc_pRpInformation : WEBAUTHN_RP_ENTITY_INFORMATION;
  mc_pUserInformation : WEBAUTHN_USER_ENTITY_INFORMATION;
  mc_pPubKeyCredParams : WEBAUTHN_COSE_CREDENTIAL_PARAMETERS;
  mc_pWebAuthNClientData : WEBAUTHN_CLIENT_DATA;
  mc_pOptions : WEBAUTHN_AUTHENTICATOR_MAKE_CREDENTIAL_OPTIONS
}.

Record GetAssertionCall := {
  ga_hWnd : HWND;
  ga_pwszRpId : wstring;
  ga_pWebAuthNClientData : WEBAUTHN_CLIENT_DATA;
  ga_pOptions : WEBAUTHN_AUTHENTICATOR_GET_ASSERTION_OPTIONS
}.

Inductive COINIT := COINIT_APARTMENTTHREADED | COINIT_MULTITHREADED.
Inductive ShowCmd := SW_SHOW | SW_RESTORE.

(** JavaScript values as the addon sees them through N-API. *)
Inductive napi_value :=
| js_undefined
| js_boolean (b : bool)
| js_number (z : Z)
| js_string (utf8 : bytes)
| js_buffer (data : bytes)
| js_promise.

(** ** Events: the calls that act on the platform or on the N-API runtime *)

Inductive Event :=
| EvCoInitializeEx (model : COINIT)
| EvCoUninitialize
| EvCoInitializeSecurity
| EvAttachThreadInput (idAttach idAttachTo : DWORD) (fAttach : bool)
| EvAllowSetForegroundWindow
| EvShowWindow (h : HWND) (cmd : ShowCmd)
| EvSetForegroundWindow (h : HWND)
| EvBringWindowToTop (h : HWND)
| EvSetActiveWindow (h : HWND)
| EvSetFocus (h : HWND)
| EvKeybdEvent (keyup : bool)
| EvSleep (ms : Z)
| EvOutputDebugString (passedHwnd fgHwnd usingHwnd : HWND)
| EvIsUserVerifyingPlatformAuthenticatorAvailable
| EvMakeCredential (call : MakeCredentialCall)
| EvFreeCredentialAttestation (a : WEBAUTHN_CREDENTIAL_ATTESTATION)
| EvGetAssertion (call : GetAssertionCall)
| EvFreeAssertion (a : WEBAUTHN_ASSERTION)
| EvNapiThrowTypeError (message : bytes)
| EvNapiThrowError (message : bytes)
| EvNapiCreateBufferCopy (data : bytes)
| EvNapiQueueAsyncWork (name : bytes)
| EvNapiRejectDeferred (message : bytes)
| EvNapiResolveDeferred (v : napi_value)
| EvNapiDeleteAsyncWork.

(** ** The platform *)

(** The [..._CURRENT_VERSION] macros of the SDK the addon is built with. *)
Record SdkVersions := {
  WEBAUTHN_RP_ENTITY_INFORMATION_CURRENT_VERSION : DWORD;
  WEBAUTHN_USER_ENTITY_INFORMATION_CURRENT_VERSION : DWORD;
  WEBAUTHN_COSE_CREDENTIAL_PARAMETER_CURRENT_VERSION : DWORD;
  WEBAUTHN_CLIENT_DATA_CURRENT_VERSION : DWORD;
  WEBAUTHN_CREDENTIAL_CURRENT_VERSION : DWORD;
  WEBAUTHN_AUTHENTICATOR_MAKE_CREDENTIAL_OPTIONS_CURRENT_VERSION : DWORD;
  WEBAUTHN_AUTHENTICATOR_GET_ASSERTION_OPTIONS_CURRENT_VERSION : DWORD
}.

(** What the operating system answers.  These answers do not change during
    one ceremony; the foreground window, the active window and the random
    source, which do, are part of [State] below. *)
Record Platform := {
  sdk : SdkVersions;
  sizeof_pointer : nat;                               (* sizeof(void* ) *)
  WideCharToMultiByte : wstring -> bytes;             (* CP_UTF8 *)
  MultiByteToWideChar : bytes -> wstring;             (* CP_UTF8 *)
  FormatMessageW : HRESULT -> wstring;                (* empty: no message *)
  IsWindow : HWND -> bool;
  IsWindowVisible : HWND -> bool;
  IsIconic : HWND -> bool;
  GetWindowThreadProcessId : HWND -> DWORD * DWORD;   (* thread id, process id *)
  GetCurrentThreadId : DWORD;
  GetCurrentProcessId : DWORD;
  GetDesktopWindow : HWND;
  top_level_windows : list HWND;                      (* in EnumWindows order *)
  CoInitializeEx : COINIT -> HRESULT;
  CoInitializeSecurity : HRESULT;
  WebAuthNIsUserVerifyingPlatformAuthenticatorAvailable : HRESULT * BOOL;
  WebAuthNAuthenticatorMakeCredential :
    HRESULT * option WEBAUTHN_CREDENTIAL_ATTESTATION;
  WebAuthNAuthenticatorGetAssertion : HRESULT * option WEBAUTHN_ASSERTION
}.

(** What changes while the addon runs: the two function-local statics of
    [EnsureComSecurityInitialized], and the answers still to come from
    [GetForegroundWindow], [GetActiveWindow] and [BCryptGenRandom] ([None]:
    the call fails). *)
Record State := {
  once : bool;
  result : HRESULT;
  foreground : list HWND;
  active : list HWND;
  random : list (option bytes)
}.

(** The statics as the loader leaves them. *)
Definition process_start (fg act : list HWND) (rnd : list (option bytes)) : State :=
  {| once := false; result := E_FAIL;
     foreground := fg; active := act; random := rnd |}.

(** ** A state-and-trace monad *)

Definition M (A : Type) : Type := State -> A * State * list Event.

Definition ret {A} (a : A) : M A := fun s => (a, s, []).

Definition bind {A B} (m : M A) (k : A -> M B) : M B :=
  fun s =>
    let '(a, s1, t1) := m s in
    let '(b, s2, t2) := k a s1 in
    (b, s2, t1 ++ t2).

Definition emit (e : Event) : M unit := fun s => (tt, s, [e]).

Definition when (c : bool) (m : M unit) : M unit := if c then m else ret tt.

Declare Scope monad_scope.
Delimit Scope monad_scope with monad.
Notation "x <- m ;; k" := (bind m (fun x => k))
  (at level 61, m at next level, right associativity) : monad_scope.
Notation "m ;; k" := (bind m (fun _ => k))
  (at level 61, right associativity) : monad_scope.
Local Open Scope monad_scope.

Definition value_of {A} (r : A * State * list Event) : A := fst (fst r).
Definition state_of {A} (r : A * State * list Event) : State := snd (fst r).
Definition trace_of {A} (r : A * State * list Event) : list Event := snd r.

Definition GetForegroundWindow : M HWND :=
  fun s =>
    match foreground s with
    | [] => (nullptr, s, [])
    | h :: rest =>
        (h, {| once := once s; result := result s; foreground := rest;
               active := active s; random := random s |}, [])
    end.

Definition GetActiveWindow : M HWND :=
  fun s =>
    match active s with
    | [] => (nullptr, s, [])
    | h :: rest =>
        (h, {| once := once s; result := result s; foreground := foreground s;
               active := rest; random := random s |}, [])
    end.

(** [BCryptGenRandom(nullptr, buf, len, BCRYPT_USE_SYSTEM_PREFERRED_RNG)]:
    the new content of the buffer and the status ([0] is success). *)
Definition BCryptGenRandom (buf : bytes) : M (bytes * Z) :=
  fun s =>
    match random s with
    | [] => ((buf, 1), s, [])
    | r :: rest =>
        let s' := {| once := once s; result := result s;
                     foreground := foreground s; active := active s;
                     random := rest |} in
        match r with
        | None => ((buf, 1), s', [])
        | Some bs =>
            ((firstn (length buf) (bs ++ repeat x00 (length buf)), 0), s', [])
        end
    end.

Notation "' pat <- m ;; k" :=
  (bind m (fun x => match x with pat => k end))
  (at level 61, pat pattern, m at next level, right associativity) : monad_scope.

Definition get_result : M HRESULT := fun s => (result s, s, []).

Definition set_result (r : HRESULT) : M unit :=
  fun s => (tt, {| once := once s; result := r; foreground := foreground s;
                   active := active s; random := random s |}, []).

(** [std::call_once(once, f)]: [f] runs when the flag is not set, and the
    flag is set when [f] has returned.  Callers that arrive while [f] runs
    wait for it; their calls are the later calls of this sequential model. *)
Definition call_once (f : M unit) : M unit :=
  fun s =>
    if once s then (tt, s, [])
    else
      let '(_, s1, t1) := f s in
      (tt, {| once := true; result := result s1; foreground := foreground s1;
              active := active s1; random := random s1 |}, t1).

Definition nonnull (h : HWND) : bool := negb (h =? 0).

Record ScopedCoInit := { hr : HRESULT; did_init : bool }.

Record EnumWindowsData := { targetPid : DWORD; foundHwnd : HWND }.

(** [EnumWindows(callback, lParam)]: the callback runs on each top-level
    window in turn until it returns [FALSE]. *)
Fixpoint EnumWindows_over {D} (callback : HWND -> D -> bool * D)
         (windows : list HWND) (lParam : D) : D :=
  match windows with
  | [] => lParam
  | h :: rest =>
      let '(go_on, lParam') := callback h lParam in
      if go_on then EnumWindows_over callback rest lParam' else lParam'
  end.

Record AsyncContext := {
  error : bytes;
  bool_result : bool;
  buffer_result : bytes;
  rp_id : wstring;
  rp_name : wstring;
  user_name : wstring;
  parent_hwnd : HWND;
  credential_id : bytes;
  do_is_available : bool;
  do_make_credential : bool;
  do_get_assertion : bool
}.

(** [new AsyncContext()] *)
Definition new_AsyncContext : AsyncContext :=
  {| error := []; bool_result := false; buffer_result := [];
     rp_id := []; rp_name := []; user_name := []; parent_hwnd := nullptr;
     credential_id := [];
     do_is_available := false; do_make_credential := false;
     do_get_assertion := false |}.

Definition set_error (ctx : AsyncContext) (e : bytes) : AsyncContext :=
  {| error := e; bool_result := bool_result ctx;
     buffer_result := buffer_result ctx;
     rp_id := rp_id ctx; rp_name := rp_name ctx; user_name := user_name ctx;
     parent_hwnd := parent_hwnd ctx; credential_id := credential_id ctx;
     do_is_available := do_is_available ctx;
     do_make_credential := do_make_credential ctx;
     do_get_assertion := do_get_assertion ctx |}.

Definition set_bool_result (ctx : AsyncContext) (b : bool) : AsyncContext :=
  {| error := error ctx; bool_result := b;
     buffer_result := buffer_result ctx;
     rp_id := rp_id ctx; rp_name := rp_name ctx; user_name := user_name ctx;
     parent_hwnd := parent_hwnd ctx; credential_id := credential_id ctx;
     do_is_available := do_is_available ctx;
     do_make_credential := do_make_credential ctx;
     do_get_assertion := do_get_assertion ctx |}.

Definition set_buffer_result (ctx : AsyncContext) (b : bytes) : AsyncContext :=
  {| error := error ctx; bool_result := bool_result ctx;
     buffer_result := b;
     rp_id := rp_id ctx; rp_name := rp_name ctx; user_name := user_name ctx;
     parent_hwnd := parent_hwnd ctx; credential_id := credential_id ctx;
     do_is_available := do_is_available ctx;
     do_make_credential := do_make_credential ctx;
     do_get_assertion := do_get_assertion ctx |}.

(** [memcpy(&hwnd, data, n)] on a little-endian machine. *)
Fixpoint le_decode (bs : bytes) : Z :=
  match bs with
  | [] => 0
  | b :: rest => Z.of_N (Byte.to_N b) + 256 * le_decode rest
  end.

Definition hex_digit (d : Z) : byte :=
  nth (Z.to_nat d) (lit "0123456789ABCDEF") chNUL.

(** [sprintf_s(code, "%08X", u)] *)
Definition hex8 (u : Z) : bytes :=
  map (fun i => hex_digit ((u / 16 ^ i) mod 16)) [7; 6; 5; 4; 3; 2; 1; 0].

Definition wCR : wchar_t := 13%N.
Definition wLF : wchar_t := 10%N.
Definition wSP : wchar_t := 32%N.

(** [!attestation || !attestation->pbCredentialId ||
    attestation->cbCredentialId == 0] *)
Definition credential_id_missing
           (attestation : option WEBAUTHN_CREDENTIAL_ATTESTATION) : bool :=
  match attestation with
  | None => true
  | Some a =>
      match pbCredentialId a with
      | None => true
      | Some _ => (cbCredentialId a =? 0)%N
      end
  end.

(** [if (attestation) WebAuthNFreeCredentialAttestation(attestation);] *)
Definition free_if_attestation
           (attestation : option WEBAUTHN_CREDENTIAL_ATTESTATION) : M unit :=
  match attestation with
  | Some a => emit (EvFreeCredentialAttestation a)
  | None => ret tt
  end.

(** [if (assertion) WebAuthNFreeAssertion(assertion);] *)
Definition free_if_assertion (assertion : option WEBAUTHN_ASSERTION) : M unit :=
  match assertion with
  | Some a => emit (EvFreeAssertion a)
  | None => ret tt
  end.

(** ** The addon *)

Section Addon.

Variable P : Platform.

(** *** ScopedCoInit (lines 41-55) *)

Definition ScopedCoInit_ctor : M ScopedCoInit :=
  emit (EvCoInitializeEx COINIT_APARTMENTTHREADED);;
  let hr := CoInitializeEx P COINIT_APARTMENTTHREADED in
  hr <- (if hr =? RPC_E_CHANGED_MODE
         then emit (EvCoInitializeEx COINIT_MULTITHREADED);;
              ret (CoInitializeEx P COINIT_MULTITHREADED)
         else ret hr);;
  ret {| hr := hr; did_init := SUCCEEDED hr |}.

Definition ScopedCoInit_dtor (co : ScopedCoInit) : M unit :=
  when (did_init co) (emit EvCoUninitialize).

(** A block with a local [ScopedCoInit co;]: the destructor runs on every
    way out of the block. *)
Definition with_ScopedCoInit {A} (body : ScopedCoInit -> M A) : M A :=
  co <- ScopedCoInit_ctor;;
  r <- body co;;
  ScopedCoInit_dtor co;;
  ret r.

(** *** EnsureComSecurityInitialized (lines 57-78) *)

Definition EnsureComSecurityInitialized : M HRESULT :=
  call_once
    (emit EvCoInitializeSecurity;;
     set_result (CoInitializeSecurity P);;
     r <- get_result;;
     when (r =? RPC_E_TOO_LATE) (set_result S_OK));;
  get_result.

(** *** GetValidHwndForWebAuthn (lines 88-129) *)

Definition EnumWindows {D} (callback : HWND -> D -> bool * D) (lParam : D) : D :=
  EnumWindows_over callback (top_level_windows P) lParam.

Definition find_own_window (hwnd : HWND) (pData : EnumWindowsData)
  : bool * EnumWindowsData :=
  let windowPid := snd (GetWindowThreadProcessId P hwnd) in
  if windowPid =? targetPid pData then
    if IsWindowVisible P hwnd then
      (false, {| targetPid := targetPid pData; foundHwnd := hwnd |})
    else (true, pData)
  else (true, pData).

Definition GetValidHwndForWebAuthn (hwnd : HWND) : M HWND :=
  if nonnull hwnd && IsWindow P hwnd then ret hwnd
  else
    fg <- GetForegroundWindow;;
    if nonnull fg && IsWindow P fg then ret fg
    else
      active <- GetActiveWindow;;
      if nonnull active && IsWindow P active then ret active
      else
        let data := {| targetPid := GetCurrentProcessId P;
                       foundHwnd := nullptr |} in
        let data := EnumWindows find_own_window data in
        if nonnull (foundHwnd data) && IsWindow P (foundHwnd data)
        then ret (foundHwnd data)
        else ret nullptr.

(** *** BringToForeground (lines 131-171) *)

Definition BringToForeground (hwnd : HWND) : M unit :=
  if negb (nonnull hwnd) then ret tt
  else if negb (IsWindow P hwnd) then ret tt
  else
    fg <- GetForegroundWindow;;
    let fgThread := if nonnull fg then fst (GetWindowThreadProcessId P fg) else 0 in
    let hwndThread := fst (GetWindowThreadProcessId P hwnd) in
    let curThread := GetCurrentThreadId P in
    when (negb (fgThread =? 0) && negb (fgThread =? curThread))
         (emit (EvAttachThreadInput fgThread curThread true));;
    when (negb (hwndThread =? 0) && negb (hwndThread =? curThread))
         (emit (EvAttachThreadInput hwndThread curThread true));;
    emit EvAllowSetForegroundWindow;;
    when (IsIconic P hwnd) (emit (EvShowWindow hwnd SW_RESTORE));;
    emit (EvShowWindow hwnd SW_SHOW);;
    emit (EvSetForegroundWindow hwnd);;
    emit (EvBringWindowToTop hwnd);;
    emit (EvSetActiveWindow hwnd);;
    emit (EvSetFocus hwnd);;
    fg2 <- GetForegroundWindow;;
    when (negb (fg2 =? hwnd))
         (emit (EvKeybdEvent false);;
          emit (EvKeybdEvent true);;
          emit (EvSetForegroundWindow hwnd));;
    when (negb (hwndThread =? 0) && negb (hwndThread =? curThread))
         (emit (EvAttachThreadInput hwndThread curThread false));;
    when (negb (fgThread =? 0) && negb (fgThread =? curThread))
         (emit (EvAttachThreadInput fgThread curThread false)).

(** *** WideToUtf8, Utf8ToWide (lines 173-188) *)

Definition WideToUtf8 (w : wstring) : bytes :=
  if empty w then [] else WideCharToMultiByte P w.

Definition Utf8ToWide (s : bytes) : wstring :=
  if empty s then [] else MultiByteToWideChar P s.

(** *** HResultToString (lines 198-214) *)

Definition HResultToString (hr : HRESULT) : bytes :=
  let code := lit "HRESULT=0x" ++ hex8 (hr mod 2 ^ 32) in
  let msgBuf := FormatMessageW P hr in
  if empty msgBuf then code
  else
    let wmsg :=
      pop_back_while
        (fun c => N.eqb c wCR || N.eqb c wLF || N.eqb c wSP)%bool msgBuf in
    let msg := WideToUtf8 wmsg in
    if empty msg then code else code ++ lit " (" ++ msg ++ lit ")".

(** *** GetRandomBytes (lines 216-219) *)

Definition GetRandomBytes (len : nat) : M (bool * bytes) :=
  let out := repeat x00 len in
  '(out, status) <- BCryptGenRandom out;;
  ret (status =? 0, out).

(** *** MakeClientDataJson (lines 243-257) *)

Definition MakeClientDataJson (type : bytes) (rpId : wstring)
           (challenge : bytes) : bytes :=
  let challengeB64 := Base64UrlEncode challenge in
  let origin := WideToUtf8 (kOriginPrefix ++ rpId) in
  let json := lit "{" in
  let json := json ++ ([chQuote] ++ lit "type" ++ [chQuote] ++ lit ":" ++ [chQuote])
                   ++ type ++ ([chQuote] ++ lit ",") in
  let json := json ++ ([chQuote] ++ lit "challenge" ++ [chQuote] ++ lit ":" ++ [chQuote])
                   ++ challengeB64 ++ ([chQuote] ++ lit ",") in
  let json := json ++ ([chQuote] ++ lit "origin" ++ [chQuote] ++ lit ":" ++ [chQuote])
                   ++ origin ++ ([chQuote] ++ lit ",") in
  let json := json ++ ([chQuote] ++ lit "crossOrigin" ++ [chQuote] ++ lit ":false") in
  let json := json ++ lit "}" in
  json.

(** *** ReadHwndFromBuffer (lines 259-265) *)

Definition ReadHwndFromBuffer (data : option bytes) (data_len : nat) : HWND :=
  match data with
  | None => nullptr
  | Some mem =>
      if (negb (Nat.eqb data_len (sizeof_pointer P))
          && negb (Nat.eqb data_len 8))%bool
      then nullptr
      else le_decode (firstn (sizeof_pointer P) mem)
  end.

(** *** Execute (lines 267-416) *)

Definition Execute (ctx : AsyncContext) : M AsyncContext :=
  if do_is_available ctx then
    emit EvIsUserVerifyingPlatformAuthenticatorAvailable;;
    let '(hr, available) :=
      WebAuthNIsUserVerifyingPlatformAuthenticatorAvailable P in
    if FAILED hr then
      ret (set_error ctx
             (lit "WebAuthNIsUserVerifyingPlatformAuthenticatorAvailable failed: "
                ++ HResultToString hr))
    else ret (set_bool_result ctx (available =? 1))
  else if empty (rp_id ctx) then
    ret (set_error ctx (lit "rpId is required"))
  else if do_make_credential ctx then
    '(ok1, challenge) <- GetRandomBytes 32;;
    '(ok2, userId) <- (if ok1 then GetRandomBytes 32 else ret (false, []));;
    if (negb ok1 || negb ok2)%bool then
      ret (set_error ctx (lit "Failed to generate random bytes"))
    else
      let clientDataJson :=
        MakeClientDataJson (lit "webauthn.create") (rp_id ctx) challenge in
      let rpInfo :=
        {| rp_dwVersion := WEBAUTHN_RP_ENTITY_INFORMATION_CURRENT_VERSION (sdk P);
           rp_pwszId := rp_id ctx;
           rp_pwszName := if empty (rp_name ctx) then rp_id ctx else rp_name ctx |} in
      let userInfo :=
        {| user_dwVersion := WEBAUTHN_USER_ENTITY_INFORMATION_CURRENT_VERSION (sdk P);
           user_cbId := DWORD_of_size (length userId);
           user_pbId := userId;
           user_pwszName :=
             if empty (user_name ctx) then wlit "Netcatty" else user_name ctx;
           user_pwszDisplayName :=
             if empty (user_name ctx) then wlit "Netcatty" else user_name ctx |} in
      let coseParams :=
        [ {| cose_dwVersion := WEBAUTHN_COSE_CREDENTIAL_PARAMETER_CURRENT_VERSION (sdk P);
             cose_pwszCredentialType := WEBAUTHN_CREDENTIAL_TYPE_PUBLIC_KEY;
             cose_lAlg := WEBAUTHN_COSE_ALGORITHM_ECDSA_P256_WITH_SHA256 |};
          {| cose_dwVersion := WEBAUTHN_COSE_CREDENTIAL_PARAMETER_CURRENT_VERSION (sdk P);
             cose_pwszCredentialType := WEBAUTHN_CREDENTIAL_TYPE_PUBLIC_KEY;
             cose_lAlg := WEBAUTHN_COSE_ALGORITHM_RSASSA_PKCS1_V1_5_WITH_SHA256 |} ] in
      let coseList :=
        {| cCredentialParameters := 2; pCredentialParameters := coseParams |} in
      let clientData :=
        {| cd_dwVersion := WEBAUTHN_CLIENT_DATA_CURRENT_VERSION (sdk P);
           cbClientDataJSON := DWORD_of_size (length clientDataJson);
           pbClientDataJSON := clientDataJson;
           pwszHashAlgId := WEBAUTHN_HASH_ALGORITHM_SHA_256 |} in
      let options :=
        {| mco_dwVersion :=
             WEBAUTHN_AUTHENTICATOR_MAKE_CREDENTIAL_OPTIONS_CURRENT_VERSION (sdk P);
           mco_dwTimeoutMilliseconds := 60000;
           mco_dwAuthenticatorAttachment := WEBAUTHN_AUTHENTICATOR_ATTACHMENT_PLATFORM;
           mco_dwUserVerificationRequirement :=
             WEBAUTHN_USER_VERIFICATION_REQUIREMENT_REQUIRED;
           mco_dwAttestationConveyancePreference :=
             WEBAUTHN_ATTESTATION_CONVEYANCE_PREFERENCE_NONE |} in
      emit (EvMakeCredential
              {| mc_hWnd := parent_hwnd ctx;
                 mc_pRpInformation := rpInfo;
                 mc_pUserInformation := userInfo;
                 mc_pPubKeyCredParams := coseList;
                 mc_pWebAuthNClientData := clientData;
                 mc_pOptions := options |});;
      let '(hr, attestation) := WebAuthNAuthenticatorMakeCredential P in
      if FAILED hr then
        let ctx := set_error ctx (lit "WebAuthNAuthenticatorMakeCredential failed: "
                                    ++ HResultToString hr) in
        free_if_attestation attestation;;
        ret ctx
      else if credential_id_missing attestation then
        let ctx := set_error ctx (lit "Credential attestation missing credentialId") in
        free_if_attestation attestation;;
        ret ctx
      else
        match attestation with
        | Some a =>
            let ctx := set_buffer_result ctx (credential_id_range a) in
            emit (EvFreeCredentialAttestation a);;
            ret ctx
        | None => ret ctx          (* not reached: null is missing *)
        end
  else if do_get_assertion ctx then
    if empty (credential_id ctx) then
      ret (set_error ctx (lit "credentialId is required"))
    else
      '(ok, challenge) <- GetRandomBytes 32;;
      if negb ok then
        ret (set_error ctx (lit "Failed to generate random challenge"))
      else
        let clientDataJson :=
          MakeClientDataJson (lit "webauthn.get") (rp_id ctx) challenge in
        let clientData :=
          {| cd_dwVersion := WEBAUTHN_CLIENT_DATA_CURRENT_VERSION (sdk P);
             cbClientDataJSON := DWORD_of_size (length clientDataJson);
             pbClientDataJSON := clientDataJson;
             pwszHashAlgId := WEBAUTHN_HASH_ALGORITHM_SHA_256 |} in
        let cred :=
          {| cred_dwVersion := WEBAUTHN_CREDENTIAL_CURRENT_VERSION (sdk P);
             cred_cbId := DWORD_of_size (length (credential_id ctx));
             cred_pbId := credential_id ctx;
             cred_pwszCredentialType := WEBAUTHN_CREDENTIAL_TYPE_PUBLIC_KEY |} in
        let allowList := {| cCredentials := 1; pCredentials := [cred] |} in
        let options :=
          {| gao_dwVersion :=
               WEBAUTHN_AUTHENTICATOR_GET_ASSERTION_OPTIONS_CURRENT_VERSION (sdk P);
             gao_dwTimeoutMilliseconds := 60000;
             gao_CredentialList := allowList;
             gao_dwAuthenticatorAttachment := WEBAUTHN_AUTHENTICATOR_ATTACHMENT_PLATFORM;
             gao_dwUserVerificationRequirement :=
               WEBAUTHN_USER_VERIFICATION_REQUIREMENT_REQUIRED |} in
        emit (EvGetAssertion
                {| ga_hWnd := parent_hwnd ctx;
                   ga_pwszRpId := rp_id ctx;
                   ga_pWebAuthNClientData := clientData;
                   ga_pOptions := options |});;
        let '(hr, assertion) := WebAuthNAuthenticatorGetAssertion P in
        if FAILED hr then
          let ctx := set_error ctx (lit "WebAuthNAuthenticatorGetAssertion failed: "
                                      ++ HResultToString hr) in
          free_if_assertion assertion;;
          ret ctx
        else
          let ctx := set_bool_result ctx true in
          free_if_assertion assertion;;
          ret ctx
  else ret (set_error ctx (lit "Invalid operation")).

(** *** Complete (lines 418-435) *)

Definition Complete (ctx : AsyncContext) : M unit :=
  (if negb (empty (error ctx)) then
     emit (EvNapiRejectDeferred (error ctx))
   else if negb (empty (buffer_result ctx)) then
     emit (EvNapiCreateBufferCopy (buffer_result ctx));;
     emit (EvNapiResolveDeferred (js_buffer (buffer_result ctx)))
   else
     emit (EvNapiResolveDeferred (js_boolean (bool_result ctx))));;
  emit EvNapiDeleteAsyncWork.

(** *** GetStringArg, GetBufferArg (lines 437-459) *)

Definition GetStringArg (v : napi_value) : option bytes :=
  match v with
  | js_string utf8 => Some utf8
  | _ => None
  end.

Definition GetBufferArg (v : napi_value) : option bytes :=
  match v with
  | js_buffer data => Some data
  | _ => None
  end.

(** [napi_get_cb_info]: [argc] becomes the number of arguments of the
    call, and [argv[i]] is undefined where the call has no argument. *)
Definition argv (args : list napi_value) (i : nat) : napi_value :=
  nth i args js_undefined.

(** The optional window argument, as the four entry points that take one
    read it. *)
Definition hwnd_arg (args : list napi_value) (i : nat) : HWND :=
  if Nat.leb (S i) (length args) then
    match argv args i with
    | js_buffer data => ReadHwndFromBuffer (Some data) (length data)
    | _ => nullptr
    end
  else nullptr.

Definition throw_error (message : bytes) : M (option napi_value) :=
  emit (EvNapiThrowError message);; ret None.

Definition throw_type_error (message : bytes) : M (option napi_value) :=
  emit (EvNapiThrowTypeError message);; ret None.

(** *** IsAvailableSync (lines 461-487) *)

Definition IsAvailableSync (args : list napi_value) : M (option napi_value) :=
  with_ScopedCoInit (fun co =>
    if negb (did_init co) then throw_error (lit "COM initialization failed")
    else
      sec <- EnsureComSecurityInitialized;;
      if FAILED sec then
        throw_error (lit "CoInitializeSecurity failed: " ++ HResultToString sec)
      else
        emit EvIsUserVerifyingPlatformAuthenticatorAvailable;;
        let '(hr, available) :=
          WebAuthNIsUserVerifyingPlatformAuthenticatorAvailable P in
        if FAILED hr then
          throw_error
            (lit "WebAuthNIsUserVerifyingPlatformAuthenticatorAvailable failed: "
               ++ HResultToString hr)
        else ret (Some (js_boolean (negb (available =? 0))))).

(** *** CreateCredentialSync (lines 489-663) *)

Definition CreateCredentialSync (args : list napi_value) : M (option napi_value) :=
  let argc := length args in
  match (if Nat.ltb argc 3 then None
         else match GetStringArg (argv args 0), GetStringArg (argv args 1),
                    GetStringArg (argv args 2) with
              | Some rpId, Some rpName, Some userName =>
                  Some (rpId, rpName, userName)
              | _, _, _ => None
              end) with
  | None =>
      throw_type_error
        (lit "Expected (rpId: string, rpName: string, userName: string, hwnd?: Buffer)")
  | Some (rpId, rpName, userName) =>
      let hwnd := hwnd_arg args 3 in
      hwnd <- GetValidHwndForWebAuthn hwnd;;
      with_ScopedCoInit (fun co =>
        if negb (did_init co) then throw_error (lit "COM initialization failed")
        else
          sec <- EnsureComSecurityInitialized;;
          if FAILED sec then
            throw_error (lit "CoInitializeSecurity failed: " ++ HResultToString sec)
          else
            BringToForeground hwnd;;
            '(ok, challenge) <- GetRandomBytes 32;;
            if negb ok then throw_error (lit "Failed to generate random challenge")
            else
              '(ok, userId) <- GetRandomBytes 32;;
              if negb ok then throw_error (lit "Failed to generate random userId")
              else
                let rpIdW := Utf8ToWide rpId in
                let rpNameW := Utf8ToWide rpName in
                let userNameW := Utf8ToWide userName in
                let clientDataJson :=
                  MakeClientDataJson (lit "webauthn.create") rpIdW challenge in
                let rpInfo :=
                  {| rp_dwVersion :=
                       WEBAUTHN_RP_ENTITY_INFORMATION_CURRENT_VERSION (sdk P);
                     rp_pwszId := rpIdW;
                     rp_pwszName := if empty rpNameW then rpIdW else rpNameW |} in
                let userInfo :=
                  {| user_dwVersion :=
                       WEBAUTHN_USER_ENTITY_INFORMATION_CURRENT_VERSION (sdk P);
                     user_cbId := DWORD_of_size (length userId);
                     user_pbId := userId;
                     user_pwszName :=
                       if empty userNameW then wlit "Netcatty" else userNameW;
                     user_pwszDisplayName :=
                       if empty userNameW then wlit "Netcatty" else userNameW |} in
                let coseParams :=
                  [ {| cose_dwVersion :=
                         WEBAUTHN_COSE_CREDENTIAL_PARAMETER_CURRENT_VERSION (sdk P);
                       cose_pwszCredentialType := WEBAUTHN_CREDENTIAL_TYPE_PUBLIC_KEY;
                       cose_lAlg := WEBAUTHN_COSE_ALGORITHM_ECDSA_P256_WITH_SHA256 |};
                    {| cose_dwVersion :=
                         WEBAUTHN_COSE_CREDENTIAL_PARAMETER_CURRENT_VERSION (sdk P);
                       cose_pwszCredentialType := WEBAUTHN_CREDENTIAL_TYPE_PUBLIC_KEY;
                       cose_lAlg :=
                         WEBAUTHN_COSE_ALGORITHM_RSASSA_PKCS1_V1_5_WITH_SHA256 |} ] in
                let coseList :=
                  {| cCredentialParameters := 2;
                     pCredentialParameters := coseParams |} in
                let clientData :=
                  {| cd_dwVersion := WEBAUTHN_CLIENT_DATA_CURRENT_VERSION (sdk P);
                     cbClientDataJSON := DWORD_of_size (length clientDataJson);
                     pbClientDataJSON := clientDataJson;
                     pwszHashAlgId := WEBAUTHN_HASH_ALGORITHM_SHA_256 |} in
                let options :=
                  {| mco_dwVersion :=
                       WEBAUTHN_AUTHENTICATOR_MAKE_CREDENTIAL_OPTIONS_CURRENT_VERSION
                         (sdk P);
                     mco_dwTimeoutMilliseconds := 60000;
                     mco_dwAuthenticatorAttachment :=
                       WEBAUTHN_AUTHENTICATOR_ATTACHMENT_PLATFORM;
                     mco_dwUserVerificationRequirement :=
                       WEBAUTHN_USER_VERIFICATION_REQUIREMENT_REQUIRED;
                     mco_dwAttestationConveyancePreference :=
                       WEBAUTHN_ATTESTATION_CONVEYANCE_PREFERENCE_NONE |} in
                emit EvAllowSetForegroundWindow;;
                fgHwnd <- GetForegroundWindow;;
                fgHwnd <-
                  (if nonnull hwnd && IsWindow P hwnd then
                     fg <- GetForegroundWindow;;
                     let foregroundThread := fst (GetWindowThreadProcessId P fg) in
                     let currentThread := GetCurrentThreadId P in
                     when (negb (foregroundThread =? currentThread))
                          (emit (EvAttachThreadInput currentThread foregroundThread true));;
                     emit (EvSetForegroundWindow hwnd);;
                     emit (EvBringWindowToTop hwnd);;
                     emit (EvSetFocus hwnd);;
                     when (negb (foregroundThread =? currentThread))
                          (emit (EvAttachThreadInput currentThread foregroundThread false));;
                     emit (EvSleep 100);;
                     GetForegroundWindow
                   else ret fgHwnd);;
                let webauthnHwnd :=
                  if nonnull hwnd && IsWindow P hwnd && (hwnd =? fgHwnd) then hwnd
                  else if nonnull fgHwnd && IsWindow P fgHwnd then fgHwnd
                  else if nonnull hwnd && IsWindow P hwnd then hwnd
                  else nullptr in
                let webauthnHwnd :=
                  if negb (nonnull webauthnHwnd) || negb (IsWindow P webauthnHwnd)
                  then GetDesktopWindow P else webauthnHwnd in
                emit (EvOutputDebugString hwnd fgHwnd webauthnHwnd);;
                emit (EvMakeCredential
                        {| mc_hWnd := webauthnHwnd;
                           mc_pRpInformation := rpInfo;
                           mc_pUserInformation := userInfo;
                           mc_pPubKeyCredParams := coseList;
                           mc_pWebAuthNClientData := clientData;
                           mc_pOptions := options |});;
                let '(hr, attestation) := WebAuthNAuthenticatorMakeCredential P in
                if FAILED hr then
                  free_if_attestation attestation;;
                  throw_error (lit "WebAuthNAuthenticatorMakeCredential failed: "
                                 ++ HResultToString hr)
                else if credential_id_missing attestation then
                  free_if_attestation attestation;;
                  throw_error (lit "Credential attestation missing credentialId")
                else
                  match attestation with
                  | Some a =>
                      emit (EvNapiCreateBufferCopy (credential_id_range a));;
                      emit (EvFreeCredentialAttestation a);;
                      ret (Some (js_buffer (credential_id_range a)))
                  | None => ret None     (* not reached: null is missing *)
                  end)
  end.

(** *** GetAssertionSync (lines 665-759) *)

Definition GetAssertionSync (args : list napi_value) : M (option napi_value) :=
  let argc := length args in
  match (if Nat.ltb argc 2 then None
         else match GetStringArg (argv args 0), GetBufferArg (argv args 1) with
              | Some rpId, Some credId => Some (rpId, credId)
              | _, _ => None
              end) with
  | None =>
      throw_type_error
        (lit "Expected (rpId: string, credentialId: Buffer, hwnd?: Buffer)")
  | Some (rpId, credId) =>
      let hwnd := hwnd_arg args 2 in
      hwnd <- GetValidHwndForWebAuthn hwnd;;
      with_ScopedCoInit (fun co =>
        if negb (did_init co) then throw_error (lit "COM initialization failed")
        else
          sec <- EnsureComSecurityInitialized;;
          if FAILED sec then
            throw_error (lit "CoInitializeSecurity failed: " ++ HResultToString sec)
          else
            BringToForeground hwnd;;
            '(ok, challenge) <- GetRandomBytes 32;;
            if negb ok then throw_error (lit "Failed to generate random challenge")
            else
              let rpIdW := Utf8ToWide rpId in
              let clientDataJson :=
                MakeClientDataJson (lit "webauthn.get") rpIdW challenge in
              let clientData :=
                {| cd_dwVersion := WEBAUTHN_CLIENT_DATA_CURRENT_VERSION (sdk P);
                   cbClientDataJSON := DWORD_of_size (length clientDataJson);
                   pbClientDataJSON := clientDataJson;
                   pwszHashAlgId := WEBAUTHN_HASH_ALGORITHM_SHA_256 |} in
              let cred :=
                {| cred_dwVersion := WEBAUTHN_CREDENTIAL_CURRENT_VERSION (sdk P);
                   cred_cbId := DWORD_of_size (length credId);
                   cred_pbId := credId;
                   cred_pwszCredentialType := WEBAUTHN_CREDENTIAL_TYPE_PUBLIC_KEY |} in
              let allowList := {| cCredentials := 1; pCredentials := [cred] |} in
              let options :=
                {| gao_dwVersion :=
                     WEBAUTHN_AUTHENTICATOR_GET_ASSERTION_OPTIONS_CURRENT_VERSION (sdk P);
                   gao_dwTimeoutMilliseconds := 60000;
                   gao_CredentialList := allowList;
                   gao_dwAuthenticatorAttachment :=
                     WEBAUTHN_AUTHENTICATOR_ATTACHMENT_PLATFORM;
                   gao_dwUserVerificationRequirement :=
                     WEBAUTHN_USER_VERIFICATION_REQUIREMENT_REQUIRED |} in
              fgHwnd <- GetForegroundWindow;;
              let webauthnHwnd := if nonnull fgHwnd then fgHwnd else hwnd in
              webauthnHwnd <-
                (if negb (nonnull webauthnHwnd) || negb (IsWindow P webauthnHwnd)
                 then GetActiveWindow else ret webauthnHwnd);;
              let webauthnHwnd :=
                if negb (nonnull webauthnHwnd) || negb (IsWindow P webauthnHwnd)
                then GetDesktopWindow P else webauthnHwnd in
              emit (EvGetAssertion
                      {| ga_hWnd := webauthnHwnd;
                         ga_pwszRpId := rpIdW;
                         ga_pWebAuthNClientData := clientData;
                         ga_pOptions := options |});;
              let '(hr, assertion) := WebAuthNAuthenticatorGetAssertion P in
              if FAILED hr then
                free_if_assertion assertion;;
                throw_error (lit "WebAuthNAuthenticatorGetAssertion failed: "
                               ++ HResultToString hr)
              else
                free_if_assertion assertion;;
                ret (Some (js_boolean true)))
  end.

(** *** PromiseFromWork and the asynchronous entry points (lines 761-859) *)

(** The queued work is returned with the promise: the runtime later runs
    [Execute] on it on a worker thread and then [Complete] on the main
    thread. *)
Definition PromiseFromWork (ctx : AsyncContext) (name : bytes)
  : M (option napi_value * option AsyncContext) :=
  emit (EvNapiQueueAsyncWork name);;
  ret (Some js_promise, Some ctx).

Definition throw_type_error_nowork (message : bytes)
  : M (option napi_value * option AsyncContext) :=
  emit (EvNapiThrowTypeError message);; ret (None, None).

Definition IsAvailable (args : list napi_value)
  : M (option napi_value * option AsyncContext) :=
  let ctx := new_AsyncContext in
  let ctx :=
    {| error := error ctx; bool_result := bool_result ctx;
       buffer_result := buffer_result ctx;
       rp_id := rp_id ctx; rp_name := rp_name ctx; user_name := user_name ctx;
       parent_hwnd := parent_hwnd ctx; credential_id := credential_id ctx;
       do_is_available := true;
       do_make_credential := do_make_credential ctx;
       do_get_assertion := do_get_assertion ctx |} in
  PromiseFromWork ctx (lit "netcatty_webauthn_isAvailable").

Definition CreateCredential (args : list napi_value)
  : M (option napi_value * option AsyncContext) :=
  let argc := length args in
  if Nat.ltb argc 3 then
    throw_type_error_nowork
      (lit "createCredential(rpId, rpName, userName, hwndBuffer?)")
  else
    match GetStringArg (argv args 0), GetStringArg (argv args 1),
          GetStringArg (argv args 2) with
    | Some rpId, Some rpName, Some userName =>
        let hwnd := hwnd_arg args 3 in
        let ctx := new_AsyncContext in
        let ctx :=
          {| error := error ctx; bool_result := bool_result ctx;
             buffer_result := buffer_result ctx;
             rp_id := Utf8ToWide rpId;
             rp_name := Utf8ToWide rpName;
             user_name := Utf8ToWide userName;
             parent_hwnd := hwnd;
             credential_id := credential_id ctx;
             do_is_available := do_is_available ctx;
             do_make_credential := true;
             do_get_assertion := do_get_assertion ctx |} in
        PromiseFromWork ctx (lit "netcatty_webauthn_createCredential")
    | _, _, _ =>
        throw_type_error_nowork (lit "createCredential expects strings")
    end.

Definition GetAssertion (args : list napi_value)
  : M (option napi_value * option AsyncContext) :=
  let argc := length args in
  if Nat.ltb argc 2 then
    throw_type_error_nowork
      (lit "getAssertion(rpId, credentialIdBuffer, hwndBuffer?)")
  else
    match GetStringArg (argv args 0) with
    | None => throw_type_error_nowork (lit "rpId must be a string")
    | Some rpId =>
        match GetBufferArg (argv args 1) with
        | None => throw_type_error_nowork (lit "credentialId must be a Buffer")
        | Some credId =>
            let hwnd := hwnd_arg args 2 in
            let ctx := new_AsyncContext in
            let ctx :=
              {| error := error ctx; bool_result := bool_result ctx;
                 buffer_result := buffer_result ctx;
                 rp_id := Utf8ToWide rpId;
                 rp_name := rp_name ctx;
                 user_name := user_name ctx;
                 parent_hwnd := hwnd;
                 credential_id := credId;
                 do_is_available := do_is_available ctx;
                 do_make_credential := do_make_credential ctx;
                 do_get_assertion := true |} in
            PromiseFromWork ctx (lit "netcatty_webauthn_getAssertion")
        end
    end.

(** What [napi_queue_async_work] makes the runtime do with queued work. *)
Definition run_async_work (queued : option AsyncContext) : M unit :=
  match queued with
  | None => ret tt
  | Some ctx => ctx <- Execute ctx;; Complete ctx
  end.

(** An asynchronous export from the call to the settlement of its promise. *)
Definition async_call
           (entry : list napi_value -> M (option napi_value * option AsyncContext))
           (args : list napi_value) : M (option napi_value) :=
  '(returned, queued) <- entry args;;
  run_async_work queued;;
  ret returned.

End Addon.

(** ** A concrete platform, for running the model *)

Module Demo.

Definition byte_of_N (n : N) : byte :=
  match Byte.of_N (n mod 256) with
  | Some b => b
  | None => x00
  end.

Definition versions : SdkVersions :=
  {| WEBAUTHN_RP_ENTITY_INFORMATION_CURRENT_VERSION := 1;
     WEBAUTHN_USER_ENTITY_INFORMATION_CURRENT_VERSION := 1;
     WEBAUTHN_COSE_CREDENTIAL_PARAMETER_CURRENT_VERSION := 1;
     WEBAUTHN_CLIENT_DATA_CURRENT_VERSION := 1;
     WEBAUTHN_CREDENTIAL_CURRENT_VERSION := 1;
     WEBAUTHN_AUTHENTICATOR_MAKE_CREDENTIAL_OPTIONS_CURRENT_VERSION := 7;
     WEBAUTHN_AUTHENTICATOR_GET_ASSERTION_OPTIONS_CURRENT_VERSION := 7 |}.

(** A 64-bit process [4242] whose main thread is [7], with the live
    windows [live]; every live window is visible, belongs to the process
    and to thread [7].  Text is ASCII.  [sec] is the answer of
    [CoInitializeSecurity], [make] and [get] those of the authenticator. *)
Definition platform (live : list HWND) (sec : HRESULT)
           (make : HRESULT * option WEBAUTHN_CREDENTIAL_ATTESTATION)
           (get : HRESULT * option WEBAUTHN_ASSERTION) : Platform :=
  {| sdk := versions;
     sizeof_pointer := 8;
     WideCharToMultiByte := map byte_of_N;
     MultiByteToWideChar := map Byte.to_N;
     FormatMessageW := fun _ => [];
     IsWindow := fun h => existsb (Z.eqb h) live;
     IsWindowVisible := fun h => existsb (Z.eqb h) live;
     IsIconic := fun _ => false;
     GetWindowThreadProcessId := fun h =>
       if existsb (Z.eqb h) live then (7, 4242) else (0, 0);
     GetCurrentThreadId := 7;
     GetCurrentProcessId := 4242;
     GetDesktopWindow := 65552;
     top_level_windows := live;
     CoInitializeEx := fun _ => S_OK;
     CoInitializeSecurity := sec;
     WebAuthNIsUserVerifyingPlatformAuthenticatorAvailable := (S_OK, 1);
     WebAuthNAuthenticatorMakeCredential := make;
     WebAuthNAuthenticatorGetAssertion := get |}.

Definition credential16 : bytes :=
  [x01; x02; x03; x04; x05; x06; x07; x08;
   x09; x0a; x0b; x0c; x0d; x0e; x0f; x10].

Definition attestation16 : WEBAUTHN_CREDENTIAL_ATTESTATION :=
  {| pbCredentialId := Some (fun i => nth i credential16 x00);
     cbCredentialId := 16 |}.

Definition assertion0 : WEBAUTHN_ASSERTION :=
  {| pbAuthenticatorData := [x00]; pbSignature := [x00] |}.

Definition challenge32 : bytes := repeat xaa 32.
Definition userid32 : bytes := repeat xbb 32.

(** A freshly started process in which window [fg] stays in front. *)
Definition fresh (fg : HWND) : State :=
  process_start (repeat fg 8) (repeat fg 8) [Some challenge32; Some userid32].

(** An 8-byte buffer holding a window handle. *)
Definition hwnd_buffer (h : Z) : napi_value :=
  js_buffer (map (fun i => byte_of_N (Z.to_N ((h / 256 ^ i) mod 256)))
                 [0; 1; 2; 3; 4; 5; 6; 7]).

(** The arguments of [createCredential("example.com", "Example", "alice",
    hwnd)]. *)
Definition example_args (hwnd : Z) : list napi_value :=
  [js_string (lit "example.com"); js_string (lit "Example");
   js_string (lit "alice"); hwnd_buffer hwnd].

End Demo.

(** ** Definitions used to state the properties *)


(** The padding character of base64. *)
Definition is_padding (ch : byte) : bool := Byte.eqb ch chEquals.

(** The base64url alphabet of RFC 4648, section 5. *)
Definition base64url_alphabet : bytes :=
  lit "ABCDEFGHIJKLMNOPQRSTUVWXYZabcdefghijklmnopqrstuvwxyz0123456789-_".

(** The window resolver as the specification words it, section 4.3: the
    first candidate that is a live window wins, and there is no handle when
    none is. *)
Fixpoint first_live (P : Platform) (candidates : list HWND) : HWND :=
  match candidates with
  | [] => nullptr
  | h :: rest => if nonnull h && IsWindow P h then h else first_live P rest
  end.

(** The first visible top-level window of the current process, in the order
    of the enumeration. *)
Definition own_visible_window (P : Platform) : HWND :=
  hd nullptr
     (filter (fun h => (snd (GetWindowThreadProcessId P h) =? GetCurrentProcessId P)
                       && IsWindowVisible P h)
             (top_level_windows P)).

(** The windows the next [GetForegroundWindow] and [GetActiveWindow] report. *)
Definition current_foreground (s : State) : HWND := hd nullptr (foreground s).
Definition current_active (s : State) : HWND := hd nullptr (active s).

(** [n] calls of [EnsureComSecurityInitialized], one after the other, with
    the value each one returns. *)
Fixpoint ensure_calls (P : Platform) (n : nat) : M (list HRESULT) :=
  match n with
  | O => ret []
  | S n' =>
      h <- EnsureComSecurityInitialized P;;
      hs <- ensure_calls P n';;
      ret (h :: hs)
  end.

(** The status [EnsureComSecurityInitialized] keeps for the status
    [CoInitializeSecurity] returned. *)
Definition too_late_is_ok (h : HRESULT) : HRESULT :=
  if h =? RPC_E_TOO_LATE then S_OK else h.

(** The two ways each ceremony is exported: [createCredential] and
    [getAssertion] return a promise, [createCredentialSync] and
    [getAssertionSync] run on the caller's thread. *)
Inductive Variant := Asynchronous | Synchronous.

Definition createCredential (P : Platform) (v : Variant)
           (args : list napi_value) : M (option napi_value) :=
  match v with
  | Asynchronous => async_call P (CreateCredential P) args
  | Synchronous => CreateCredentialSync P args
  end.

Definition getAssertion (P : Platform) (v : Variant)
           (args : list napi_value) : M (option napi_value) :=
  match v with
  | Asynchronous => async_call P (GetAssertion P) args
  | Synchronous => GetAssertionSync P args
  end.

(** Calls of the authenticator and releases of its results. *)
Definition is_authenticator_event (e : Event) : bool :=
  match e with
  | EvMakeCredential _ | EvFreeCredentialAttestation _
  | EvGetAssertion _ | EvFreeAssertion _ => true
  | _ => false
  end.

Definition quiet (tr : list Event) : Prop :=
  forallb (fun e => negb (is_authenticator_event e)) tr = true.

(** The first [WebAuthNAuthenticatorMakeCredential] call of a trace, with
    the events before it and the events after it. *)
Fixpoint split_at_make (tr : list Event)
  : option (list Event * MakeCredentialCall * list Event) :=
  match tr with
  | [] => None
  | EvMakeCredential call :: post => Some ([], call, post)
  | e :: rest =>
      match split_at_make rest with
      | Some (pre, call, post) => Some (e :: pre, call, post)
      | None => None
      end
  end.

(** The first [WebAuthNAuthenticatorGetAssertion] call of a trace. *)
Fixpoint split_at_get (tr : list Event)
  : option (list Event * GetAssertionCall * list Event) :=
  match tr with
  | [] => None
  | EvGetAssertion call :: post => Some ([], call, post)
  | e :: rest =>
      match split_at_get rest with
      | Some (pre, call, post) => Some (e :: pre, call, post)
      | None => None
      end
  end.

(** The number of [WebAuthNFreeCredentialAttestation] calls of a trace. *)
Definition is_release (e : Event) : bool :=
  match e with
  | EvFreeCredentialAttestation _ => true
  | _ => false
  end.

Definition releases (tr : list Event) : nat := length (filter is_release tr).

Definition is_security_init (e : Event) : bool :=
  match e with
  | EvCoInitializeEx _ | EvCoInitializeSecurity => true
  | _ => false
  end.

(** The release of a native attestation result, when there is one. *)
Definition released (attestation : option WEBAUTHN_CREDENTIAL_ATTESTATION)
  : list Event :=
  match attestation with
  | Some a => [EvFreeCredentialAttestation a]
  | None => []
  end.

(** How each variant reports a failure, and a credential id. *)
Definition report_error (v : Variant) (message : bytes) : list Event :=
  match v with
  | Asynchronous => [EvNapiRejectDeferred message; EvNapiDeleteAsyncWork]
  | Synchronous => [EvNapiThrowError message; EvCoUninitialize]
  end.

Definition report_credential (v : Variant) (a : WEBAUTHN_CREDENTIAL_ATTESTATION)
  : list Event :=
  match v with
  | Asynchronous =>
      [EvFreeCredentialAttestation a;
       EvNapiCreateBufferCopy (credential_id_range a);
       EvNapiResolveDeferred (js_buffer (credential_id_range a));
       EvNapiDeleteAsyncWork]
  | Synchronous =>
      [EvNapiCreateBufferCopy (credential_id_range a);
       EvFreeCredentialAttestation a;
       EvCoUninitialize]
  end.

(** What follows the call of the authenticator in a creation ceremony. *)
Definition create_tail (P : Platform) (v : Variant) : list Event :=
  let '(hr, attestation) := WebAuthNAuthenticatorMakeCredential P in
  if FAILED hr then
    released attestation
      ++ report_error v (lit "WebAuthNAuthenticatorMakeCredential failed: "
                           ++ HResultToString P hr)
  else if credential_id_missing attestation then
    released attestation
      ++ report_error v (lit "Credential attestation missing credentialId")
  else
    match attestation with
    | Some a => report_credential v a
    | None => []
    end.

(** What a creation ceremony that called the authenticator returns to its
    caller: the promise, or the buffer or nothing after a throw. *)
Definition create_value (P : Platform) (v : Variant) : option napi_value :=
  match v with
  | Asynchronous => Some js_promise
  | Synchronous =>
      let '(hr, attestation) := WebAuthNAuthenticatorMakeCredential P in
      if FAILED hr then None
      else if credential_id_missing attestation then None
      else
        match attestation with
        | Some a => Some (js_buffer (credential_id_range a))
        | None => None
        end
  end.

(** The arguments of the authenticator call of a creation ceremony, from
    the window, the three wide strings and the two random values. *)
Definition make_call (P : Platform) (hwnd : HWND)
           (rpIdW rpNameW userNameW : wstring) (challenge userId : bytes)
  : MakeCredentialCall :=
  let clientDataJson := MakeClientDataJson P (lit "webauthn.create") rpIdW challenge in
  {| mc_hWnd := hwnd;
     mc_pRpInformation :=
       {| rp_dwVersion := WEBAUTHN_RP_ENTITY_INFORMATION_CURRENT_VERSION (sdk P);
          rp_pwszId := rpIdW;
          rp_pwszName := if empty rpNameW then rpIdW else rpNameW |};
     mc_pUserInformation :=
       {| user_dwVersion := WEBAUTHN_USER_ENTITY_INFORMATION_CURRENT_VERSION (sdk P);
          user_cbId := DWORD_of_size (length userId);
          user_pbId := userId;
          user_pwszName := if empty userNameW then wlit "Netcatty" else userNameW;
          user_pwszDisplayName :=
            if empty userNameW then wlit "Netcatty" else userNameW |};
     mc_pPubKeyCredParams :=
       {| cCredentialParameters := 2;
          pCredentialParameters :=
            [ {| cose_dwVersion :=
                   WEBAUTHN_COSE_CREDENTIAL_PARAMETER_CURRENT_VERSION (sdk P);
                 cose_pwszCredentialType := WEBAUTHN_CREDENTIAL_TYPE_PUBLIC_KEY;
                 cose_lAlg := WEBAUTHN_COSE_ALGORITHM_ECDSA_P256_WITH_SHA256 |};
              {| cose_dwVersion :=
                   WEBAUTHN_COSE_CREDENTIAL_PARAMETER_CURRENT_VERSION (sdk P);
                 cose_pwszCredentialType := WEBAUTHN_CREDENTIAL_TYPE_PUBLIC_KEY;
                 cose_lAlg :=
                   WEBAUTHN_COSE_ALGORITHM_RSASSA_PKCS1_V1_5_WITH_SHA256 |} ] |};
     mc_pWebAuthNClientData :=
       {| cd_dwVersion := WEBAUTHN_CLIENT_DATA_CURRENT_VERSION (sdk P);
          cbClientDataJSON := DWORD_of_size (length clientDataJson);
          pbClientDataJSON := clientDataJson;
          pwszHashAlgId := WEBAUTHN_HASH_ALGORITHM_SHA_256 |};
     mc_pOptions :=
       {| mco_dwVersion :=
            WEBAUTHN_AUTHENTICATOR_MAKE_CREDENTIAL_OPTIONS_CURRENT_VERSION (sdk P);
          mco_dwTimeoutMilliseconds := 60000;
          mco_dwAuthenticatorAttachment := WEBAUTHN_AUTHENTICATOR_ATTACHMENT_PLATFORM;
          mco_dwUserVerificationRequirement :=
            WEBAUTHN_USER_VERIFICATION_REQUIREMENT_REQUIRED;
          mco_dwAttestationConveyancePreference :=
            WEBAUTHN_ATTESTATION_CONVEYANCE_PREFERENCE_NONE |} |}.

(** The release of a native assertion result, when there is one. *)
Definition released_assertion (assertion : option WEBAUTHN_ASSERTION)
  : list Event :=
  match assertion with
  | Some a => [EvFreeAssertion a]
  | None => []
  end.

(** How each variant reports a successful assertion. *)
Definition report_true (v : Variant) : list Event :=
  match v with
  | Asynchronous =>
      [EvNapiResolveDeferred (js_boolean true); EvNapiDeleteAsyncWork]
  | Synchronous => [EvCoUninitialize]
  end.

(** What follows the call of the authenticator in an assertion ceremony. *)
Definition get_tail (P : Platform) (v : Variant) : list Event :=
  let '(hr, assertion) := WebAuthNAuthenticatorGetAssertion P in
  released_assertion assertion
    ++ (if FAILED hr then
          report_error v (lit "WebAuthNAuthenticatorGetAssertion failed: "
                            ++ HResultToString P hr)
        else report_true v).

Definition get_value (P : Platform) (v : Variant) : option napi_value :=
  match v with
  | Asynchronous => Some js_promise
  | Synchronous =>
      if FAILED (fst (WebAuthNAuthenticatorGetAssertion P)) then None
      else Some (js_boolean true)
  end.

(** The arguments of the authenticator call of an assertion ceremony. *)
Definition get_call (P : Platform) (hwnd : HWND) (rpIdW : wstring)
           (credId challenge : bytes) : GetAssertionCall :=
  let clientDataJson := MakeClientDataJson P (lit "webauthn.get") rpIdW challenge in
  {| ga_hWnd := hwnd;
     ga_pwszRpId := rpIdW;
     ga_pWebAuthNClientData :=
       {| cd_dwVersion := WEBAUTHN_CLIENT_DATA_CURRENT_VERSION (sdk P);
          cbClientDataJSON := DWORD_of_size (length clientDataJson);
          pbClientDataJSON := clientDataJson;
          pwszHashAlgId := WEBAUTHN_HASH_ALGORITHM_SHA_256 |};
     ga_pOptions :=
       {| gao_dwVersion :=
            WEBAUTHN_AUTHENTICATOR_GET_ASSERTION_OPTIONS_CURRENT_VERSION (sdk P);
          gao_dwTimeoutMilliseconds := 60000;
          gao_CredentialList :=
            {| cCredentials := 1;
               pCredentials :=
                 [ {| cred_dwVersion := WEBAUTHN_CREDENTIAL_CURRENT_VERSION (sdk P);
                      cred_cbId := DWORD_of_size (length credId);
                      cred_pbId := credId;
                      cred_pwszCredentialType :=
                        WEBAUTHN_CREDENTIAL_TYPE_PUBLIC_KEY |} ] |};
          gao_dwAuthenticatorAttachment := WEBAUTHN_AUTHENTICATOR_ATTACHMENT_PLATFORM;
          gao_dwUserVerificationRequirement :=
            WEBAUTHN_USER_VERIFICATION_REQUIREMENT_REQUIRED |} |}.

(** What is known of an assertion ceremony with the arguments [rpId] and
    [credId], in the manner of [create_shape]. *)
Definition get_shape (P : Platform) (v : Variant)
           (rpId credId : bytes) (Ok : HWND -> State -> Prop)
           (r : option napi_value * State * list Event) : Prop :=
  split_at_get (trace_of r) = None
  \/ exists pre hwnd challenge,
      trace_of r
      = pre ++ EvGetAssertion (get_call P hwnd (Utf8ToWide P rpId) credId challenge)
            :: get_tail P v
      /\ quiet pre
      /\ value_of r = get_value P v
      /\ Ok hwnd (state_of r).

(** [prepend t r]: the run [r] after the events [t]. *)
Definition prepend {A} (t : list Event) (r : A * State * list Event)
  : A * State * list Event :=
  (value_of r, state_of r, t ++ trace_of r).

(** A computation that neither calls the authenticator nor releases one
    of its results. *)
Definition quiet_m {A} (m : M A) : Prop := forall s, quiet (trace_of (m s)).

(** A computation that leaves the statics of
    [EnsureComSecurityInitialized] as they are. *)
Definition keeps_security {A} (m : M A) : Prop :=
  forall s, once (state_of (m s)) = once s /\ result (state_of (m s)) = result s.

(** What is known of a creation ceremony with the string arguments [rpId],
    [rpName] and [userName]: either it never calls the authenticator, or it
    calls it once, with the arguments [make_call] builds, after events that
    do not concern the authenticator, and [create_tail] follows.  [Ok] is
    what is known besides of the window of the call and of the final state. *)
Definition create_shape (P : Platform) (v : Variant)
           (rpId rpName userName : bytes) (Ok : HWND -> State -> Prop)
           (r : option napi_value * State * list Event) : Prop :=
  split_at_make (trace_of r) = None
  \/ exists pre hwnd challenge userId,
      trace_of r
      = pre ++ EvMakeCredential
                 (make_call P hwnd (Utf8ToWide P rpId) (Utf8ToWide P rpName)
                            (Utf8ToWide P userName) challenge userId)
            :: create_tail P v
      /\ quiet pre
      /\ value_of r = create_value P v
      /\ Ok hwnd (state_of r).

(** The window of a synchronous call is a live window or the desktop
    window, and the call is made after the security initialization of the
    process has succeeded. *)
Definition sync_ok (P : Platform) (hwnd : HWND) (s : State) : Prop :=
  once s = true /\ SUCCEEDED (result s) = true
  /\ (IsWindow P hwnd = true \/ hwnd = GetDesktopWindow P).

(** ** The exports and what their callers observe *)

(** The three ceremonies and the six functions the addon exports. *)
Inductive Ceremony := Probe | Create | Get.

Definition export (P : Platform) (c : Ceremony) (v : Variant)
           (args : list napi_value) : M (option napi_value) :=
  match c, v with
  | Probe, Asynchronous => async_call P IsAvailable args
  | Probe, Synchronous => IsAvailableSync P args
  | Create, _ => createCredential P v args
  | Get, _ => getAssertion P v args
  end.

(** What a call lets its caller observe: an error (thrown, or the
    rejection of the promise) or a value (returned, or the resolution of the
    promise). *)
Inductive Outcome :=
| Failed (message : bytes)
| Succeeded (v : napi_value).

Definition reports (e : Event) : list Outcome :=
  match e with
  | EvNapiThrowTypeError m => [Failed m]
  | EvNapiThrowError m => [Failed m]
  | EvNapiRejectDeferred m => [Failed m]
  | EvNapiResolveDeferred v => [Succeeded v]
  | _ => []
  end.

Definition is_report (e : Event) : bool :=
  match e with
  | EvNapiThrowTypeError _ | EvNapiThrowError _
  | EvNapiRejectDeferred _ | EvNapiResolveDeferred _ => true
  | _ => false
  end.

(** A returned value that is not a promise is an outcome of its own. *)
Definition returned_outcome (v : option napi_value) : list Outcome :=
  match v with
  | None => []
  | Some js_promise => []
  | Some v => [Succeeded v]
  end.

Definition outcomes (r : option napi_value * State * list Event) : list Outcome :=
  flat_map reports (trace_of r) ++ returned_outcome (value_of r).

(** The outcomes each ceremony can have. *)
Definition good_outcome (c : Ceremony) (o : Outcome) : Prop :=
  match o with
  | Failed m => m <> []
  | Succeeded v =>
      match c with
      | Probe => exists b, v = js_boolean b
      | Create => exists id, v = js_buffer id /\ id <> []
      | Get => v = js_boolean true
      end
  end.

(** A computation all of whose events satisfy [Q]. *)
Definition emits_only (Q : Event -> bool) {A} (m : M A) : Prop :=
  forall s, forallb Q (trace_of (m s)) = true.

(** A computation that, after the outcomes [pre], ends with exactly one
    outcome in all, which satisfies [G]. *)
Definition yields (G : Outcome -> Prop) (pre : list Outcome)
           (m : M (option napi_value)) : Prop :=
  forall s, exists o,
    pre ++ outcomes (m s) = [o] /\ G o.

(** A computation whose value always satisfies [R]. *)
Definition ensures {A} (R : A -> Prop) (m : M A) : Prop :=
  forall s, R (value_of (m s)).

(** What [Execute] leaves in the context for [Complete], by ceremony: an
    error, or the kind of result the ceremony has. *)
Definition executed (c : Ceremony) (ctx : AsyncContext) : Prop :=
  empty (error ctx) = false
  \/ match c with
     | Probe => empty (buffer_result ctx) = true
     | Create => empty (buffer_result ctx) = false
     | Get => empty (buffer_result ctx) = true /\ bool_result ctx = true
     end.

(** The calls that enter and leave a COM apartment. *)
Definition is_apartment_event (e : Event) : bool :=
  match e with
  | EvCoInitializeEx _ | EvCoUninitialize => true
  | _ => false
  end.

(** What the constructor of [ScopedCoInit] does on a platform: its calls of
    [CoInitializeEx], and the status it keeps. *)
Definition apartment_attempts (P : Platform) : list Event :=
  EvCoInitializeEx COINIT_APARTMENTTHREADED
    :: (if CoInitializeEx P COINIT_APARTMENTTHREADED =? RPC_E_CHANGED_MODE
        then [EvCoInitializeEx COINIT_MULTITHREADED] else []).

Definition apartment_status (P : Platform) : HRESULT :=
  if CoInitializeEx P COINIT_APARTMENTTHREADED =? RPC_E_CHANGED_MODE
  then CoInitializeEx P COINIT_MULTITHREADED
  else CoInitializeEx P COINIT_APARTMENTTHREADED.

(** The thread inputs attached and not yet detached, the last one first,
    after the events [tr]; [None] if [tr] detaches something else than the
    input attached last. *)
Fixpoint attached (tr : list Event) (stack : list (DWORD * DWORD))
  : option (list (DWORD * DWORD)) :=
  match tr with
  | [] => Some stack
  | EvAttachThreadInput a b true :: rest => attached rest ((a, b) :: stack)
  | EvAttachThreadInput a b false :: rest =>
      match stack with
      | (a', b') :: stack' =>
          if (a =? a') && (b =? b') then attached rest stack' else None
      | [] => None
      end
  | _ :: rest => attached rest stack
  end.

Definition is_thread_input (e : Event) : bool :=
  match e with
  | EvAttachThreadInput _ _ _ => true
  | _ => false
  end.

(** A computation that detaches every thread input it attaches, in the
    reverse order, and no other. *)
Definition restores_thread_input {A} (m : M A) : Prop :=
  forall s stack, attached (trace_of (m s)) stack = Some stack.

(** A computation that detaches the thread input attached last, and leaves
    the others as they are. *)
Definition detaches {A} (a b : DWORD) (m : M A) : Prop :=
  forall s stack, attached (trace_of (m s)) ((a, b) :: stack) = Some stack.

(** The window an event shows, raises, activates or focuses. *)
Definition window_of (e : Event) : option HWND :=
  match e with
  | EvShowWindow h _ | EvSetForegroundWindow h | EvBringWindowToTop h
  | EvSetActiveWindow h | EvSetFocus h => Some h
  | _ => None
  end.

Definition only_window (hwnd : HWND) (e : Event) : bool :=
  match window_of e with
  | Some h => h =? hwnd
  | None => true
  end.

(** Reading a number written in upper-case hexadecimal digits. *)
Definition hex_digit_value (ch : byte) : Z :=
  let n := Z.of_N (Byte.to_N ch) in
  if n <=? 57 then n - 48 else n - 55.

Definition hex_value (s : bytes) : Z :=
  fold_left (fun acc ch => 16 * acc + hex_digit_value ch) s 0.

Definition is_upper_hex (ch : byte) : bool :=
  existsb (Byte.eqb ch) (lit "0123456789ABCDEF").

(** The characters [HResultToString] removes from the end of a message. *)
Definition is_trailing (c : wchar_t) : bool :=
  (N.eqb c wCR || N.eqb c wLF || N.eqb c wSP)%bool.

(** The [n] bytes a little-endian machine keeps for the integer [z]. *)
Fixpoint le_encode (n : nat) (z : Z) : bytes :=
  match n with
  | O => []
  | S n' => Demo.byte_of_N (Z.to_N (z mod 256)) :: le_encode n' (z / 256)
  end.

(** The arguments each export insists on: none for the probe, three
    strings for a creation, a string and a buffer for an assertion.  What
    follows them is not checked. *)
Definition well_typed (c : Ceremony) (args : list napi_value) : bool :=
  match c, args with
  | Probe, _ => true
  | Create, js_string _ :: js_string _ :: js_string _ :: _ => true
  | Get, js_string _ :: js_buffer _ :: _ => true
  | _, _ => false
  end.

Definition is_type_error (e : Event) : bool :=
  match e with
  | EvNapiThrowTypeError _ => true
  | _ => false
  end.

Definition is_probe (e : Event) : bool :=
  match e with
  | EvIsUserVerifyingPlatformAuthenticatorAvailable => true
  | _ => false
  end.

(** The number of [WebAuthNFreeAssertion] calls of a trace. *)
Definition is_assertion_release (e : Event) : bool :=
  match e with
  | EvFreeAssertion _ => true
  | _ => false
  end.

Definition assertion_releases (tr : list Event) : nat :=
  length (filter is_assertion_release tr).

(** [out] is what a successful [BCryptGenRandom] call on a buffer of 32
    bytes leaves in the buffer, [r] being the next answer of the random
    number generator. *)
Definition drawn (r : option (option bytes)) (out : bytes) : Prop :=
  exists bs, r = Some (Some bs) /\ out = firstn 32 (bs ++ repeat x00 32).

(** An authenticator call whose challenge is the first value drawn from
    the random number generator [rnd], and, for a creation, whose user id is
    the second one. *)
Definition fresh_event (P : Platform) (rnd : list (option bytes)) (e : Event)
  : Prop :=
  match e with
  | EvMakeCredential call =>
      exists challenge,
        drawn (hd_error rnd) challenge
        /\ length challenge = 32%nat
        /\ pbClientDataJSON (mc_pWebAuthNClientData call)
           = MakeClientDataJson P (lit "webauthn.create")
               (rp_pwszId (mc_pRpInformation call)) challenge
        /\ drawn (hd_error (tl rnd)) (user_pbId (mc_pUserInformation call))
        /\ user_cbId (mc_pUserInformation call) = 32
  | EvGetAssertion call =>
      exists challenge,
        drawn (hd_error rnd) challenge
        /\ length challenge = 32%nat
        /\ pbClientDataJSON (ga_pWebAuthNClientData call)
           = MakeClientDataJson P (lit "webauthn.get") (ga_pwszRpId call) challenge
  | _ => True
  end.

Definition is_call (e : Event) : bool :=
  match e with
  | EvMakeCredential _ | EvGetAssertion _ => true
  | _ => false
  end.

(** A computation that draws no random bytes. *)
Definition keeps_random {A} (m : M A) : Prop :=
  forall s, random (state_of (m s)) = random s.

(** Run where the random number generator has [rnd] left, [m] makes fresh
    calls only, [rnd0] being what the generator had at the start. *)
Definition fresh_calls (P : Platform) (rnd0 rnd : list (option bytes))
           {A} (m : M A) : Prop :=
  forall s, random s = rnd -> Forall (fresh_event P rnd0) (trace_of (m s)).

(** The number of [CoInitializeSecurity] calls of a trace. *)
Definition is_CoInitializeSecurity (e : Event) : bool :=
  match e with
  | EvCoInitializeSecurity => true
  | _ => false
  end.

Definition security_calls (tr : list Event) : nat :=
  length (filter is_CoInitializeSecurity tr).

(** A call of one of the six exports, and the calls a program makes one
    after the other in one process. *)
Record Call := {
  ceremony : Ceremony;
  variant : Variant;
  arguments : list napi_value
}.

Fixpoint session (P : Platform) (calls : list Call) : M unit :=
  match calls with
  | [] => ret tt
  | c :: rest =>
      export P (ceremony c) (variant c) (arguments c);;
      session P rest
  end.

(** A computation that calls [CoInitializeSecurity] once if the once flag
    is clear, setting it, and never if it is set, keeping the status. *)
Definition initializes_once {A} (m : M A) : Prop :=
  forall s,
    (security_calls (trace_of (m s)) + Nat.b2n (once s)
     = Nat.b2n (once (state_of (m s))))%nat
    /\ (once s = true -> result (state_of (m s)) = result s).

(** The six-bit groups of [data], the last one filled with zero bits:
    what base64 writes a digit for. *)
Fixpoint sextets (data : bytes) : list N :=
  match data with
  | [] => []
  | [a] => [Crypt32.sextet1 a; Crypt32.sextet2 a x00]
  | [a; b] => [Crypt32.sextet1 a; Crypt32.sextet2 a b; Crypt32.sextet3 b x00]
  | a :: b :: c :: rest =>
      Crypt32.sextet1 a :: Crypt32.sextet2 a b :: Crypt32.sextet3 b c
        :: Crypt32.sextet4 c :: sextets rest
  end.

(** The base64url digit of a six-bit group. *)
Definition url_digit (n : N) : byte := base64url_transform (Crypt32.digit n).

(** The 256 bytes. *)
Definition all_bytes : bytes :=
  map Demo.byte_of_N (map N.of_nat (seq 0 256)).

(** The events of the life of a piece of asynchronous work: it is queued,
    its promise is settled, it is deleted. *)
Definition is_settlement (e : Event) : bool :=
  match e with
  | EvNapiRejectDeferred _ | EvNapiResolveDeferred _ => true
  | _ => false
  end.

Definition is_work_event (e : Event) : bool :=
  match e with
  | EvNapiQueueAsyncWork _ | EvNapiDeleteAsyncWork => true
  | _ => is_settlement e
  end.

(** ** The client-data document read as JSON *)

(** RFC 4648, section 5, without padding: one character of the base64url
    alphabet for each six-bit group of the data. *)
Definition url_char (n : N) : byte :=
  nth (N.to_nat n) base64url_alphabet chNUL.

Definition base64url (data : bytes) : bytes := map url_char (sextets data).

Definition chBackslash : byte := x5c.
Definition chColon : byte := x3a.
Definition chComma : byte := x2c.
Definition chOpen : byte := x7b.
Definition chClose : byte := x7d.

(** The characters that stand for themselves in a JSON string (RFC 8259,
    section 7): all but the quotation mark, the reverse solidus and the
    control characters. *)
Definition json_plain_char (ch : byte) : bool :=
  negb (Byte.eqb ch chQuote) && negb (Byte.eqb ch chBackslash)
  && (32 <=? Byte.to_N ch)%N.

Definition json_plain (s : bytes) : bool := forallb json_plain_char s.

(** The values of the members of a client-data document. *)
Inductive json_value :=
| json_string (s : bytes)
| json_false
| json_true.

(** A reader of JSON objects written without white space whose members are
    strings of characters that stand for themselves, [false] or [true].
    [read_string] reads a string after its opening quotation mark, up to
    the closing one, and gives what follows it. *)
Fixpoint read_string (s : bytes) : option (bytes * bytes) :=
  match s with
  | [] => None
  | ch :: rest =>
      if Byte.eqb ch chQuote then Some ([], rest)
      else if json_plain_char ch then
        match read_string rest with
        | Some (str, rest') => Some (ch :: str, rest')
        | None => None
        end
      else None
  end.

Fixpoint read_literal (l s : bytes) : option bytes :=
  match l with
  | [] => Some s
  | c :: l' =>
      match s with
      | ch :: s' => if Byte.eqb c ch then read_literal l' s' else None
      | [] => None
      end
  end.

Definition read_value (s : bytes) : option (json_value * bytes) :=
  match s with
  | [] => None
  | ch :: rest =>
      if Byte.eqb ch chQuote then
        match read_string rest with
        | Some (str, rest') => Some (json_string str, rest')
        | None => None
        end
      else
        match read_literal (lit "false") s with
        | Some rest' => Some (json_false, rest')
        | None =>
            match read_literal (lit "true") s with
            | Some rest' => Some (json_true, rest')
            | None => None
            end
        end
  end.

Definition read_member (s : bytes) : option (bytes * json_value * bytes) :=
  match s with
  | [] => None
  | ch :: rest =>
      if Byte.eqb ch chQuote then
        match read_string rest with
        | Some (key, c :: rest') =>
            if Byte.eqb c chColon then
              match read_value rest' with
              | Some (v, rest'') => Some (key, v, rest'')
              | None => None
              end
            else None
        | _ => None
        end
      else None
  end.

(** The members up to the closing brace, which is left; [fuel] bounds the
    number of members. *)
Fixpoint read_members (fuel : nat) (s : bytes)
  : option (list (bytes * json_value) * bytes) :=
  match fuel with
  | O => None
  | S fuel' =>
      match read_member s with
      | None => None
      | Some (key, v, rest) =>
          match rest with
          | ch :: rest' =>
              if Byte.eqb ch chComma then
                match read_members fuel' rest' with
                | Some (ms, rest'') => Some ((key, v) :: ms, rest'')
                | None => None
                end
              else Some ([(key, v)], rest)
          | [] => Some ([(key, v)], [])
          end
      end
  end.

(** The members of the object that [s] is, in the order in which they are
    written; [None] if [s] is not one object with at least one member. *)
Definition read_object (s : bytes) : option (list (bytes * json_value)) :=
  match s with
  | [] => None
  | ch :: rest =>
      if Byte.eqb ch chOpen then
        match read_members (length rest) rest with
        | Some (ms, [c]) => if Byte.eqb c chClose then Some ms else None
        | _ => None
        end
      else None
  end.

(** A relying-party id with a quotation mark in it:
    [a","x":"b]. *)
Definition quoted_rpId : wstring :=
  wlit "a" ++ [Byte.to_N chQuote] ++ wlit "," ++ [Byte.to_N chQuote]
    ++ wlit "x" ++ [Byte.to_N chQuote] ++ wlit ":" ++ [Byte.to_N chQuote]
    ++ wlit "b".

(** ** Base64UrlEncode *)

Section Base64Url.

Lemma byte_eqb_eq (a b : byte) : Byte.eqb a b = true <-> a = b.
Proof.
  split.
  - intro H. apply Byte.byte_dec_bl. exact H.
  - intro H. apply Byte.byte_dec_lb. exact H.
Qed.

Lemma drop_leading_repeat {A} (p : A -> bool) (c : A) (k : nat) (s : list A) :
  p c = true -> drop_leading p (repeat c k ++ s) = drop_leading p s.
Proof.
  intro Hc. induction k as [|k IH]; simpl; [reflexivity|].
  rewrite Hc. exact IH.
Qed.

Lemma drop_leading_stop {A} (p : A -> bool) (s : list A) :
  hd_error (rev s) = None \/ (exists x, hd_error (rev s) = Some x /\ p x = false) ->
  pop_back_while p s = s.
Proof.
  unfold pop_back_while. intros [H | [x [H Hx]]].
  - destruct (rev s) eqn:E; [|discriminate].
    simpl. rewrite <- (rev_involutive s), E. reflexivity.
  - destruct (rev s) as [|y l] eqn:E; [discriminate|].
    simpl in H. injection H as ->. simpl. rewrite Hx.
    rewrite <- E. apply rev_involutive.
Qed.

(** Popping while [p] holds removes a whole tail of [c]s when no element
    of the body satisfies [p]. *)
Lemma pop_back_while_padding {A} (p : A -> bool) (c : A) (k : nat) (body : list A) :
  p c = true -> Forall (fun x => p x = false) body ->
  pop_back_while p (body ++ repeat c k) = body.
Proof.
  intros Hc Hbody. unfold pop_back_while.
  rewrite rev_app_distr, rev_repeat, drop_leading_repeat by exact Hc.
  apply drop_leading_stop.
  destruct (rev body) as [|x l] eqn:E.
  - left. reflexivity.
  - right. exists x. split; [reflexivity|].
    rewrite Forall_forall in Hbody. apply Hbody.
    apply in_rev. rewrite E. left. reflexivity.
Qed.

(** An induction principle following the recursion of [Crypt32.base64]. *)
Lemma bytes_ind3 (Q : bytes -> Prop) :
  Q [] -> (forall a, Q [a]) -> (forall a b, Q [a; b]) ->
  (forall a b c rest, Q rest -> Q (a :: b :: c :: rest)) ->
  forall data, Q data.
Proof.
  intros H0 H1 H2 H3.
  assert (H : forall data, Q data /\ (forall a, Q (a :: data))
                           /\ (forall a b, Q (a :: b :: data))).
  { induction data as [|x data [IHa [IHb IHc]]].
    - repeat split; auto.
    - repeat split; auto. }
  intro data. apply H.
Qed.

Lemma sextet1_bound (a : byte) : (Crypt32.sextet1 a < 64)%N.
Proof. destruct a; vm_compute; reflexivity. Qed.

Lemma sextet4_bound (c : byte) : (Crypt32.sextet4 c < 64)%N.
Proof. destruct c; vm_compute; reflexivity. Qed.

Lemma lor_bound (x y : N) : (x < 64 -> y < 64 -> N.lor x y < 64)%N.
Proof.
  intros Hx Hy.
  destruct (N.eq_dec (N.lor x y) 0) as [E | E]; [rewrite E; reflexivity|].
  change 64%N with (2 ^ 6)%N.
  apply N.log2_lt_pow2; [lia|].
  rewrite N.log2_lor.
  destruct (N.eq_dec x 0) as [Ex | Ex]; destruct (N.eq_dec y 0) as [Ey | Ey]; subst.
  - exfalso. apply E. reflexivity.
  - simpl. apply N.max_lub_lt; [reflexivity|].
    apply N.log2_lt_pow2; [lia | exact Hy].
  - apply N.max_lub_lt; [|reflexivity].
    apply N.log2_lt_pow2; [lia | exact Hx].
  - apply N.max_lub_lt; apply N.log2_lt_pow2; try lia; assumption.
Qed.

Lemma sextet2_bound (a b : byte) : (Crypt32.sextet2 a b < 64)%N.
Proof.
  unfold Crypt32.sextet2. apply lor_bound.
  - destruct a; vm_compute; reflexivity.
  - destruct b; vm_compute; reflexivity.
Qed.

Lemma sextet3_bound (b c : byte) : (Crypt32.sextet3 b c < 64)%N.
Proof.
  unfold Crypt32.sextet3. apply lor_bound.
  - destruct b; vm_compute; reflexivity.
  - destruct c; vm_compute; reflexivity.
Qed.

Lemma digit_in_alphabet (n : N) :
  (n < 64)%N -> In (Crypt32.digit n) Crypt32.alphabet.
Proof.
  intro H. unfold Crypt32.digit. apply nth_In.
  change (length Crypt32.alphabet) with 64%nat. lia.
Qed.

End Base64Url.

Section Base64UrlEncode_correct.

Ltac digits :=
  repeat (apply Forall_cons;
          [ apply digit_in_alphabet;
            auto using sextet1_bound, sextet2_bound, sextet3_bound, sextet4_bound
          | ]);
  try apply Forall_nil.






(** The padded text has four characters for every three bytes begun. *)
Lemma base64_length (data : bytes) :
  length (Crypt32.base64 data) = (4 * ((length data + 2) / 3))%nat.
Proof.
  induction data as [| a | a b | a b c rest IH] using bytes_ind3;
    try reflexivity.
  change (Crypt32.base64 (a :: b :: c :: rest))
    with (Crypt32.digit (Crypt32.sextet1 a) :: Crypt32.digit (Crypt32.sextet2 a b)
            :: Crypt32.digit (Crypt32.sextet3 b c)
            :: Crypt32.digit (Crypt32.sextet4 c) :: Crypt32.base64 rest).
  cbn [length]. rewrite IH.
  replace (S (S (S (length rest))) + 2)%nat with (length rest + 2 + 1 * 3)%nat by lia.
  rewrite Nat.div_add by lia. lia.
Qed.

(** When the size of the text fits the [DWORD] [outLen], the two platform
    calls of [Base64UrlEncode] succeed, the NUL that the second one leaves
    at the end of the buffer is popped, and what remains is the platform's
    base64 text, transformed and stripped; when it does not fit, the first
    call fails and the result is empty. *)
Lemma Base64UrlEncode_unfold (data : bytes) :
  Base64UrlEncode data =
  if Z.of_nat (length (Crypt32.base64
                         (Crypt32.binary data (DWORD_of_size (length data))))) + 1
     <? 2 ^ 32
  then pop_back_while is_padding
         (map base64url_transform
              (Crypt32.base64 (Crypt32.binary data (DWORD_of_size (length data)))))
  else [].
Proof.
  destruct data as [|x data]; [reflexivity|].
  unfold Base64UrlEncode, Crypt32.CryptBinaryToStringA_size,
    Crypt32.CryptBinaryToStringA.
  set (B := Crypt32.base64 _). cbv zeta.
  destruct (Z.of_nat (length B) + 1 <? 2 ^ 32); [|reflexivity].
  assert (L : length (B ++ [chNUL]) = (length B + 1)%nat)
    by (rewrite length_app; reflexivity).
  replace (Z.to_nat (Z.of_nat (length B) + 1)) with (length B + 1)%nat by lia.
  rewrite L, repeat_length, Nat.leb_refl.
  rewrite skipn_all2 by (rewrite repeat_length; lia).
  rewrite app_nil_r.
  assert (Hlast : back (B ++ [chNUL]) = chNUL) by apply last_last.
  destruct (B ++ [chNUL]) as [|y l] eqn:E.
  - destruct B; discriminate.
  - rewrite Hlast. simpl Byte.eqb. cbv iota.
    unfold pop_back. rewrite <- E, removelast_last. reflexivity.
Qed.


Lemma binary_whole (data : bytes) :
  Z.of_nat (length data) < 2 ^ 32 ->
  Crypt32.binary data (DWORD_of_size (length data)) = data.
Proof.
  intro H. unfold Crypt32.binary, DWORD_of_size.
  rewrite Z.mod_small by lia. rewrite Nat2Z.id. apply firstn_all.
Qed.

(** Up to [3 * 2 ^ 30 - 3] bytes the text and its NUL fit the [DWORD]
    [outLen], and the text is that of the whole input. *)
Lemma Base64UrlEncode_whole (data : bytes) :
  Z.of_nat (length data) < 3 * 2 ^ 30 - 2 ->
  Base64UrlEncode data =
  pop_back_while is_padding (map base64url_transform (Crypt32.base64 data)).
Proof.
  intro H. rewrite Base64UrlEncode_unfold, binary_whole by lia.
  rewrite base64_length.
  replace (Z.of_nat (4 * ((length data + 2) / 3)) + 1 <? 2 ^ 32) with true;
    [reflexivity|].
  symmetry. apply Z.ltb_lt.
  rewrite Nat2Z.inj_mul, Nat2Z.inj_div, Nat2Z.inj_add.
  change (Z.of_nat 4) with 4. change (Z.of_nat 3) with 3.
  change (Z.of_nat 2) with 2.
  assert (D : (Z.of_nat (length data) + 2) / 3 < 2 ^ 30)
    by (apply Z.div_lt_upper_bound; lia).
  lia.
Qed.


End Base64UrlEncode_correct.

(** ** Base64UrlEncode: nothing is lost *)

Lemma In_all_bytes (b : byte) : In b all_bytes.
Proof.
  unfold all_bytes. rewrite map_map. apply in_map_iff.
  exists (N.to_nat (Byte.to_N b)). split.
  - rewrite N2Nat.id. unfold Demo.byte_of_N.
    pose proof (Byte.to_N_bounded b).
    rewrite N.mod_small by lia. rewrite Byte.of_to_N. reflexivity.
  - apply in_seq. pose proof (Byte.to_N_bounded b). lia.
Qed.

Lemma forall_bytes (Q : byte -> bool) :
  forallb Q all_bytes = true -> forall b, Q b = true.
Proof. intros H b. rewrite forallb_forall in H. apply H, In_all_bytes. Qed.

Lemma forall_bytes2 (Q : byte -> byte -> bool) :
  forallb (fun a => forallb (Q a) all_bytes) all_bytes = true ->
  forall a b, Q a b = true.
Proof.
  intros H a b. apply forall_bytes.
  apply (forall_bytes (fun a => forallb (Q a) all_bytes) H a).
Qed.

Lemma to_N_inj (a b : byte) : Byte.to_N a = Byte.to_N b -> a = b.
Proof.
  intro H. pose proof (Byte.of_to_N a) as Ea. rewrite H, Byte.of_to_N in Ea.
  injection Ea as ->. reflexivity.
Qed.

(** How the bits of three bytes are spread over four six-bit groups. *)
Lemma sextet1_bits (a : byte) : Crypt32.sextet1 a = (Byte.to_N a / 4)%N.
Proof.
  apply N.eqb_eq.
  apply (forall_bytes (fun a => N.eqb (Crypt32.sextet1 a) (Byte.to_N a / 4))).
  vm_compute. reflexivity.
Qed.

Lemma sextet2_bits (a b : byte) :
  Crypt32.sextet2 a b = (16 * (Byte.to_N a mod 4) + Byte.to_N b / 16)%N.
Proof.
  apply N.eqb_eq.
  apply (forall_bytes2
           (fun a b => N.eqb (Crypt32.sextet2 a b)
                             (16 * (Byte.to_N a mod 4) + Byte.to_N b / 16))).
  vm_compute. reflexivity.
Qed.

Lemma sextet3_bits (b c : byte) :
  Crypt32.sextet3 b c = (4 * (Byte.to_N b mod 16) + Byte.to_N c / 64)%N.
Proof.
  apply N.eqb_eq.
  apply (forall_bytes2
           (fun b c => N.eqb (Crypt32.sextet3 b c)
                             (4 * (Byte.to_N b mod 16) + Byte.to_N c / 64))).
  vm_compute. reflexivity.
Qed.

Lemma sextet4_bits (c : byte) : Crypt32.sextet4 c = (Byte.to_N c mod 64)%N.
Proof.
  apply N.eqb_eq.
  apply (forall_bytes (fun c => N.eqb (Crypt32.sextet4 c) (Byte.to_N c mod 64))).
  vm_compute. reflexivity.
Qed.

Ltac sextet_bits :=
  rewrite ?sextet1_bits, ?sextet2_bits, ?sextet3_bits, ?sextet4_bits in *;
  repeat match goal with
         | b : byte |- _ =>
             let n := fresh "n" in let B := fresh "B" in
             pose proof (Byte.to_N_bounded b) as B;
             set (n := Byte.to_N b) in *; clearbody n; clear b;
             pose proof (N.div_mod n 4 ltac:(lia));
             pose proof (N.mod_upper_bound n 4 ltac:(lia));
             pose proof (N.div_mod n 16 ltac:(lia));
             pose proof (N.mod_upper_bound n 16 ltac:(lia));
             pose proof (N.div_mod n 64 ltac:(lia));
             pose proof (N.mod_upper_bound n 64 ltac:(lia));
             assert (n / 16 < 16)%N by (apply N.Div0.div_lt_upper_bound; lia);
             assert (n / 64 < 4)%N by (apply N.Div0.div_lt_upper_bound; lia)
         end.

Lemma first_byte (a a' b b' : byte) :
  Crypt32.sextet1 a = Crypt32.sextet1 a' ->
  Crypt32.sextet2 a b = Crypt32.sextet2 a' b' -> a = a'.
Proof.
  intros H1 H2. apply to_N_inj. sextet_bits. lia.
Qed.

Lemma second_byte (a a' b b' c c' : byte) :
  Crypt32.sextet2 a b = Crypt32.sextet2 a' b' ->
  Crypt32.sextet3 b c = Crypt32.sextet3 b' c' -> b = b'.
Proof.
  intros H1 H2. apply to_N_inj. sextet_bits. lia.
Qed.

Lemma third_byte (b b' c c' : byte) :
  Crypt32.sextet3 b c = Crypt32.sextet3 b' c' ->
  Crypt32.sextet4 c = Crypt32.sextet4 c' -> c = c'.
Proof.
  intros H1 H2. apply to_N_inj. sextet_bits. lia.
Qed.

Lemma sextets_inj (d1 d2 : bytes) : sextets d1 = sextets d2 -> d1 = d2.
Proof.
  revert d2.
  induction d1 as [| a | a b | a b c rest IH] using bytes_ind3;
    intros [|a' [|b' [|c' rest']]] H; cbn [sextets] in H;
    try discriminate H; try reflexivity;
    injection H; intros;
    try (assert (Ec : c = c') by (eapply third_byte; eassumption));
    try (assert (Eb : b = b') by (eapply second_byte; eassumption));
    try (assert (Ea : a = a') by (eapply first_byte; eassumption));
    subst; try reflexivity.
  f_equal. f_equal. f_equal. apply IH. assumption.
Qed.

Lemma sextets_bound (data : bytes) : Forall (fun n => (n < 64)%N) (sextets data).
Proof.
  induction data as [| a | a b | a b c rest IH] using bytes_ind3.
  - constructor.
  - repeat constructor; [apply sextet1_bound | apply sextet2_bound].
  - repeat constructor;
      [apply sextet1_bound | apply sextet2_bound | apply sextet3_bound].
  - change (sextets (a :: b :: c :: rest))
      with (Crypt32.sextet1 a :: Crypt32.sextet2 a b :: Crypt32.sextet3 b c
              :: Crypt32.sextet4 c :: sextets rest).
    repeat (apply Forall_cons);
      [apply sextet1_bound | apply sextet2_bound | apply sextet3_bound
      | apply sextet4_bound | exact IH].
Qed.

Lemma sextets_length (data : bytes) :
  length (sextets data) = ((4 * length data + 2) / 3)%nat.
Proof.
  induction data as [| a | a b | a b c rest IH] using bytes_ind3;
    try reflexivity.
  change (sextets (a :: b :: c :: rest))
    with (Crypt32.sextet1 a :: Crypt32.sextet2 a b :: Crypt32.sextet3 b c
            :: Crypt32.sextet4 c :: sextets rest).
  cbn [length]. rewrite IH.
  replace (4 * S (S (S (length rest))) + 2)%nat
    with (4 * length rest + 2 + 4 * 3)%nat by lia.
  rewrite Nat.div_add by lia. lia.
Qed.

Lemma base64_sextets (data : bytes) :
  exists k,
    Crypt32.base64 data = map Crypt32.digit (sextets data) ++ repeat chEquals k.
Proof.
  induction data as [| a | a b | a b c rest [k E]] using bytes_ind3.
  - exists 0%nat. reflexivity.
  - exists 2%nat. reflexivity.
  - exists 1%nat. reflexivity.
  - exists k.
    change (Crypt32.base64 (a :: b :: c :: rest))
      with (Crypt32.digit (Crypt32.sextet1 a) :: Crypt32.digit (Crypt32.sextet2 a b)
              :: Crypt32.digit (Crypt32.sextet3 b c)
              :: Crypt32.digit (Crypt32.sextet4 c) :: Crypt32.base64 rest).
    rewrite E. reflexivity.
Qed.

Lemma url_digit_table :
  forallb (fun i => forallb (fun j => implb (Byte.eqb (url_digit i) (url_digit j))
                                           (N.eqb i j))
                            (map N.of_nat (seq 0 64)))
          (map N.of_nat (seq 0 64)) = true
  /\ forallb (fun i => negb (is_padding (url_digit i))) (map N.of_nat (seq 0 64))
     = true.
Proof. split; vm_compute; reflexivity. Qed.

Lemma In_sextet (n : N) : (n < 64)%N -> In n (map N.of_nat (seq 0 64)).
Proof.
  intro H. apply in_map_iff. exists (N.to_nat n). split.
  - apply N2Nat.id.
  - apply in_seq. lia.
Qed.

Lemma url_digit_inj (i j : N) :
  (i < 64)%N -> (j < 64)%N -> url_digit i = url_digit j -> i = j.
Proof.
  intros Hi Hj E. destruct url_digit_table as [T _].
  rewrite forallb_forall in T. specialize (T i (In_sextet i Hi)).
  rewrite forallb_forall in T. specialize (T j (In_sextet j Hj)).
  rewrite E in T.
  assert (R : Byte.eqb (url_digit j) (url_digit j) = true)
    by (apply byte_eqb_eq; reflexivity).
  rewrite R in T. apply N.eqb_eq, T.
Qed.

Lemma url_digit_not_padding (i : N) :
  (i < 64)%N -> is_padding (url_digit i) = false.
Proof.
  intro Hi. destruct url_digit_table as [_ T].
  rewrite forallb_forall in T. apply negb_true_iff, T, In_sextet, Hi.
Qed.

(** The text of a sequence of up to [3 * 2 ^ 30 - 3] bytes, whose size
    the platform can report in a [DWORD], is one base64url digit for each
    of its six-bit groups. *)
Lemma Base64UrlEncode_sextets (data : bytes) :
  Z.of_nat (length data) < 3 * 2 ^ 30 - 2 ->
  Base64UrlEncode data = map url_digit (sextets data).
Proof.
  intro H. rewrite Base64UrlEncode_whole by exact H.
  destruct (base64_sextets data) as [k E]. rewrite E.
  rewrite map_app, map_map, map_repeat.
  change (base64url_transform chEquals) with chEquals.
  apply pop_back_while_padding; [reflexivity|].
  apply Forall_map. apply Forall_impl with (2 := sextets_bound data).
  intros n Hn. apply url_digit_not_padding, Hn.
Qed.

Lemma map_url_digit_inj (l1 l2 : list N) :
  Forall (fun n => (n < 64)%N) l1 -> Forall (fun n => (n < 64)%N) l2 ->
  map url_digit l1 = map url_digit l2 -> l1 = l2.
Proof.
  intro F1. revert l2. induction F1 as [|x l1 Hx F1 IH]; intros l2 F2 E.
  - destruct l2; [reflexivity | discriminate].
  - destruct F2 as [|y l2 Hy F2]; [discriminate|].
    injection E as E1 E2.
    rewrite (url_digit_inj x y Hx Hy E1), (IH l2 F2 E2). reflexivity.
Qed.

(** Two byte sequences with the same base64url text are the same
    sequence, as long as each has at most [3 * 2 ^ 30 - 3] bytes, so that
    the size of its text fits the [DWORD] [outLen]: the encoding loses
    nothing, although the padding is stripped. *)
Theorem Base64UrlEncode_injective (d1 d2 : bytes) :
  Z.of_nat (length d1) < 3 * 2 ^ 30 - 2 ->
  Z.of_nat (length d2) < 3 * 2 ^ 30 - 2 ->
  Base64UrlEncode d1 = Base64UrlEncode d2 -> d1 = d2.
Proof.
  intros H1 H2 E.
  rewrite !Base64UrlEncode_sextets in E by assumption.
  apply sextets_inj, map_url_digit_inj; [apply sextets_bound .. | exact E].
Qed.

Lemma Base64UrlEncode_injective_witness :
  [xfb; xff; xfe] = rev [xfe; xff; xfb].
Proof.
  apply (Base64UrlEncode_injective [xfb; xff; xfe] (rev [xfe; xff; xfb]));
    vm_compute; reflexivity.
Defined.

(** The text of [n] bytes, [n] at most [3 * 2 ^ 30 - 3] so that its size
    fits the [DWORD] [outLen], has [ceil(4n/3)] characters, the integer
    part of [(4n+2)/3]: 43 for the 32 bytes of a challenge. *)
Theorem Base64UrlEncode_length (data : bytes) :
  Z.of_nat (length data) < 3 * 2 ^ 30 - 2 ->
  length (Base64UrlEncode data) = ((4 * length data + 2) / 3)%nat.
Proof.
  intro H. rewrite Base64UrlEncode_sextets by exact H.
  rewrite length_map. apply sextets_length.
Qed.

Lemma Base64UrlEncode_length_witness :
  length (Base64UrlEncode Demo.challenge32) = 43%nat.
Proof.
  apply (Base64UrlEncode_length Demo.challenge32). vm_compute. reflexivity.
Defined.

(** ** MakeClientDataJson: the challenge can be read back *)

Lemma MakeClientDataJson_around (P : Platform) (type : bytes) (rpId : wstring) :
  exists before after,
    forall challenge,
      MakeClientDataJson P type rpId challenge
      = before ++ Base64UrlEncode challenge ++ after.
Proof.
  exists (lit "{" ++ ([chQuote] ++ lit "type" ++ [chQuote] ++ lit ":" ++ [chQuote])
                   ++ type ++ ([chQuote] ++ lit ",")
                   ++ ([chQuote] ++ lit "challenge" ++ [chQuote] ++ lit ":" ++ [chQuote])).
  exists (([chQuote] ++ lit ",")
            ++ ([chQuote] ++ lit "origin" ++ [chQuote] ++ lit ":" ++ [chQuote])
            ++ WideToUtf8 P (kOriginPrefix ++ rpId) ++ ([chQuote] ++ lit ",")
            ++ ([chQuote] ++ lit "crossOrigin" ++ [chQuote] ++ lit ":false")
            ++ lit "}").
  intro challenge.
  unfold MakeClientDataJson. cbv zeta.
  generalize (Base64UrlEncode challenge). intro b64.
  generalize (WideToUtf8 P (kOriginPrefix ++ rpId)). intro origin.
  rewrite <- !app_assoc. reflexivity.
Qed.

(** The client data document determines the challenge: for one ceremony
    type and one relying party, two challenges of at most [3 * 2 ^ 30 - 3]
    bytes with the same document are the same challenge. *)
Theorem MakeClientDataJson_challenge (P : Platform) (type : bytes)
        (rpId : wstring) (c1 c2 : bytes) :
  Z.of_nat (length c1) < 3 * 2 ^ 30 - 2 ->
  Z.of_nat (length c2) < 3 * 2 ^ 30 - 2 ->
  MakeClientDataJson P type rpId c1 = MakeClientDataJson P type rpId c2 ->
  c1 = c2.
Proof.
  intros H1 H2 E.
  destruct (MakeClientDataJson_around P type rpId) as (before & after & R).
  rewrite !R in E.
  apply app_inv_head, app_inv_tail in E.
  rewrite !Base64UrlEncode_sextets in E by assumption.
  apply sextets_inj, map_url_digit_inj; [apply sextets_bound .. | exact E].
Qed.

Lemma MakeClientDataJson_challenge_witness :
  Demo.challenge32 = repeat xaa 32.
Proof.
  apply (MakeClientDataJson_challenge
           (Demo.platform [] S_OK (S_OK, None) (S_OK, None))
           (lit "webauthn.get") (wlit "example.com")
           Demo.challenge32 (repeat xaa 32));
    vm_compute; reflexivity.
Defined.

(** ** MakeClientDataJson *)

Lemma read_string_plain (s rest : bytes) :
  json_plain s = true ->
  read_string (s ++ chQuote :: rest) = Some (s, rest).
Proof.
  induction s as [|ch s IH]; intro H.
  - reflexivity.
  - simpl in H. apply andb_true_iff in H. destruct H as [Hc Hs].
    cbn [app read_string]. rewrite Hc, (IH Hs).
    unfold json_plain_char in Hc.
    destruct (Byte.eqb ch chQuote); [discriminate | reflexivity].
Qed.

Lemma url_char_table :
  forallb (fun n => Byte.eqb (url_digit n) (url_char n)
                    && json_plain_char (url_char n))
          (map N.of_nat (seq 0 64)) = true.
Proof. vm_compute. reflexivity. Qed.

Lemma url_digit_char (n : N) : (n < 64)%N -> url_digit n = url_char n.
Proof.
  intro H. pose proof url_char_table as T.
  rewrite forallb_forall in T. specialize (T n (In_sextet n H)).
  apply andb_true_iff in T. apply byte_eqb_eq, T.
Qed.

Lemma url_char_plain (n : N) : (n < 64)%N -> json_plain_char (url_char n) = true.
Proof.
  intro H. pose proof url_char_table as T.
  rewrite forallb_forall in T. specialize (T n (In_sextet n H)).
  apply andb_true_iff in T. apply T.
Qed.

(** Up to [3 * 2 ^ 30 - 3] bytes, [Base64UrlEncode] gives the base64url
    text of RFC 4648. *)
Lemma Base64UrlEncode_base64url (data : bytes) :
  Z.of_nat (length data) < 3 * 2 ^ 30 - 2 ->
  Base64UrlEncode data = base64url data.
Proof.
  intro H. rewrite Base64UrlEncode_sextets by exact H.
  unfold base64url. apply map_ext_in. intros n Hn.
  apply url_digit_char.
  pose proof (sextets_bound data) as B. rewrite Forall_forall in B. apply B, Hn.
Qed.

Lemma base64url_plain (data : bytes) : json_plain (base64url data) = true.
Proof.
  unfold json_plain, base64url. apply forallb_forall. intros ch Hc.
  apply in_map_iff in Hc. destruct Hc as (n & <- & Hn).
  apply url_char_plain.
  pose proof (sextets_bound data) as B. rewrite Forall_forall in B. apply B, Hn.
Qed.

(** The document that [MakeClientDataJson] writes around a type, an
    encoded challenge and an origin none of which has a character that
    JSON would have to escape. *)
Lemma read_client_data (type challengeB64 origin : bytes) :
  json_plain type = true ->
  json_plain challengeB64 = true ->
  json_plain origin = true ->
  read_object
    (((((lit "{"
          ++ ([chQuote] ++ lit "type" ++ [chQuote] ++ lit ":" ++ [chQuote])
          ++ type ++ ([chQuote] ++ lit ","))
         ++ ([chQuote] ++ lit "challenge" ++ [chQuote] ++ lit ":" ++ [chQuote])
         ++ challengeB64 ++ ([chQuote] ++ lit ","))
        ++ ([chQuote] ++ lit "origin" ++ [chQuote] ++ lit ":" ++ [chQuote])
        ++ origin ++ ([chQuote] ++ lit ","))
       ++ ([chQuote] ++ lit "crossOrigin" ++ [chQuote] ++ lit ":false"))
      ++ lit "}")
  = Some [ (lit "type", json_string type);
           (lit "challenge", json_string challengeB64);
           (lit "origin", json_string origin);
           (lit "crossOrigin", json_false) ].
Proof.
  intros Ht Hc Ho.
  rewrite <- !app_assoc.
  cbn.
  rewrite (read_string_plain type) by exact Ht. cbn.
  rewrite (read_string_plain challengeB64) by exact Hc. cbn.
  rewrite (read_string_plain origin) by exact Ho. cbn.
  reflexivity.
Qed.

(** C5, as the code has it.  For a ceremony type and a relying-party id
    whose origin have no character that JSON would have to escape (the
    quotation mark, the reverse solidus, the control characters: the two
    ceremony types and every DNS host name are such), and a challenge of at
    most [3 * 2 ^ 30 - 3] bytes, the document that [MakeClientDataJson]
    writes is the JSON object of exactly four members, in this order:
    [type], the ceremony type; [challenge], the base64url text of the
    challenge (RFC 4648, section 5, without padding); [origin], the UTF-8
    form of [https://] followed by the relying-party id; and [crossOrigin],
    the literal [false].  The document is a function of these three
    arguments and of the platform's conversion to UTF-8. *)
Theorem MakeClientDataJson_document (P : Platform) (type : bytes)
        (rpId : wstring) (challenge : bytes) :
  json_plain type = true ->
  json_plain (WideCharToMultiByte P (wlit "https://" ++ rpId)) = true ->
  Z.of_nat (length challenge) < 3 * 2 ^ 30 - 2 ->
  read_object (MakeClientDataJson P type rpId challenge)
  = Some [ (lit "type", json_string type);
           (lit "challenge", json_string (base64url challenge));
           (lit "origin",
            json_string (WideCharToMultiByte P (wlit "https://" ++ rpId)));
           (lit "crossOrigin", json_false) ].
Proof.
  intros Ht Ho Hc.
  unfold MakeClientDataJson. cbv zeta.
  rewrite (Base64UrlEncode_base64url challenge Hc).
  assert (E : WideToUtf8 P (kOriginPrefix ++ rpId)
              = WideCharToMultiByte P (wlit "https://" ++ rpId)).
  { unfold WideToUtf8, kOriginPrefix. reflexivity. }
  rewrite E.
  apply read_client_data; [exact Ht | apply base64url_plain | exact Ho].
Qed.

Lemma MakeClientDataJson_document_witness :
  let P := Demo.platform [] S_OK (S_OK, None) (S_OK, None) in
  read_object
    (MakeClientDataJson P (lit "webauthn.create") (wlit "example.com")
       [xfb; xff; xfe])
  = Some [ (lit "type", json_string (lit "webauthn.create"));
           (lit "challenge", json_string (lit "-__-"));
           (lit "origin", json_string (lit "https://example.com"));
           (lit "crossOrigin", json_false) ].
Proof.
  apply (MakeClientDataJson_document
           (Demo.platform [] S_OK (S_OK, None) (S_OK, None))
           (lit "webauthn.create") (wlit "example.com") [xfb; xff; xfe]);
    vm_compute; reflexivity.
Defined.

(** C5, as the claim words it, fails for a relying-party id with a
    quotation mark in it: the id is copied as it is, so for the id
    [a","x":"b] the document has five members, and its origin is
    [https://a]. *)
Lemma MakeClientDataJson_quoted_rpId :
  let P := Demo.platform [] S_OK (S_OK, None) (S_OK, None) in
  read_object
    (MakeClientDataJson P (lit "webauthn.get") quoted_rpId [xfb; xff; xfe])
  = Some [ (lit "type", json_string (lit "webauthn.get"));
           (lit "challenge", json_string (lit "-__-"));
           (lit "origin", json_string (lit "https://a"));
           (lit "x", json_string (lit "b"));
           (lit "crossOrigin", json_false) ].
Proof. vm_compute. reflexivity. Qed.

(** On a platform whose conversion to UTF-8 keeps the ASCII prefix apart,
    the origin member is the text [https://] followed by the converted
    relying-party id. *)
Lemma MakeClientDataJson_origin (P : Platform) (rpId : wstring) :
  (forall w, WideCharToMultiByte P (kOriginPrefix ++ w)
             = lit "https://" ++ WideToUtf8 P w) ->
  WideToUtf8 P (kOriginPrefix ++ rpId) = lit "https://" ++ WideToUtf8 P rpId.
Proof. intro H. unfold WideToUtf8 at 1. simpl empty. cbv iota. apply H. Qed.

(** ** GetValidHwndForWebAuthn *)

Lemma GetForegroundWindow_run (s : State) :
  value_of (GetForegroundWindow s) = current_foreground s
  /\ trace_of (GetForegroundWindow s) = [].
Proof. unfold GetForegroundWindow, current_foreground. destruct (foreground s); split; reflexivity. Qed.

Lemma GetActiveWindow_run (s : State) :
  value_of (GetActiveWindow s) = current_active s
  /\ trace_of (GetActiveWindow s) = []
  /\ foreground (state_of (GetActiveWindow s)) = foreground s.
Proof. unfold GetActiveWindow, current_active. destruct (active s); repeat split; reflexivity. Qed.

Lemma EnumWindows_found (P : Platform) (windows : list HWND) (pid : DWORD) :
  foundHwnd (EnumWindows_over (find_own_window P) windows
                              {| targetPid := pid; foundHwnd := nullptr |})
  = hd nullptr
       (filter (fun h => (snd (GetWindowThreadProcessId P h) =? pid)
                         && IsWindowVisible P h) windows).
Proof.
  induction windows as [|h rest IH]; [reflexivity|].
  simpl. unfold find_own_window at 1. simpl targetPid.
  destruct (snd (GetWindowThreadProcessId P h) =? pid); simpl andb.
  - destruct (IsWindowVisible P h); [reflexivity | exact IH].
  - exact IH.
Qed.

(** C7. The resolver returns the first live window among, in this order,
    the handle it is given, the foreground window, the active window and the
    first visible top-level window of the process that the enumeration
    meets; it returns null when none of them is a live window.  It makes no
    call that changes the platform. *)
Theorem GetValidHwndForWebAuthn_order (P : Platform) (hwnd : HWND) (s : State) :
  value_of (GetValidHwndForWebAuthn P hwnd s)
  = first_live P [hwnd; current_foreground s; current_active s;
                  own_visible_window P]
  /\ trace_of (GetValidHwndForWebAuthn P hwnd s) = [].
Proof.
  unfold GetValidHwndForWebAuthn, first_live, own_visible_window, EnumWindows.
  destruct (nonnull hwnd && IsWindow P hwnd); [split; reflexivity|].
  unfold bind.
  destruct (GetForegroundWindow_run s) as [Vf Tf].
  destruct (GetForegroundWindow s) as [[fg s1] t1] eqn:Ef.
  unfold value_of, trace_of in Vf, Tf. simpl in Vf, Tf. subst fg t1.
  assert (Es1 : current_active s1 = current_active s).
  { unfold GetForegroundWindow in Ef. unfold current_active.
    destruct (foreground s); inversion Ef; reflexivity. }
  destruct (nonnull (current_foreground s) && IsWindow P (current_foreground s));
    [split; reflexivity|].
  destruct (GetActiveWindow_run s1) as [Va [Ta _]].
  destruct (GetActiveWindow s1) as [[act s2] t2] eqn:Ea.
  unfold value_of, trace_of in Va, Ta. simpl in Va, Ta. subst act t2.
  rewrite Es1.
  destruct (nonnull (current_active s) && IsWindow P (current_active s));
    [split; reflexivity|].
  rewrite EnumWindows_found.
  match goal with |- context [if ?c then _ else _] => destruct c end;
    split; reflexivity.
Qed.

(** ** EnsureComSecurityInitialized *)

Lemma EnsureComSecurityInitialized_first (P : Platform) (s : State) :
  once s = false ->
  EnsureComSecurityInitialized P s
  = (too_late_is_ok (CoInitializeSecurity P),
     {| once := true; result := too_late_is_ok (CoInitializeSecurity P);
        foreground := foreground s; active := active s; random := random s |},
     [EvCoInitializeSecurity]).
Proof.
  intros H. unfold EnsureComSecurityInitialized, call_once, bind.
  rewrite H. unfold emit, set_result, get_result, when, too_late_is_ok. simpl.
  destruct (CoInitializeSecurity P =? RPC_E_TOO_LATE); reflexivity.
Qed.

Lemma EnsureComSecurityInitialized_later (P : Platform) (s : State) :
  once s = true -> EnsureComSecurityInitialized P s = (result s, s, []).
Proof.
  intro H. unfold EnsureComSecurityInitialized, call_once, bind.
  rewrite H. reflexivity.
Qed.

Lemma ensure_calls_later (P : Platform) (n : nat) (s : State) :
  once s = true -> ensure_calls P n s = (repeat (result s) n, s, []).
Proof.
  intro H. induction n as [|n IH]; [reflexivity|].
  simpl. unfold bind at 1. rewrite EnsureComSecurityInitialized_later by exact H.
  unfold bind. rewrite IH. reflexivity.
Qed.

(** C3. In any sequence of calls of [EnsureComSecurityInitialized] all
    calls return the same status; [CoInitializeSecurity] runs in the first
    call of the process and in no other, whether it succeeded or not; the
    status is the one [CoInitializeSecurity] gave, except that
    [RPC_E_TOO_LATE] is turned into [S_OK], a success. *)
Theorem EnsureComSecurityInitialized_once (P : Platform) (s : State) (n : nat) :
  let h := if once s then result s
           else if CoInitializeSecurity P =? RPC_E_TOO_LATE then S_OK
                else CoInitializeSecurity P in
  let r := ensure_calls P (S n) s in
  value_of r = repeat h (S n)
  /\ trace_of r = (if once s then [] else [EvCoInitializeSecurity])
  /\ once (state_of r) = true
  /\ result (state_of r) = h
  /\ (once s = false -> CoInitializeSecurity P = RPC_E_TOO_LATE ->
      h = S_OK /\ SUCCEEDED h = true).
Proof.
  intros h r. subst h r.
  destruct (once s) eqn:Hs.
  - rewrite ensure_calls_later by exact Hs.
    unfold value_of, trace_of, state_of. simpl.
    repeat split; auto; discriminate.
  - change (ensure_calls P (S n) s)
      with (bind (EnsureComSecurityInitialized P)
                 (fun h0 => bind (ensure_calls P n) (fun hs => ret (h0 :: hs))) s).
    unfold bind.
    rewrite EnsureComSecurityInitialized_first by exact Hs.
    rewrite ensure_calls_later by reflexivity.
    unfold value_of, trace_of, state_of, too_late_is_ok, ret. simpl.
    split; [reflexivity|]. split; [reflexivity|].
    split; [reflexivity|]. split; [reflexivity|].
    intros _ E. rewrite E. split; reflexivity.
Qed.

(** ** Running the monad *)

Lemma bind_run {A B} (m : M A) (k : A -> M B) (s : State) a s1 t1 :
  m s = (a, s1, t1) -> bind m k s = prepend t1 (k a s1).
Proof.
  intro E. unfold bind, prepend, value_of, state_of, trace_of. rewrite E.
  destruct (k a s1) as [[b s2] t2]. reflexivity.
Qed.

Lemma bind_assoc {A B C} (m : M A) (f : A -> M B) (g : B -> M C) (s : State) :
  bind (bind m f) g s = bind m (fun x => bind (f x) g) s.
Proof.
  unfold bind. destruct (m s) as [[a s1] t1].
  destruct (f a s1) as [[b s2] t2]. destruct (g b s2) as [[c s3] t3].
  rewrite app_assoc. reflexivity.
Qed.

Lemma bind_ret {A B} (a : A) (k : A -> M B) (s : State) :
  bind (ret a) k s = k a s.
Proof. unfold bind, ret. destruct (k a s) as [[b s2] t2]. reflexivity. Qed.

Lemma bind_emit {B} (e : Event) (k : unit -> M B) (s : State) :
  bind (emit e) k s = prepend [e] (k tt s).
Proof. apply bind_run. reflexivity. Qed.

Lemma prepend_nil {A} (r : A * State * list Event) : prepend [] r = r.
Proof. destruct r as [[a s] t]. reflexivity. Qed.

(** ** Quiet traces *)

Lemma quiet_nil : quiet [].
Proof. reflexivity. Qed.

Lemma quiet_app (t u : list Event) : quiet t -> quiet u -> quiet (t ++ u).
Proof. unfold quiet. intros Ht Hu. rewrite forallb_app, Ht, Hu. reflexivity. Qed.

Lemma quiet_cons (e : Event) (t : list Event) :
  is_authenticator_event e = false -> quiet t -> quiet (e :: t).
Proof. unfold quiet. intros He Ht. simpl. rewrite He, Ht. reflexivity. Qed.

Lemma quiet_inv (e : Event) (t : list Event) :
  quiet (e :: t) -> is_authenticator_event e = false /\ quiet t.
Proof.
  unfold quiet. simpl. intro H. apply andb_true_iff in H. destruct H as [He Ht].
  apply negb_true_iff in He. split; assumption.
Qed.

Lemma quiet_no_make (t : list Event) : quiet t -> split_at_make t = None.
Proof.
  induction t as [|e t IH]; [reflexivity|].
  intro H. apply quiet_inv in H. destruct H as [He Ht].
  simpl. rewrite (IH Ht). destruct e; try reflexivity; discriminate.
Qed.

Lemma quiet_no_get (t : list Event) : quiet t -> split_at_get t = None.
Proof.
  induction t as [|e t IH]; [reflexivity|].
  intro H. apply quiet_inv in H. destruct H as [He Ht].
  simpl. rewrite (IH Ht). destruct e; try reflexivity; discriminate.
Qed.

Lemma quiet_no_release (t : list Event) : quiet t -> releases t = 0%nat.
Proof.
  unfold releases. induction t as [|e t IH]; [reflexivity|].
  intro H. apply quiet_inv in H. destruct H as [He Ht].
  simpl. destruct e; try (apply IH, Ht); discriminate.
Qed.

Lemma split_at_make_quiet (pre post : list Event) (call : MakeCredentialCall) :
  quiet pre ->
  split_at_make (pre ++ EvMakeCredential call :: post) = Some (pre, call, post).
Proof.
  induction pre as [|e pre IH]; [reflexivity|].
  intro H. apply quiet_inv in H. destruct H as [He Ht].
  simpl. rewrite (IH Ht). destruct e; try reflexivity; discriminate.
Qed.

Lemma split_at_get_quiet (pre post : list Event) (call : GetAssertionCall) :
  quiet pre ->
  split_at_get (pre ++ EvGetAssertion call :: post) = Some (pre, call, post).
Proof.
  induction pre as [|e pre IH]; [reflexivity|].
  intro H. apply quiet_inv in H. destruct H as [He Ht].
  simpl. rewrite (IH Ht). destruct e; try reflexivity; discriminate.
Qed.

Lemma split_at_make_prefix (t u : list Event) :
  quiet t -> split_at_make u = None -> split_at_make (t ++ u) = None.
Proof.
  induction t as [|e t IH]; [intros _ H; exact H|].
  intros H Hu. apply quiet_inv in H. destruct H as [He Ht].
  simpl. rewrite (IH Ht Hu). destruct e; try reflexivity; discriminate.
Qed.

(** ** Quiet computations *)

Lemma quiet_m_ret {A} (a : A) : quiet_m (ret a).
Proof. intro s. reflexivity. Qed.

Lemma quiet_m_emit (e : Event) :
  is_authenticator_event e = false -> quiet_m (emit e).
Proof. intros H s. apply quiet_cons; [exact H | apply quiet_nil]. Qed.

Lemma quiet_m_bind {A B} (m : M A) (k : A -> M B) :
  quiet_m m -> (forall a, quiet_m (k a)) -> quiet_m (bind m k).
Proof.
  intros Hm Hk s. unfold bind.
  specialize (Hm s). destruct (m s) as [[a s1] t1].
  specialize (Hk a s1). destruct (k a s1) as [[b s2] t2].
  apply quiet_app; assumption.
Qed.

Lemma quiet_m_when (c : bool) (m : M unit) : quiet_m m -> quiet_m (when c m).
Proof. intro H. destruct c; [exact H | apply quiet_m_ret]. Qed.

Lemma quiet_m_GetForegroundWindow : quiet_m GetForegroundWindow.
Proof. intro s. unfold GetForegroundWindow. destruct (foreground s); reflexivity. Qed.

Lemma quiet_m_GetActiveWindow : quiet_m GetActiveWindow.
Proof. intro s. unfold GetActiveWindow. destruct (active s); reflexivity. Qed.

Lemma quiet_m_GetRandomBytes (len : nat) : quiet_m (GetRandomBytes len).
Proof.
  intro s. unfold GetRandomBytes, BCryptGenRandom, bind, ret.
  destruct (random s) as [|[bs|] rest]; reflexivity.
Qed.

Ltac quiet_tac :=
  repeat first
    [ apply quiet_m_ret
    | apply quiet_m_GetForegroundWindow
    | apply quiet_m_GetActiveWindow
    | apply quiet_m_GetRandomBytes
    | apply quiet_m_emit; reflexivity
    | apply quiet_m_when
    | apply quiet_m_bind; [ | intro ]
    | match goal with
      | |- quiet_m (if ?c then _ else _) => destruct c
      end ].

Lemma quiet_m_BringToForeground (P : Platform) (hwnd : HWND) :
  quiet_m (BringToForeground P hwnd).
Proof. unfold BringToForeground. quiet_tac. Qed.

Lemma quiet_m_ScopedCoInit_ctor (P : Platform) : quiet_m (ScopedCoInit_ctor P).
Proof. unfold ScopedCoInit_ctor. quiet_tac. Qed.

Lemma quiet_m_ScopedCoInit_dtor (co : ScopedCoInit) :
  quiet_m (ScopedCoInit_dtor co).
Proof. unfold ScopedCoInit_dtor. quiet_tac. Qed.

Lemma quiet_m_EnsureComSecurityInitialized (P : Platform) :
  quiet_m (EnsureComSecurityInitialized P).
Proof.
  intro s. destruct (once s) eqn:H.
  - rewrite EnsureComSecurityInitialized_later by exact H. reflexivity.
  - rewrite EnsureComSecurityInitialized_first by exact H. reflexivity.
Qed.

Lemma quiet_m_GetValidHwndForWebAuthn (P : Platform) (hwnd : HWND) :
  quiet_m (GetValidHwndForWebAuthn P hwnd).
Proof. unfold GetValidHwndForWebAuthn. cbv zeta. quiet_tac. Qed.

(** ** Computations that keep the security statics *)

Lemma keeps_security_ret {A} (a : A) : keeps_security (ret a).
Proof. intro s. split; reflexivity. Qed.

Lemma keeps_security_emit (e : Event) : keeps_security (emit e).
Proof. intro s. split; reflexivity. Qed.

Lemma keeps_security_bind {A B} (m : M A) (k : A -> M B) :
  keeps_security m -> (forall a, keeps_security (k a)) -> keeps_security (bind m k).
Proof.
  intros Hm Hk s. unfold bind.
  specialize (Hm s). destruct (m s) as [[a s1] t1].
  specialize (Hk a s1). destruct (k a s1) as [[b s2] t2].
  unfold state_of in *. simpl in *.
  destruct Hm as [Hm1 Hm2], Hk as [Hk1 Hk2]. split; congruence.
Qed.

Lemma keeps_security_when (c : bool) (m : M unit) :
  keeps_security m -> keeps_security (when c m).
Proof. intro H. destruct c; [exact H | apply keeps_security_ret]. Qed.

Lemma keeps_security_GetForegroundWindow : keeps_security GetForegroundWindow.
Proof. intro s. unfold GetForegroundWindow. destruct (foreground s); split; reflexivity. Qed.

Lemma keeps_security_GetActiveWindow : keeps_security GetActiveWindow.
Proof. intro s. unfold GetActiveWindow. destruct (active s); split; reflexivity. Qed.

Lemma keeps_security_GetRandomBytes (len : nat) :
  keeps_security (GetRandomBytes len).
Proof.
  intro s. unfold GetRandomBytes, BCryptGenRandom, bind, ret.
  destruct (random s) as [|[bs|] rest]; split; reflexivity.
Qed.

Ltac keeps_tac :=
  repeat first
    [ apply keeps_security_ret
    | apply keeps_security_GetForegroundWindow
    | apply keeps_security_GetActiveWindow
    | apply keeps_security_GetRandomBytes
    | apply keeps_security_emit
    | apply keeps_security_when
    | apply keeps_security_bind; [ | intro ]
    | match goal with
      | |- keeps_security (if ?c then _ else _) => destruct c
      end ].

Lemma keeps_security_BringToForeground (P : Platform) (hwnd : HWND) :
  keeps_security (BringToForeground P hwnd).
Proof. unfold BringToForeground. keeps_tac. Qed.

Lemma EnsureComSecurityInitialized_state (P : Platform) (s : State) :
  once (state_of (EnsureComSecurityInitialized P s)) = true
  /\ result (state_of (EnsureComSecurityInitialized P s))
     = value_of (EnsureComSecurityInitialized P s).
Proof.
  destruct (once s) eqn:H.
  - rewrite EnsureComSecurityInitialized_later by exact H.
    split; [exact H | reflexivity].
  - rewrite EnsureComSecurityInitialized_first by exact H.
    split; reflexivity.
Qed.

(** ** The ceremonies, step by step *)

Lemma create_shape_prepend P v a b c Ok (t : list Event) r :
  quiet t -> create_shape P v a b c Ok r -> create_shape P v a b c Ok (prepend t r).
Proof.
  intros Q [N | (pre & hwnd & ch & uid & E & Qp & V & O)].
  - left. unfold prepend, trace_of. simpl. apply split_at_make_prefix; assumption.
  - right. exists (t ++ pre), hwnd, ch, uid.
    unfold prepend, trace_of, value_of, state_of in *. simpl.
    rewrite E, app_assoc. repeat split; auto using quiet_app.
Qed.

Lemma split_at_get_prefix (t u : list Event) :
  quiet t -> split_at_get u = None -> split_at_get (t ++ u) = None.
Proof.
  induction t as [|e t IH]; [intros _ H; exact H|].
  intros H Hu. apply quiet_inv in H. destruct H as [He Ht].
  simpl. rewrite (IH Ht Hu). destruct e; try reflexivity; discriminate.
Qed.

Lemma get_shape_prepend P v a b Ok (t : list Event) r :
  quiet t -> get_shape P v a b Ok r -> get_shape P v a b Ok (prepend t r).
Proof.
  intros Q [N | (pre & hwnd & ch & E & Qp & V & O)].
  - left. unfold prepend, trace_of. simpl. apply split_at_get_prefix; assumption.
  - right. exists (t ++ pre), hwnd, ch.
    unfold prepend, trace_of, value_of, state_of in *. simpl.
    rewrite E, app_assoc. repeat split; auto using quiet_app.
Qed.

Lemma not_FAILED (h : HRESULT) : FAILED h = false -> SUCCEEDED h = true.
Proof.
  unfold FAILED, SUCCEEDED. intro H.
  apply Z.ltb_ge in H. apply Z.leb_le. exact H.
Qed.

(** The last resort of both synchronous ceremonies: a window that is null
    or not live is replaced by the desktop window. *)
Lemma desktop_fallback (P : Platform) (W : HWND) :
  let h := if negb (nonnull W) || negb (IsWindow P W)
           then GetDesktopWindow P else W in
  IsWindow P h = true \/ h = GetDesktopWindow P.
Proof.
  simpl. destruct (nonnull W); simpl; [|right; reflexivity].
  destruct (IsWindow P W) eqn:E; simpl; [left; exact E | right; reflexivity].
Qed.

Lemma credential_id_present (a : WEBAUTHN_CREDENTIAL_ATTESTATION) :
  credential_id_missing (Some a) = false -> empty (credential_id_range a) = false.
Proof.
  unfold credential_id_missing, credential_id_range.
  destruct (pbCredentialId a) as [mem|]; [|discriminate].
  intro H. apply N.eqb_neq in H.
  destruct (N.to_nat (cbCredentialId a)) eqn:E; [lia|]. reflexivity.
Qed.

Ltac prove_quiet :=
  first [ apply quiet_m_GetValidHwndForWebAuthn
        | apply quiet_m_ScopedCoInit_ctor
        | apply quiet_m_EnsureComSecurityInitialized
        | apply quiet_m_BringToForeground
        | solve [quiet_tac] ].

Ltac prove_keeps :=
  first [ apply keeps_security_BringToForeground
        | solve [keeps_tac] ].

Ltac shape_prepend :=
  first [ apply create_shape_prepend | apply get_shape_prepend ].

(** One step of a ceremony: the first computation of a [bind] is run, its
    events are seen to be quiet and are set aside, and the ceremony goes on
    from the value [a] and the state it leaves. *)
Tactic Notation "run_quiet" "as" simple_intropattern(a) :=
  match goal with
  | |- _ (bind ?m ?k ?s) =>
      let Q := fresh "Q" in
      assert (Q : quiet_m m) by prove_quiet;
      specialize (Q s);
      let s1 := fresh "s" in let t1 := fresh "t" in
      destruct (m s) as [[a s1] t1] eqn:?;
      erewrite bind_run by eassumption;
      shape_prepend; [exact Q|]; clear Q; cbv beta
  end.

(** The same, for a step that is also seen to keep the security statics. *)
Tactic Notation "run_keeps" "as" simple_intropattern(a) :=
  match goal with
  | |- _ (bind ?m ?k ?s) =>
      let Q := fresh "Q" in let K := fresh "K" in
      assert (Q : quiet_m m) by prove_quiet;
      assert (K : keeps_security m) by prove_keeps;
      specialize (Q s); specialize (K s);
      let s1 := fresh "s" in let t1 := fresh "t" in
      destruct (m s) as [[a s1] t1] eqn:?;
      unfold state_of in K; simpl in K; destruct K as [? ?];
      erewrite bind_run by eassumption;
      shape_prepend; [exact Q|]; clear Q; cbv beta
  end.

(** A way out of a ceremony before the authenticator is called. *)
Ltac exit_quiet :=
  left; first [ apply quiet_no_make | apply quiet_no_get ];
  match goal with
  | |- quiet (trace_of (?m ?s)) =>
      let Q := fresh "Q" in
      assert (Q : quiet_m m)
        by (unfold throw_error, throw_type_error, throw_type_error_nowork,
              Complete; prove_quiet);
      apply Q
  end.

Lemma CreateCredentialSync_shape P rpId rpName userName rest s :
  create_shape P Synchronous rpId rpName userName (sync_ok P)
    (CreateCredentialSync P
       (js_string rpId :: js_string rpName :: js_string userName :: rest) s).
Proof.
  unfold CreateCredentialSync.
  cbn [length Nat.ltb Nat.leb argv nth GetStringArg].
  run_quiet as hwnd.
  unfold with_ScopedCoInit.
  run_quiet as co.
  destruct (did_init co) eqn:Hdi; cbn [negb].
  2:{ exit_quiet. }
  rewrite bind_assoc.
  match goal with
  | |- _ (bind _ _ ?s1) =>
      pose proof (EnsureComSecurityInitialized_state P s1) as [Ho Hr]
  end.
  run_quiet as sec.
  unfold state_of, value_of in Ho, Hr; simpl in Ho, Hr.
  destruct (FAILED sec) eqn:Hf.
  { exit_quiet. }
  apply not_FAILED in Hf. rewrite <- Hr in Hf.
  rewrite !bind_assoc.
  run_keeps as u.
  rewrite !bind_assoc.
  run_keeps as [ok challenge].
  destruct ok; cbn [negb].
  2:{ exit_quiet. }
  rewrite !bind_assoc.
  run_keeps as [ok userId].
  destruct ok; cbn [negb].
  2:{ exit_quiet. }
  rewrite !bind_assoc.
  run_keeps as u1.
  rewrite !bind_assoc.
  run_keeps as fgHwnd.
  rewrite !bind_assoc.
  run_keeps as fgHwnd'.
  rewrite !bind_assoc.
  run_keeps as u2.
  rewrite !bind_assoc.
  match goal with
  | |- create_shape _ _ _ _ _ _ (bind (emit (EvMakeCredential ?c)) _ ?sf) =>
      assert (Hs : sync_ok P (mc_hWnd c) sf)
        by (split; [congruence|]; split; [congruence|]; apply desktop_fallback);
      right; exists [], (mc_hWnd c), challenge, userId
  end.
  cbn [mc_hWnd] in Hs |- *.
  revert Hs. generalize (sync_ok P). intros Ok Hs.
  unfold create_tail, create_value.
  destruct (WebAuthNAuthenticatorMakeCredential P) as [hr att].
  unfold bind, emit, ret, throw_error, free_if_attestation, ScopedCoInit_dtor, when,
    report_error, report_credential, released, make_call.
  rewrite Hdi.
  destruct (FAILED hr).
  { destruct att; cbn; repeat split; try apply quiet_nil; exact Hs. }
  destruct (credential_id_missing att) eqn:Hm.
  { destruct att; cbn; repeat split; try apply quiet_nil; exact Hs. }
  destruct att; [|discriminate].
  cbn; repeat split; try apply quiet_nil; exact Hs.
Qed.

Lemma CreateCredential_shape P rpId rpName userName rest s :
  create_shape P Asynchronous rpId rpName userName (fun _ _ => True)
    (async_call P (CreateCredential P)
       (js_string rpId :: js_string rpName :: js_string userName :: rest) s).
Proof.
  unfold async_call, CreateCredential.
  cbn [length Nat.ltb Nat.leb argv nth GetStringArg].
  unfold PromiseFromWork.
  rewrite !bind_assoc.
  run_quiet as u.
  rewrite bind_ret. cbv beta iota.
  unfold run_async_work.
  rewrite !bind_assoc.
  unfold Execute.
  cbn [do_is_available do_make_credential do_get_assertion rp_id rp_name user_name
       parent_hwnd credential_id error bool_result buffer_result new_AsyncContext].
  destruct (empty (Utf8ToWide P rpId)) eqn:Hrp.
  { exit_quiet. }
  rewrite !bind_assoc.
  run_quiet as [ok1 challenge].
  rewrite !bind_assoc.
  run_quiet as [ok2 userId].
  destruct ok1, ok2; cbn [negb orb]; try solve [exit_quiet].
  right.
  match goal with
  | |- context [EvMakeCredential {| mc_hWnd := ?h |}] =>
      exists [], h, challenge, userId
  end.
  unfold create_tail, create_value.
  destruct (WebAuthNAuthenticatorMakeCredential P) as [hr att].
  destruct (FAILED hr).
  { destruct att; unfold bind, emit, ret, free_if_attestation, Complete;
      cbn; repeat split; apply quiet_nil. }
  destruct (credential_id_missing att) eqn:Hm.
  { destruct att; unfold bind, emit, ret, free_if_attestation, Complete;
      cbn; repeat split; apply quiet_nil. }
  destruct att as [a1|]; [|discriminate].
  apply credential_id_present in Hm.
  unfold bind, emit, ret, Complete, set_buffer_result.
  cbn [error buffer_result bool_result empty negb].
  rewrite Hm. cbn. repeat split; apply quiet_nil.
Qed.

Lemma GetAssertionSync_shape P rpId credId rest s :
  get_shape P Synchronous rpId credId (sync_ok P)
    (GetAssertionSync P (js_string rpId :: js_buffer credId :: rest) s).
Proof.
  unfold GetAssertionSync.
  cbn [length Nat.ltb Nat.leb argv nth GetStringArg GetBufferArg].
  run_quiet as hwnd.
  unfold with_ScopedCoInit.
  run_quiet as co.
  destruct (did_init co) eqn:Hdi; cbn [negb].
  2:{ exit_quiet. }
  rewrite bind_assoc.
  match goal with
  | |- _ (bind _ _ ?s1) =>
      pose proof (EnsureComSecurityInitialized_state P s1) as [Ho Hr]
  end.
  run_quiet as sec.
  unfold state_of, value_of in Ho, Hr; simpl in Ho, Hr.
  destruct (FAILED sec) eqn:Hf.
  { exit_quiet. }
  apply not_FAILED in Hf. rewrite <- Hr in Hf.
  rewrite !bind_assoc.
  run_keeps as u.
  rewrite !bind_assoc.
  run_keeps as [ok challenge].
  destruct ok; cbn [negb].
  2:{ exit_quiet. }
  rewrite !bind_assoc.
  run_keeps as fgHwnd.
  rewrite !bind_assoc.
  run_keeps as webauthnHwnd.
  rewrite !bind_assoc.
  match goal with
  | |- get_shape _ _ _ _ _ (bind (emit (EvGetAssertion ?c)) _ ?sf) =>
      assert (Hs : sync_ok P (ga_hWnd c) sf)
        by (split; [congruence|]; split; [congruence|]; apply desktop_fallback);
      right; exists [], (ga_hWnd c), challenge
  end.
  cbn [ga_hWnd] in Hs |- *.
  revert Hs. generalize (sync_ok P). intros Ok Hs.
  unfold get_tail, get_value.
  destruct (WebAuthNAuthenticatorGetAssertion P) as [hr ass].
  unfold bind, emit, ret, throw_error, free_if_assertion, ScopedCoInit_dtor, when,
    report_error, report_true, released_assertion, get_call.
  rewrite Hdi. cbn [fst].
  destruct (FAILED hr);
    destruct ass; cbn; repeat split; try apply quiet_nil; exact Hs.
Qed.

Lemma GetAssertion_shape P rpId credId rest s :
  get_shape P Asynchronous rpId credId (fun _ _ => True)
    (async_call P (GetAssertion P) (js_string rpId :: js_buffer credId :: rest) s).
Proof.
  unfold async_call, GetAssertion.
  cbn [length Nat.ltb Nat.leb argv nth GetStringArg GetBufferArg].
  unfold PromiseFromWork.
  rewrite !bind_assoc.
  run_quiet as u.
  rewrite bind_ret. cbv beta iota.
  unfold run_async_work.
  rewrite !bind_assoc.
  unfold Execute.
  cbn [do_is_available do_make_credential do_get_assertion rp_id rp_name user_name
       parent_hwnd credential_id error bool_result buffer_result new_AsyncContext].
  destruct (empty (Utf8ToWide P rpId)) eqn:Hrp.
  { exit_quiet. }
  destruct (empty credId) eqn:Hcred.
  { exit_quiet. }
  rewrite !bind_assoc.
  run_quiet as [ok challenge].
  destruct ok; cbn [negb]; try solve [exit_quiet].
  right.
  match goal with
  | |- context [EvGetAssertion {| ga_hWnd := ?h |}] =>
      exists [], h, challenge
  end.
  unfold get_tail, get_value.
  destruct (WebAuthNAuthenticatorGetAssertion P) as [hr ass].
  destruct (FAILED hr);
    destruct ass; unfold bind, emit, ret, free_if_assertion, Complete;
    cbn; repeat split; apply quiet_nil.
Qed.

Lemma create_shape_weaken P v a b c (Ok Ok' : HWND -> State -> Prop) r :
  (forall h st, Ok h st -> Ok' h st) ->
  create_shape P v a b c Ok r -> create_shape P v a b c Ok' r.
Proof.
  intros W [N | (pre & hwnd & ch & uid & E & Qp & V & O)]; [left; exact N|].
  right. exists pre, hwnd, ch, uid. auto.
Qed.

Lemma createCredential_shape P v rpId rpName userName rest s :
  create_shape P v rpId rpName userName
    (fun h st => v = Synchronous -> sync_ok P h st)
    (createCredential P v
       (js_string rpId :: js_string rpName :: js_string userName :: rest) s).
Proof.
  destruct v; unfold createCredential.
  - apply create_shape_weaken with (2 := CreateCredential_shape P _ _ _ _ _).
    intros h st _ H. discriminate.
  - apply create_shape_weaken with (2 := CreateCredentialSync_shape P _ _ _ _ _).
    intros h st H _. exact H.
Qed.

(** Calls whose first three arguments are not strings throw a type error
    at once. *)
Lemma createCredential_arguments P v args s :
  (exists rpId rpName userName rest,
      args = js_string rpId :: js_string rpName :: js_string userName :: rest)
  \/ trace_of (createCredential P v args s)
     = [EvNapiThrowTypeError
          (match v with
           | Synchronous =>
               lit "Expected (rpId: string, rpName: string, userName: string, hwnd?: Buffer)"
           | Asynchronous =>
               match args with
               | _ :: _ :: _ :: _ => lit "createCredential expects strings"
               | _ => lit "createCredential(rpId, rpName, userName, hwndBuffer?)"
               end
           end)].
Proof.
  destruct args as [|a0 [|a1 [|a2 rest]]];
    try (right; destruct v; reflexivity).
  destruct a0; try (right; destruct v; reflexivity).
  destruct a1; try (right; destruct v; reflexivity).
  destruct a2; try (right; destruct v; reflexivity).
  left. eauto.
Qed.

(** Every creation ceremony that calls the authenticator has three string
    arguments, calls it with the arguments [make_call] builds from them,
    after events that do not concern the authenticator, and goes on as
    [create_tail] says. *)
Lemma createCredential_call P v args s pre call post :
  split_at_make (trace_of (createCredential P v args s)) = Some (pre, call, post) ->
  exists rpId rpName userName rest hwnd challenge userId,
    args = js_string rpId :: js_string rpName :: js_string userName :: rest
    /\ call = make_call P hwnd (Utf8ToWide P rpId) (Utf8ToWide P rpName)
                        (Utf8ToWide P userName) challenge userId
    /\ quiet pre
    /\ post = create_tail P v
    /\ value_of (createCredential P v args s) = create_value P v
    /\ (v = Synchronous -> sync_ok P hwnd (state_of (createCredential P v args s))).
Proof.
  intro H.
  destruct (createCredential_arguments P v args s)
    as [(rpId & rpName & userName & rest & ->) | E].
  2:{ rewrite E in H. discriminate. }
  destruct (createCredential_shape P v rpId rpName userName rest s)
    as [N | (pre' & hwnd & ch & uid & E & Qp & V & O)].
  { rewrite N in H. discriminate. }
  rewrite E, split_at_make_quiet in H by exact Qp.
  injection H as <- <- <-.
  exists rpId, rpName, userName, rest, hwnd, ch, uid.
  repeat (split; [solve [auto] |]). exact O.
Qed.

(** ** createCredential: what is passed to the authenticator *)

(** C8. Every creation ceremony that calls the authenticator, asynchronous
    or synchronous, passes it two public-key credential parameters, ES256
    (ECDSA P-256 with SHA-256) first and RS256 (RSASSA-PKCS1-v1_5 with
    SHA-256) second, and options that ask for the platform attachment, make
    user verification required, ask for the attestation conveyance [none]
    and set the timeout to 60000 milliseconds. *)
Theorem createCredential_options (P : Platform) (v : Variant)
        (args : list napi_value) (s : State)
        (pre : list Event) (call : MakeCredentialCall) (post : list Event) :
  split_at_make (trace_of (createCredential P v args s)) = Some (pre, call, post) ->
  cCredentialParameters (mc_pPubKeyCredParams call) = 2
  /\ map cose_lAlg (pCredentialParameters (mc_pPubKeyCredParams call))
     = [WEBAUTHN_COSE_ALGORITHM_ECDSA_P256_WITH_SHA256;
        WEBAUTHN_COSE_ALGORITHM_RSASSA_PKCS1_V1_5_WITH_SHA256]
  /\ map cose_pwszCredentialType (pCredentialParameters (mc_pPubKeyCredParams call))
     = [WEBAUTHN_CREDENTIAL_TYPE_PUBLIC_KEY; WEBAUTHN_CREDENTIAL_TYPE_PUBLIC_KEY]
  /\ mco_dwAuthenticatorAttachment (mc_pOptions call)
     = WEBAUTHN_AUTHENTICATOR_ATTACHMENT_PLATFORM
  /\ mco_dwUserVerificationRequirement (mc_pOptions call)
     = WEBAUTHN_USER_VERIFICATION_REQUIREMENT_REQUIRED
  /\ mco_dwAttestationConveyancePreference (mc_pOptions call)
     = WEBAUTHN_ATTESTATION_CONVEYANCE_PREFERENCE_NONE
  /\ mco_dwTimeoutMilliseconds (mc_pOptions call) = 60000.
Proof.
  intro H.
  destruct (createCredential_call P v args s pre call post H)
    as (rpId & rpName & userName & rest & hwnd & ch & uid & _ & -> & _).
  repeat split.
Qed.

(** C10. In every creation ceremony that calls the authenticator, the
    relying-party name passed is the relying-party id when the name given
    is empty, and the user name and the user display name passed are both
    [Netcatty] when the user name given is empty; otherwise the names
    passed are the names given, converted to wide strings. *)
Theorem createCredential_default_names (P : Platform) (v : Variant)
        (rpId rpName userName : bytes) (rest : list napi_value) (s : State)
        (pre : list Event) (call : MakeCredentialCall) (post : list Event) :
  split_at_make
    (trace_of (createCredential P v
                 (js_string rpId :: js_string rpName :: js_string userName :: rest) s))
  = Some (pre, call, post) ->
  rp_pwszId (mc_pRpInformation call) = Utf8ToWide P rpId
  /\ rp_pwszName (mc_pRpInformation call)
     = (if empty (Utf8ToWide P rpName) then Utf8ToWide P rpId
        else Utf8ToWide P rpName)
  /\ user_pwszName (mc_pUserInformation call)
     = (if empty (Utf8ToWide P userName) then wlit "Netcatty"
        else Utf8ToWide P userName)
  /\ user_pwszDisplayName (mc_pUserInformation call)
     = user_pwszName (mc_pUserInformation call)
  /\ (rpName = [] -> rp_pwszName (mc_pRpInformation call) = Utf8ToWide P rpId)
  /\ (userName = [] ->
      user_pwszName (mc_pUserInformation call) = wlit "Netcatty"
      /\ user_pwszDisplayName (mc_pUserInformation call) = wlit "Netcatty").
Proof.
  intro H.
  destruct (createCredential_call P v _ s pre call post H)
    as (rpId' & rpName' & userName' & rest' & hwnd & ch & uid & E & -> & _).
  injection E as <- <- <- <-.
  cbn [make_call mc_pRpInformation mc_pUserInformation rp_pwszId rp_pwszName
       user_pwszName user_pwszDisplayName].
  split; [reflexivity|]. split; [reflexivity|].
  split; [reflexivity|]. split; [reflexivity|].
  split.
  - intros ->. reflexivity.
  - intros ->. split; reflexivity.
Qed.

(** ** createCredential: the native result and the outcome *)

Lemma credential_id_range_length (a : WEBAUTHN_CREDENTIAL_ATTESTATION) :
  credential_id_missing (Some a) = false ->
  length (credential_id_range a) = N.to_nat (cbCredentialId a).
Proof.
  unfold credential_id_missing, credential_id_range.
  destruct (pbCredentialId a) as [mem|]; [|discriminate].
  intros _. rewrite length_map, length_seq. reflexivity.
Qed.

Lemma releases_released (attestation : option WEBAUTHN_CREDENTIAL_ATTESTATION)
      (v : Variant) (message : bytes) :
  releases (released attestation ++ report_error v message)
  = match attestation with Some _ => 1%nat | None => 0%nat end.
Proof. destruct attestation, v; reflexivity. Qed.

(** C4, as the code has it. In every creation ceremony that calls the
    authenticator: a failure status is reported as the platform failure; a
    success status with a null attestation, a null credential-id pointer or
    a zero credential-id size is reported as the distinct error
    [Credential attestation missing credentialId]; any other success
    returns a copy of exactly the [cbCredentialId] bytes at
    [pbCredentialId].  In each case the native attestation result, when the
    authenticator produced one, is released exactly once, after the call
    and before the outcome is reported; when it produced none (a null
    attestation) nothing is released. *)
Theorem createCredential_result_released (P : Platform) (v : Variant)
        (args : list napi_value) (s : State)
        (pre : list Event) (call : MakeCredentialCall) (post : list Event) :
  split_at_make (trace_of (createCredential P v args s)) = Some (pre, call, post) ->
  let hr := fst (WebAuthNAuthenticatorMakeCredential P) in
  let attestation := snd (WebAuthNAuthenticatorMakeCredential P) in
  releases pre = 0%nat
  /\ releases post = match attestation with Some _ => 1%nat | None => 0%nat end
  /\ (FAILED hr = true ->
      post = released attestation
               ++ report_error v (lit "WebAuthNAuthenticatorMakeCredential failed: "
                                    ++ HResultToString P hr))
  /\ (FAILED hr = false -> credential_id_missing attestation = true ->
      post = released attestation
               ++ report_error v (lit "Credential attestation missing credentialId"))
  /\ (FAILED hr = false -> credential_id_missing attestation = false ->
      exists a,
        attestation = Some a
        /\ post = report_credential v a
        /\ length (credential_id_range a) = N.to_nat (cbCredentialId a)
        /\ (v = Synchronous ->
            value_of (createCredential P v args s)
            = Some (js_buffer (credential_id_range a))))
  /\ lit "Credential attestation missing credentialId"
     <> lit "WebAuthNAuthenticatorMakeCredential failed: " ++ HResultToString P hr.
Proof.
  intros H hr attestation.
  destruct (createCredential_call P v args s pre call post H)
    as (rpId & rpName & userName & rest & hwnd & ch & uid & _ & _ & Q & -> & V & _).
  rewrite V. clear V H.
  subst hr attestation. unfold create_tail, create_value.
  destruct (WebAuthNAuthenticatorMakeCredential P) as [hr att]. cbn [fst snd].
  split; [apply quiet_no_release, Q|].
  split.
  { destruct (FAILED hr); [apply releases_released|].
    destruct (credential_id_missing att) eqn:Hm; [apply releases_released|].
    destruct att; [destruct v; reflexivity | discriminate]. }
  split.
  { intros ->. reflexivity. }
  split.
  { intros -> ->. reflexivity. }
  split.
  { intros -> Hm. rewrite Hm.
    destruct att as [a|]; [|discriminate].
    exists a. split; [reflexivity|]. split; [reflexivity|].
    split; [apply credential_id_range_length, Hm|].
    intros ->. reflexivity. }
  discriminate.
Qed.

(** C4, as the claim words it, fails: when the authenticator reports a
    failure and leaves the attestation null, as it does when the user
    cancels, the call is made and no release follows it, in either variant. *)
Lemma createCredential_nothing_to_release :
  let P := Demo.platform [100] S_OK (E_FAIL, None) (S_OK, None) in
  let sync := createCredential P Synchronous (Demo.example_args 100) (Demo.fresh 100) in
  let async := createCredential P Asynchronous (Demo.example_args 100) (Demo.fresh 100) in
  option_map (fun x => releases (snd x)) (split_at_make (trace_of sync)) = Some 0%nat
  /\ releases (trace_of sync) = 0%nat
  /\ value_of sync = None
  /\ option_map (fun x => releases (snd x)) (split_at_make (trace_of async)) = Some 0%nat
  /\ releases (trace_of async) = 0%nat.
Proof. vm_compute. repeat split. Qed.

Lemma createCredential_result_released_witness :
  let P := Demo.platform [100] S_OK (S_OK, Some Demo.attestation16) (S_OK, None) in
  let r := createCredential P Synchronous (Demo.example_args 100) (Demo.fresh 100) in
  exists pre call post,
    split_at_make (trace_of r) = Some (pre, call, post)
    /\ releases pre = 0%nat
    /\ releases post = 1%nat
    /\ post = report_credential Synchronous Demo.attestation16
    /\ value_of r = Some (js_buffer Demo.credential16).
Proof.
  intros P r.
  destruct (split_at_make (trace_of r)) as [[[pre call] post]|] eqn:E;
    [|vm_compute in E; discriminate].
  exists pre, call, post. split; [reflexivity|].
  destruct (createCredential_result_released
              P Synchronous (Demo.example_args 100) (Demo.fresh 100) pre call post E)
    as (R1 & R2 & _ & _ & R5 & _).
  split; [exact R1|]. split; [exact R2|].
  destruct (R5 eq_refl eq_refl) as (a & Ea & Ep & _ & Ev).
  injection Ea as <-.
  split; [exact Ep|]. subst r. rewrite (Ev eq_refl). reflexivity.
Defined.

Lemma createCredential_options_witness :
  let P := Demo.platform [100] S_OK (S_OK, Some Demo.attestation16) (S_OK, None) in
  let r := createCredential P Asynchronous (Demo.example_args 100) (Demo.fresh 100) in
  exists pre call post,
    split_at_make (trace_of r) = Some (pre, call, post)
    /\ map cose_lAlg (pCredentialParameters (mc_pPubKeyCredParams call)) = [-7; -257]
    /\ mco_dwAuthenticatorAttachment (mc_pOptions call) = 1
    /\ mco_dwUserVerificationRequirement (mc_pOptions call) = 1
    /\ mco_dwAttestationConveyancePreference (mc_pOptions call) = 1
    /\ mco_dwTimeoutMilliseconds (mc_pOptions call) = 60000.
Proof.
  intros P r.
  destruct (split_at_make (trace_of r)) as [[[pre call] post]|] eqn:E;
    [|vm_compute in E; discriminate].
  exists pre, call, post. split; [reflexivity|].
  destruct (createCredential_options
              P Asynchronous (Demo.example_args 100) (Demo.fresh 100) pre call post E)
    as (_ & R2 & _ & R4 & R5 & R6 & R7).
  repeat split; assumption.
Defined.

Lemma createCredential_default_names_witness :
  let P := Demo.platform [100] S_OK (S_OK, Some Demo.attestation16) (S_OK, None) in
  let r := createCredential P Synchronous
             [js_string (lit "example.com"); js_string []; js_string []]
             (Demo.fresh 100) in
  exists pre call post,
    split_at_make (trace_of r) = Some (pre, call, post)
    /\ rp_pwszName (mc_pRpInformation call) = wlit "example.com"
    /\ user_pwszName (mc_pUserInformation call) = wlit "Netcatty"
    /\ user_pwszDisplayName (mc_pUserInformation call) = wlit "Netcatty".
Proof.
  intros P r.
  destruct (split_at_make (trace_of r)) as [[[pre call] post]|] eqn:E;
    [|vm_compute in E; discriminate].
  exists pre, call, post. split; [reflexivity|].
  destruct (createCredential_default_names
              P Synchronous (lit "example.com") [] [] [] (Demo.fresh 100)
              pre call post E)
    as (_ & _ & _ & _ & R5 & R6).
  split; [exact (R5 eq_refl)|]. exact (R6 eq_refl).
Defined.

(** ** Argument checks *)

(** The asynchronous creation ceremony rejects an empty relying-party id
    before any call of the platform. *)
Lemma createCredential_async_empty_rpId (P : Platform)
      (rpName userName : bytes) (rest : list napi_value) (s : State) :
  createCredential P Asynchronous
    (js_string [] :: js_string rpName :: js_string userName :: rest) s
  = (Some js_promise, s,
     [EvNapiQueueAsyncWork (lit "netcatty_webauthn_createCredential");
      EvNapiRejectDeferred (lit "rpId is required");
      EvNapiDeleteAsyncWork]).
Proof. reflexivity. Qed.

(** C2, the synchronous variant at [createCredentialSync("", "X", "Y")]:
    no argument error is raised; the authenticator is called with the empty
    relying-party id, and the credential id it returns is returned. *)
Theorem createCredentialSync_empty_rpId_reaches_platform :
  let P := Demo.platform [100] S_OK (S_OK, Some Demo.attestation16) (S_OK, None) in
  let r := createCredential P Synchronous
             [js_string []; js_string (lit "X"); js_string (lit "Y")]
             (Demo.fresh 100) in
  option_map (fun x => rp_pwszId (mc_pRpInformation (snd (fst x))))
             (split_at_make (trace_of r)) = Some []
  /\ option_map (fun x => snd x) (split_at_make (trace_of r))
     = Some (report_credential Synchronous Demo.attestation16)
  /\ value_of r = Some (js_buffer Demo.credential16).
Proof. vm_compute. repeat split. Qed.

(** The asynchronous assertion ceremony rejects an empty credential id
    (or, first, an empty relying-party id) before any call of the platform. *)
Lemma getAssertion_async_empty_credentialId (P : Platform)
      (rpId : bytes) (rest : list napi_value) (s : State) :
  getAssertion P Asynchronous (js_string rpId :: js_buffer [] :: rest) s
  = (Some js_promise, s,
     [EvNapiQueueAsyncWork (lit "netcatty_webauthn_getAssertion");
      EvNapiRejectDeferred
        (if empty (Utf8ToWide P rpId) then lit "rpId is required"
         else lit "credentialId is required");
      EvNapiDeleteAsyncWork]).
Proof.
  unfold getAssertion, async_call, GetAssertion.
  cbn [length Nat.ltb Nat.leb argv nth GetStringArg GetBufferArg].
  destruct (Utf8ToWide P rpId) as [|c w]; reflexivity.
Qed.

(** C9, the synchronous variant at [getAssertionSync("example.com",
    Buffer.alloc(0))]: no argument error is raised; the authenticator is
    called with an allow list whose one credential has the empty id, and
    [true] is returned. *)
Theorem getAssertionSync_empty_credentialId_reaches_platform :
  let P := Demo.platform [100] S_OK (S_OK, None) (S_OK, Some Demo.assertion0) in
  let r := getAssertion P Synchronous
             [js_string (lit "example.com"); js_buffer []] (Demo.fresh 100) in
  option_map (fun x => map (fun c => (cred_cbId c, cred_pbId c))
                           (pCredentials (gao_CredentialList
                                            (ga_pOptions (snd (fst x))))))
             (split_at_get (trace_of r)) = Some [(0, [])]
  /\ option_map (fun x => snd x) (split_at_get (trace_of r))
     = Some [EvFreeAssertion Demo.assertion0; EvCoUninitialize]
  /\ value_of r = Some (js_boolean true).
Proof. vm_compute. repeat split. Qed.

(** ** Security initialization and window resolution *)

(** C1, the asynchronous variants at a dead window handle in a process
    whose security initialization would fail: the authenticator is called
    all the same, with the dead handle, and neither [CoInitializeEx] nor
    [CoInitializeSecurity] has run; the once flag is still clear. *)
Theorem async_ceremony_skips_security_and_window :
  let P := Demo.platform [100] E_FAIL (S_OK, Some Demo.attestation16)
                         (S_OK, Some Demo.assertion0) in
  let create := createCredential P Asynchronous (Demo.example_args 57005)
                                 (Demo.fresh 100) in
  let get := getAssertion P Asynchronous
               [js_string (lit "example.com"); js_buffer Demo.credential16;
                Demo.hwnd_buffer 57005] (Demo.fresh 100) in
  IsWindow P 57005 = false
  /\ option_map (fun x => (fst (fst x), mc_hWnd (snd (fst x))))
                (split_at_make (trace_of create))
     = Some ([EvNapiQueueAsyncWork (lit "netcatty_webauthn_createCredential")],
             57005)
  /\ existsb is_security_init (trace_of create) = false
  /\ once (state_of create) = false
  /\ option_map (fun x => (fst (fst x), ga_hWnd (snd (fst x))))
                (split_at_get (trace_of get))
     = Some ([EvNapiQueueAsyncWork (lit "netcatty_webauthn_getAssertion")],
             57005)
  /\ existsb is_security_init (trace_of get) = false
  /\ once (state_of get) = false.
Proof. vm_compute. repeat split. Qed.

(** ** The assertion ceremony *)

Lemma get_shape_weaken P v a b (Ok Ok' : HWND -> State -> Prop) r :
  (forall h st, Ok h st -> Ok' h st) ->
  get_shape P v a b Ok r -> get_shape P v a b Ok' r.
Proof.
  intros W [N | (pre & hwnd & ch & E & Qp & V & O)]; [left; exact N|].
  right. exists pre, hwnd, ch. auto.
Qed.

Lemma getAssertion_shape P v rpId credId rest s :
  get_shape P v rpId credId
    (fun h st => v = Synchronous -> sync_ok P h st)
    (getAssertion P v (js_string rpId :: js_buffer credId :: rest) s).
Proof.
  destruct v; unfold getAssertion.
  - apply get_shape_weaken with (2 := GetAssertion_shape P _ _ _ _).
    intros h st _ H. discriminate.
  - apply get_shape_weaken with (2 := GetAssertionSync_shape P _ _ _ _).
    intros h st H _. exact H.
Qed.

(** Calls whose arguments are not a string and a buffer throw a type error
    at once. *)
Lemma getAssertion_arguments P v args s :
  (exists rpId credId rest, args = js_string rpId :: js_buffer credId :: rest)
  \/ exists message,
      trace_of (getAssertion P v args s) = [EvNapiThrowTypeError message].
Proof.
  destruct args as [|a0 [|a1 rest]];
    try (right; destruct v; eexists; reflexivity).
  destruct a0; try (right; destruct v; eexists; reflexivity).
  destruct a1; try (right; destruct v; eexists; reflexivity).
  left. eauto.
Qed.

Lemma getAssertion_call P v args s pre call post :
  split_at_get (trace_of (getAssertion P v args s)) = Some (pre, call, post) ->
  exists rpId credId rest hwnd challenge,
    args = js_string rpId :: js_buffer credId :: rest
    /\ call = get_call P hwnd (Utf8ToWide P rpId) credId challenge
    /\ quiet pre
    /\ post = get_tail P v
    /\ value_of (getAssertion P v args s) = get_value P v
    /\ (v = Synchronous -> sync_ok P hwnd (state_of (getAssertion P v args s))).
Proof.
  intro H.
  destruct (getAssertion_arguments P v args s)
    as [(rpId & credId & rest & ->) | [m E]].
  2:{ rewrite E in H. discriminate. }
  destruct (getAssertion_shape P v rpId credId rest s)
    as [N | (pre' & hwnd & ch & E & Qp & V & O)].
  { rewrite N in H. discriminate. }
  rewrite E, split_at_get_quiet in H by exact Qp.
  injection H as <- <- <-.
  exists rpId, credId, rest, hwnd, ch.
  repeat (split; [solve [auto] |]). exact O.
Qed.



(** ** The synchronous ceremonies: security initialization and window *)

(** Every synchronous ceremony that calls the authenticator does so after
    [EnsureComSecurityInitialized] has returned a success status, which the
    statics still hold when the ceremony ends, and with a window that is a
    live window or the desktop window. *)
Theorem createCredentialSync_security_and_window (P : Platform)
        (args : list napi_value) (s : State)
        (pre : list Event) (call : MakeCredentialCall) (post : list Event) :
  split_at_make (trace_of (createCredential P Synchronous args s))
  = Some (pre, call, post) ->
  once (state_of (createCredential P Synchronous args s)) = true
  /\ SUCCEEDED (result (state_of (createCredential P Synchronous args s))) = true
  /\ (IsWindow P (mc_hWnd call) = true \/ mc_hWnd call = GetDesktopWindow P).
Proof.
  intro H.
  destruct (createCredential_call P Synchronous args s pre call post H)
    as (rpId & rpName & userName & rest & hwnd & ch & uid
        & _ & -> & _ & _ & _ & O).
  exact (O eq_refl).
Qed.

(** The same for the synchronous assertion ceremony. *)
Theorem getAssertionSync_security_and_window (P : Platform)
        (args : list napi_value) (s : State)
        (pre : list Event) (call : GetAssertionCall) (post : list Event) :
  split_at_get (trace_of (getAssertion P Synchronous args s))
  = Some (pre, call, post) ->
  once (state_of (getAssertion P Synchronous args s)) = true
  /\ SUCCEEDED (result (state_of (getAssertion P Synchronous args s))) = true
  /\ (IsWindow P (ga_hWnd call) = true \/ ga_hWnd call = GetDesktopWindow P).
Proof.
  intro H.
  destruct (getAssertion_call P Synchronous args s pre call post H)
    as (rpId & credId & rest & hwnd & ch & _ & -> & _ & _ & _ & O).
  exact (O eq_refl).
Qed.

Lemma createCredentialSync_security_and_window_witness :
  let P := Demo.platform [100] S_OK (S_OK, Some Demo.attestation16) (S_OK, None) in
  let r := createCredential P Synchronous (Demo.example_args 57005) (Demo.fresh 100) in
  exists pre call post,
    split_at_make (trace_of r) = Some (pre, call, post)
    /\ once (state_of r) = true
    /\ SUCCEEDED (result (state_of r)) = true
    /\ (IsWindow P (mc_hWnd call) = true \/ mc_hWnd call = GetDesktopWindow P).
Proof.
  intros P r.
  destruct (split_at_make (trace_of r)) as [[[pre call] post]|] eqn:E;
    [|vm_compute in E; discriminate].
  exists pre, call, post. split; [reflexivity|].
  exact (createCredentialSync_security_and_window
           P (Demo.example_args 57005) (Demo.fresh 100) pre call post E).
Defined.

Lemma getAssertionSync_security_and_window_witness :
  let P := Demo.platform [100] S_OK (S_OK, None) (S_OK, Some Demo.assertion0) in
  let r := getAssertion P Synchronous
             [js_string (lit "example.com"); js_buffer Demo.credential16;
              Demo.hwnd_buffer 57005] (Demo.fresh 100) in
  exists pre call post,
    split_at_get (trace_of r) = Some (pre, call, post)
    /\ once (state_of r) = true
    /\ SUCCEEDED (result (state_of r)) = true
    /\ (IsWindow P (ga_hWnd call) = true \/ ga_hWnd call = GetDesktopWindow P).
Proof.
  intros P r.
  destruct (split_at_get (trace_of r)) as [[[pre call] post]|] eqn:E;
    [|vm_compute in E; discriminate].
  exists pre, call, post. split; [reflexivity|].
  exact (getAssertionSync_security_and_window
           P _ (Demo.fresh 100) pre call post E).
Defined.

(** ** The asynchronous ceremonies: no initialization, no resolution *)

Lemma GetRandomBytes_run (len : nat) (s : State) :
  trace_of (GetRandomBytes len s) = []
  /\ once (state_of (GetRandomBytes len s)) = once s
  /\ result (state_of (GetRandomBytes len s)) = result s.
Proof.
  unfold GetRandomBytes, BCryptGenRandom, bind, ret.
  destruct (random s) as [|[bs|] rest]; repeat split.
Qed.

Lemma CreateCredential_unchecked P rpId rpName userName rest s pre call post :
  split_at_make
    (trace_of (createCredential P Asynchronous
                 (js_string rpId :: js_string rpName :: js_string userName :: rest) s))
  = Some (pre, call, post) ->
  pre = [EvNapiQueueAsyncWork (lit "netcatty_webauthn_createCredential")]
  /\ mc_hWnd call
     = hwnd_arg P (js_string rpId :: js_string rpName :: js_string userName :: rest) 3
  /\ once (state_of (createCredential P Asynchronous
                       (js_string rpId :: js_string rpName
                                  :: js_string userName :: rest) s)) = once s
  /\ result (state_of (createCredential P Asynchronous
                         (js_string rpId :: js_string rpName
                                    :: js_string userName :: rest) s)) = result s.
Proof.
  unfold createCredential, async_call, CreateCredential, PromiseFromWork.
  cbn [length Nat.ltb Nat.leb argv nth GetStringArg].
  rewrite !bind_assoc, bind_emit, bind_ret. cbv beta iota.
  unfold run_async_work, Execute.
  cbn [do_is_available do_make_credential do_get_assertion rp_id rp_name user_name
       parent_hwnd credential_id error bool_result buffer_result new_AsyncContext].
  destruct (empty (Utf8ToWide P rpId)).
  { unfold bind, emit, ret, Complete. cbn. intro H. discriminate H. }
  rewrite !bind_assoc.
  destruct (GetRandomBytes_run 32 s) as (T1 & O1 & R1).
  destruct (GetRandomBytes 32 s) as [[[ok1 ch] s1] t1] eqn:E1.
  unfold trace_of, state_of in T1, O1, R1; simpl in T1, O1, R1. subst t1.
  rewrite (bind_run _ _ _ _ _ _ E1), prepend_nil. cbv beta iota.
  rewrite !bind_assoc.
  destruct ok1.
  2:{ unfold bind, emit, ret, Complete. cbn. intro H; discriminate H. }
  destruct (GetRandomBytes_run 32 s1) as (T2 & O2 & R2).
  destruct (GetRandomBytes 32 s1) as [[[ok2 uid] s2] t2] eqn:E2.
  unfold trace_of, state_of in T2, O2, R2; simpl in T2, O2, R2. subst t2.
  rewrite (bind_run _ _ _ _ _ _ E2), prepend_nil. cbv beta iota.
  destruct ok2.
  2:{ unfold bind, emit, ret, Complete. cbn. intro H; discriminate H. }
  cbn [negb orb].
  destruct (WebAuthNAuthenticatorMakeCredential P) as [hr att].
  unfold Complete, free_if_attestation, bind, emit, ret.
  destruct (FAILED hr); [|destruct (credential_id_missing att)];
    destruct att as [w|]; cbn; try destruct (empty (credential_id_range w));
    cbn; intro H; inversion H; subst; cbn; repeat split; congruence.
Qed.

Lemma GetAssertion_unchecked P rpId credId rest s pre call post :
  split_at_get
    (trace_of (getAssertion P Asynchronous
                 (js_string rpId :: js_buffer credId :: rest) s))
  = Some (pre, call, post) ->
  pre = [EvNapiQueueAsyncWork (lit "netcatty_webauthn_getAssertion")]
  /\ ga_hWnd call = hwnd_arg P (js_string rpId :: js_buffer credId :: rest) 2
  /\ once (state_of (getAssertion P Asynchronous
                       (js_string rpId :: js_buffer credId :: rest) s)) = once s
  /\ result (state_of (getAssertion P Asynchronous
                         (js_string rpId :: js_buffer credId :: rest) s)) = result s.
Proof.
  unfold getAssertion, async_call, GetAssertion, PromiseFromWork.
  cbn [length Nat.ltb Nat.leb argv nth GetStringArg GetBufferArg].
  rewrite !bind_assoc, bind_emit, bind_ret. cbv beta iota.
  unfold run_async_work, Execute.
  cbn [do_is_available do_make_credential do_get_assertion rp_id rp_name user_name
       parent_hwnd credential_id error bool_result buffer_result new_AsyncContext].
  destruct (empty (Utf8ToWide P rpId)).
  { unfold bind, emit, ret, Complete. cbn. intro H. discriminate H. }
  destruct (empty credId).
  { unfold bind, emit, ret, Complete. cbn. intro H. discriminate H. }
  rewrite !bind_assoc.
  destruct (GetRandomBytes_run 32 s) as (T1 & O1 & R1).
  destruct (GetRandomBytes 32 s) as [[[ok ch] s1] t1] eqn:E1.
  unfold trace_of, state_of in T1, O1, R1; simpl in T1, O1, R1. subst t1.
  rewrite (bind_run _ _ _ _ _ _ E1), prepend_nil. cbv beta iota.
  destruct ok.
  2:{ unfold bind, emit, ret, Complete. cbn. intro H; discriminate H. }
  cbn [negb].
  destruct (WebAuthNAuthenticatorGetAssertion P) as [hr ass].
  unfold Complete, free_if_assertion, bind, emit, ret.
  destruct (FAILED hr); destruct ass as [w|];
    cbn; intro H; inversion H; subst; cbn; repeat split; congruence.
Qed.

(** Every asynchronous ceremony that calls the authenticator passes it the
    handle read from the caller's buffer as it is, null when there is none;
    nothing but the queueing of the work precedes the call, and the statics
    of [EnsureComSecurityInitialized] are not touched. *)
Theorem async_ceremony_unchecked (P : Platform) (args : list napi_value) (s : State) :
  (forall pre call post,
      split_at_make (trace_of (createCredential P Asynchronous args s))
      = Some (pre, call, post) ->
      pre = [EvNapiQueueAsyncWork (lit "netcatty_webauthn_createCredential")]
      /\ mc_hWnd call = hwnd_arg P args 3
      /\ once (state_of (createCredential P Asynchronous args s)) = once s
      /\ result (state_of (createCredential P Asynchronous args s)) = result s)
  /\ (forall pre call post,
         split_at_get (trace_of (getAssertion P Asynchronous args s))
         = Some (pre, call, post) ->
         pre = [EvNapiQueueAsyncWork (lit "netcatty_webauthn_getAssertion")]
         /\ ga_hWnd call = hwnd_arg P args 2
         /\ once (state_of (getAssertion P Asynchronous args s)) = once s
         /\ result (state_of (getAssertion P Asynchronous args s)) = result s).
Proof.
  split; intros pre call post H.
  - destruct (createCredential_arguments P Asynchronous args s)
      as [(rpId & rpName & userName & rest & ->) | E].
    + apply CreateCredential_unchecked with (1 := H).
    + rewrite E in H. discriminate.
  - destruct (getAssertion_arguments P Asynchronous args s)
      as [(rpId & credId & rest & ->) | [m E]].
    + apply GetAssertion_unchecked with (1 := H).
    + rewrite E in H. discriminate.
Qed.

(** ** Computations whose events are all of one kind *)

Lemma emits_only_ret (Q : Event -> bool) {A} (a : A) : emits_only Q (ret a).
Proof. intro s. reflexivity. Qed.

Lemma emits_only_emit (Q : Event -> bool) (e : Event) :
  Q e = true -> emits_only Q (emit e).
Proof. intros H s. simpl. rewrite H. reflexivity. Qed.

Lemma emits_only_bind (Q : Event -> bool) {A B} (m : M A) (k : A -> M B) :
  emits_only Q m -> (forall a, emits_only Q (k a)) -> emits_only Q (bind m k).
Proof.
  intros Hm Hk s. unfold bind.
  specialize (Hm s). destruct (m s) as [[a s1] t1].
  specialize (Hk a s1). destruct (k a s1) as [[b s2] t2].
  unfold trace_of in *. simpl in *. rewrite forallb_app, Hm, Hk. reflexivity.
Qed.

Lemma emits_only_when (Q : Event -> bool) (c : bool) (m : M unit) :
  emits_only Q m -> emits_only Q (when c m).
Proof. intro H. destruct c; [exact H | apply emits_only_ret]. Qed.

Lemma emits_only_GetForegroundWindow (Q : Event -> bool) :
  emits_only Q GetForegroundWindow.
Proof. intro s. unfold GetForegroundWindow. destruct (foreground s); reflexivity. Qed.

Lemma emits_only_GetActiveWindow (Q : Event -> bool) :
  emits_only Q GetActiveWindow.
Proof. intro s. unfold GetActiveWindow. destruct (active s); reflexivity. Qed.

Lemma emits_only_BCryptGenRandom (Q : Event -> bool) (buf : bytes) :
  emits_only Q (BCryptGenRandom buf).
Proof.
  intro s. unfold BCryptGenRandom.
  destruct (random s) as [|[bs|] rest]; reflexivity.
Qed.

Lemma emits_only_EnsureComSecurityInitialized (Q : Event -> bool) (P : Platform) :
  Q EvCoInitializeSecurity = true ->
  emits_only Q (EnsureComSecurityInitialized P).
Proof.
  intros H s. destruct (once s) eqn:E.
  - rewrite EnsureComSecurityInitialized_later by exact E. reflexivity.
  - rewrite EnsureComSecurityInitialized_first by exact E.
    unfold trace_of. simpl. rewrite H. reflexivity.
Qed.

(** Breaks a computation into its calls and checks each event it emits. *)
Ltac emits_tac :=
  unfold GetValidHwndForWebAuthn, BringToForeground, ScopedCoInit_ctor,
    ScopedCoInit_dtor, GetRandomBytes, free_if_attestation, free_if_assertion,
    throw_error, throw_type_error, throw_type_error_nowork, PromiseFromWork,
    Complete;
  cbv zeta;
  repeat first
    [ apply emits_only_ret
    | apply emits_only_GetForegroundWindow
    | apply emits_only_GetActiveWindow
    | apply emits_only_BCryptGenRandom
    | apply emits_only_EnsureComSecurityInitialized; reflexivity
    | apply emits_only_emit; reflexivity
    | apply emits_only_when
    | apply emits_only_bind; [ | intro ]
    | match goal with
      | |- emits_only _ (if ?c then _ else _) => destruct c
      | |- emits_only _ (match ?x with _ => _ end) => destruct x
      end ].

Lemma emits_only_silent {A} (m : M A) (s : State) :
  emits_only (fun e => negb (is_report e)) m ->
  flat_map reports (trace_of (m s)) = [].
Proof.
  intro H. specialize (H s).
  induction (trace_of (m s)) as [|e t IH]; [reflexivity|].
  simpl in H. apply andb_true_iff in H. destruct H as [He Ht].
  simpl. rewrite (IH Ht), app_nil_r.
  destruct e; try reflexivity; discriminate.
Qed.

(** ** One outcome for every call *)

Lemma outcomes_prepend (t : list Event) (r : option napi_value * State * list Event) :
  outcomes (prepend t r) = flat_map reports t ++ outcomes r.
Proof.
  unfold outcomes, prepend, trace_of, value_of. simpl.
  rewrite flat_map_app, app_assoc. reflexivity.
Qed.

Lemma yields_ret G pre (v : option napi_value) (o : Outcome) :
  pre ++ returned_outcome v = [o] -> G o -> yields G pre (ret v).
Proof. intros E H s. exists o. split; [exact E | exact H]. Qed.

Lemma yields_bind_silent G pre {A} (m : M A) (k : A -> M (option napi_value)) :
  emits_only (fun e => negb (is_report e)) m ->
  (forall a, yields G pre (k a)) -> yields G pre (bind m k).
Proof.
  intros Hm Hk s.
  pose proof (emits_only_silent m s Hm) as S.
  destruct (m s) as [[a s1] t1] eqn:E.
  rewrite (bind_run m k s a s1 t1 E), outcomes_prepend.
  unfold trace_of in S. simpl in S. rewrite S. apply Hk.
Qed.

Lemma yields_bind_emit G pre (e : Event) (k : unit -> M (option napi_value)) :
  yields G (pre ++ reports e) (k tt) -> yields G pre (bind (emit e) k).
Proof.
  intros Hk s. rewrite bind_emit, outcomes_prepend.
  simpl flat_map. rewrite app_nil_r, app_assoc. apply Hk.
Qed.

Lemma yields_bind_ret G pre {A} (a : A) (k : A -> M (option napi_value)) :
  yields G pre (k a) -> yields G pre (bind (ret a) k).
Proof. intros Hk s. rewrite bind_ret. apply Hk. Qed.

Lemma yields_assoc G pre {A B} (m : M A) (f : A -> M B)
      (g : B -> M (option napi_value)) :
  yields G pre (bind m (fun x => bind (f x) g)) -> yields G pre (bind (bind m f) g).
Proof. intros H s. rewrite bind_assoc. apply H. Qed.

Lemma ensures_ret {A} (R : A -> Prop) (a : A) : R a -> ensures R (ret a).
Proof. intros H s. exact H. Qed.

Lemma ensures_bind {A B} (R : B -> Prop) (m : M A) (k : A -> M B) :
  (forall a, ensures R (k a)) -> ensures R (bind m k).
Proof.
  intros Hk s. unfold bind. destruct (m s) as [[a s1] t1].
  specialize (Hk a s1). destruct (k a s1) as [[b s2] t2]. exact Hk.
Qed.

Lemma yields_bind_post G pre {A} (Post : A -> Prop) (m : M A)
      (k : A -> M (option napi_value)) :
  emits_only (fun e => negb (is_report e)) m ->
  ensures Post m ->
  (forall a, Post a -> yields G pre (k a)) -> yields G pre (bind m k).
Proof.
  intros Hm Hp Hk s.
  pose proof (emits_only_silent m s Hm) as S. specialize (Hp s).
  destruct (m s) as [[a s1] t1] eqn:E.
  rewrite (bind_run m k s a s1 t1 E), outcomes_prepend.
  unfold trace_of in S. simpl in S. rewrite S. apply Hk. exact Hp.
Qed.

Lemma nonempty_not_nil {A} (l : list A) : empty l = false -> l <> [].
Proof. destruct l; [discriminate | discriminate]. Qed.

Ltac ensures_tac :=
  repeat first
    [ apply ensures_bind; intro
    | match goal with
      | |- ensures _ (if ?c then _ else _) => destruct c eqn:?
      | |- ensures _ (match ?x with _ => _ end) => destruct x eqn:?
      end ].

(** [Execute] reports nothing itself: [Complete] does. *)
Lemma Execute_silent (P : Platform) (ctx : AsyncContext) :
  emits_only (fun e => negb (is_report e)) (Execute P ctx).
Proof. unfold Execute. emits_tac. Qed.

Lemma Execute_executed (P : Platform) (c : Ceremony) (ctx : AsyncContext) :
  buffer_result ctx = [] ->
  (do_is_available ctx, do_make_credential ctx, do_get_assertion ctx)
  = match c with
    | Probe => (true, false, false)
    | Create => (false, true, false)
    | Get => (false, false, true)
    end ->
  ensures (executed c) (Execute P ctx).
Proof.
  intros Hb Hc. unfold Execute.
  destruct c; injection Hc as E1 E2 E3; rewrite ?E1, ?E2, ?E3; cbv iota.
  - unfold free_if_attestation, free_if_assertion. ensures_tac;
      apply ensures_ret; unfold executed;
      try (left; reflexivity); right;
      cbn [buffer_result set_bool_result]; rewrite Hb; reflexivity.
  - unfold free_if_attestation, free_if_assertion. ensures_tac;
      apply ensures_ret; unfold executed;
      try (left; reflexivity);
      try (right; cbn [buffer_result set_buffer_result];
           apply credential_id_present; assumption);
      exfalso; cbn in *; congruence.
  - unfold free_if_attestation, free_if_assertion. ensures_tac;
      apply ensures_ret; unfold executed;
      try (left; reflexivity); right;
      cbn [buffer_result bool_result set_bool_result]; rewrite Hb;
      split; reflexivity.
Qed.

Lemma Complete_yields (c : Ceremony) (ctx : AsyncContext) (returned : option napi_value) :
  executed c ctx -> returned = Some js_promise ->
  yields (good_outcome c) []
         (bind (Complete ctx) (fun _ => ret returned)).
Proof.
  intros Hx ->. unfold Complete.
  destruct (empty (error ctx)) eqn:He; cbn [negb].
  - destruct Hx as [Hx | Hx]; [congruence|].
    destruct (empty (buffer_result ctx)) eqn:Hb; cbn [negb].
    + intro s. eexists. split; [reflexivity|].
      destruct c; cbn.
      * eauto.
      * congruence.
      * destruct Hx as [_ ->]. reflexivity.
    + intro s. eexists. split; [reflexivity|].
      destruct c; cbn.
      * congruence.
      * exists (buffer_result ctx). split; [reflexivity|].
        apply nonempty_not_nil, Hb.
      * destruct Hx as [Hx _]. congruence.
  - intro s. eexists. split; [reflexivity|].
    cbn. apply nonempty_not_nil, He.
Qed.

(** One step of the search for the one outcome of a call. *)
Ltac yields_step :=
  match goal with
  | |- yields _ _ (bind (Execute _ _) _) => fail 1
  | |- yields _ _ (bind (bind _ _) _) => apply yields_assoc
  | |- yields _ _ (bind (ret _) _) => apply yields_bind_ret; cbv beta iota
  | |- yields _ _ (bind (emit _) _) => apply yields_bind_emit; cbn [reports app]
  | |- yields _ _ (bind (if ?c then _ else _) _) => destruct c eqn:?
  | |- yields _ _ (bind (match ?x with _ => _ end) _) => destruct x eqn:?
  | |- yields _ _ (bind _ _) =>
      apply yields_bind_silent; [ solve [emits_tac] | intro ]
  | |- yields _ _ (if ?c then _ else _) => destruct c eqn:?
  | |- yields _ _ (match ?x with _ => _ end) => destruct x eqn:?
  end.

Ltac good_tac :=
  first
    [ apply nonempty_not_nil; reflexivity
    | reflexivity
    | solve [ eexists; reflexivity ]
    | solve [ eexists; split;
              [ reflexivity
              | apply nonempty_not_nil, credential_id_present; assumption ] ] ].

Ltac yields_leaf :=
  first
    [ match goal with
      | H : credential_id_missing None = false |- _ => discriminate H
      end
    | eapply yields_ret; [ reflexivity | cbn; good_tac ] ].

Lemma IsAvailableSync_yields P args :
  yields (good_outcome Probe) [] (IsAvailableSync P args).
Proof.
  unfold IsAvailableSync, with_ScopedCoInit, throw_error.
  repeat yields_step; yields_leaf.
Qed.

Lemma CreateCredentialSync_yields P args :
  yields (good_outcome Create) [] (CreateCredentialSync P args).
Proof.
  unfold CreateCredentialSync, with_ScopedCoInit, throw_error, throw_type_error.
  cbv zeta.
  repeat yields_step; yields_leaf.
Qed.

Lemma GetAssertionSync_yields P args :
  yields (good_outcome Get) [] (GetAssertionSync P args).
Proof.
  unfold GetAssertionSync, with_ScopedCoInit, throw_error, throw_type_error.
  cbv zeta.
  repeat yields_step; yields_leaf.
Qed.

Ltac yields_async c :=
  unfold async_call, throw_type_error_nowork, PromiseFromWork; cbv zeta;
  repeat (repeat yields_step; unfold run_async_work; cbv beta iota);
  first
    [ yields_leaf
    | apply yields_bind_post with (Post := executed c);
      [ apply Execute_silent
      | apply Execute_executed; reflexivity
      | intros ctx' Hx; apply Complete_yields; [ exact Hx | reflexivity ] ] ].

Lemma IsAvailable_yields P args :
  yields (good_outcome Probe) [] (async_call P IsAvailable args).
Proof. unfold IsAvailable. yields_async Probe. Qed.

Lemma CreateCredential_yields P args :
  yields (good_outcome Create) [] (async_call P (CreateCredential P) args).
Proof. unfold CreateCredential. yields_async Create. Qed.

Lemma GetAssertion_yields P args :
  yields (good_outcome Get) [] (async_call P (GetAssertion P) args).
Proof. unfold GetAssertion. yields_async Get. Qed.

(** Every call of each of the six exports, with any arguments and on any
    platform, lets its caller observe exactly one outcome: one error or one
    value, never both and never neither.  An error carries a message that
    is not empty.  The value of a probe is a boolean, that of a creation
    ceremony a buffer that is not empty, and that of an assertion ceremony
    [true]: an assertion that did not succeed is an error, never [false]. *)
Theorem export_single_outcome (P : Platform) (c : Ceremony) (v : Variant)
        (args : list napi_value) (s : State) :
  exists o, outcomes (export P c v args s) = [o] /\ good_outcome c o.
Proof.
  assert (H : yields (good_outcome c) [] (export P c v args)).
  { destruct c, v; unfold export, createCredential, getAssertion.
    - apply IsAvailable_yields.
    - apply IsAvailableSync_yields.
    - apply CreateCredential_yields.
    - apply CreateCredentialSync_yields.
    - apply GetAssertion_yields.
    - apply GetAssertionSync_yields. }
  exact (H s).
Qed.

(** ** COM apartments *)

Lemma emits_nothing {A} (m : M A) (s : State) :
  emits_only (fun _ => false) m -> trace_of (m s) = [].
Proof.
  intro H. specialize (H s). destruct (trace_of (m s)); [reflexivity | discriminate].
Qed.

Lemma filter_none (Q : Event -> bool) (t : list Event) :
  forallb (fun e => negb (Q e)) t = true -> filter Q t = [].
Proof.
  induction t as [|e t IH]; [reflexivity|].
  simpl. intro H. apply andb_true_iff in H. destruct H as [He Ht].
  apply negb_true_iff in He. rewrite He. apply IH, Ht.
Qed.

Lemma ScopedCoInit_ctor_run (P : Platform) (s : State) :
  ScopedCoInit_ctor P s
  = ({| hr := apartment_status P; did_init := SUCCEEDED (apartment_status P) |},
     s, apartment_attempts P).
Proof.
  unfold ScopedCoInit_ctor, apartment_status, apartment_attempts, bind, emit, ret.
  destruct (CoInitializeEx P COINIT_APARTMENTTHREADED =? RPC_E_CHANGED_MODE);
    reflexivity.
Qed.

(** A block with a [ScopedCoInit] whose body makes no apartment call of its
    own and only throws when the initialization failed. *)
Lemma with_ScopedCoInit_apartment (P : Platform)
      (body : ScopedCoInit -> M (option napi_value)) (s : State) :
  (forall co, emits_only (fun e => negb (is_apartment_event e)) (body co)) ->
  (forall co, did_init co = false ->
              body co = throw_error (lit "COM initialization failed")) ->
  let r := with_ScopedCoInit P body s in
  filter is_apartment_event (trace_of r)
  = apartment_attempts P
      ++ (if SUCCEEDED (apartment_status P) then [EvCoUninitialize] else [])
  /\ (if SUCCEEDED (apartment_status P)
      then exists t, trace_of r = t ++ [EvCoUninitialize]
      else trace_of r
           = apartment_attempts P
               ++ [EvNapiThrowError (lit "COM initialization failed")]).
Proof.
  intros Hq Hf r. subst r. unfold with_ScopedCoInit.
  rewrite (bind_run _ _ _ _ _ _ (ScopedCoInit_ctor_run P s)).
  set (co := {| hr := apartment_status P;
                did_init := SUCCEEDED (apartment_status P) |}).
  cbv beta.
  pose proof (Hq co s) as Q. specialize (Hf co).
  destruct (SUCCEEDED (apartment_status P)) eqn:E.
  - destruct (body co s) as [[v s1] t1] eqn:Eb.
    rewrite (bind_run _ _ _ _ _ _ Eb).
    unfold ScopedCoInit_dtor, when, bind, emit, ret, prepend, trace_of, value_of,
      state_of. cbn.
    unfold trace_of in Q. simpl in Q.
    split.
    + rewrite !filter_app, (filter_none _ _ Q).
      unfold apartment_attempts.
      destruct (CoInitializeEx P COINIT_APARTMENTTHREADED =? RPC_E_CHANGED_MODE);
        reflexivity.
    + exists (apartment_attempts P ++ t1).
      rewrite <- !app_assoc. reflexivity.
  - rewrite (Hf eq_refl).
    unfold throw_error, ScopedCoInit_dtor, when, bind, emit, ret, prepend,
      trace_of, value_of, state_of. cbn.
    split.
    + rewrite filter_app, app_nil_r. cbn.
      unfold apartment_attempts.
      destruct (CoInitializeEx P COINIT_APARTMENTTHREADED =? RPC_E_CHANGED_MODE);
        reflexivity.
    + reflexivity.
Qed.

(** Every synchronous export that gets past its argument check enters a
    COM apartment first, apartment-threaded and, only if the thread already
    has another model, multithreaded.  If that succeeded, [CoUninitialize]
    is called once, as the last thing the export does, whatever its
    outcome; if it failed, the export throws [COM initialization failed],
    does nothing else and calls no [CoUninitialize]. *)
Theorem sync_export_apartment (P : Platform) (c : Ceremony)
        (args : list napi_value) (s : State) :
  let r := export P c Synchronous args s in
  (exists message, trace_of r = [EvNapiThrowTypeError message])
  \/ (filter is_apartment_event (trace_of r)
      = apartment_attempts P
          ++ (if SUCCEEDED (apartment_status P) then [EvCoUninitialize] else [])
      /\ (if SUCCEEDED (apartment_status P)
          then exists t, trace_of r = t ++ [EvCoUninitialize]
          else trace_of r
               = apartment_attempts P
                   ++ [EvNapiThrowError (lit "COM initialization failed")])).
Proof.
  destruct c; unfold export, createCredential, getAssertion; cbv zeta.
  - right. unfold IsAvailableSync.
    apply with_ScopedCoInit_apartment.
    + intro co. emits_tac.
    + intros co H. rewrite H. reflexivity.
  - unfold CreateCredentialSync.
    match goal with
    | |- context [match ?p with Some _ => _ | None => _ end] => destruct p as [[[rpId rpName] userName]|]
    end.
    2:{ left. eexists. reflexivity. }
    right.
    match goal with
    | |- context [bind ?m ?k s] =>
        pose proof (emits_nothing m s ltac:(emits_tac)) as T;
        destruct (m s) as [[hwnd s1] t1] eqn:E;
        rewrite (bind_run m k s hwnd s1 t1 E)
    end.
    unfold trace_of in T. simpl in T. subst t1. rewrite prepend_nil.
    apply with_ScopedCoInit_apartment.
    + intro co. emits_tac.
    + intros co H. rewrite H. reflexivity.
  - unfold GetAssertionSync.
    match goal with
    | |- context [match ?p with Some _ => _ | None => _ end] => destruct p as [[rpId credId]|]
    end.
    2:{ left. eexists. reflexivity. }
    right.
    match goal with
    | |- context [bind ?m ?k s] =>
        pose proof (emits_nothing m s ltac:(emits_tac)) as T;
        destruct (m s) as [[hwnd s1] t1] eqn:E;
        rewrite (bind_run m k s hwnd s1 t1 E)
    end.
    unfold trace_of in T. simpl in T. subst t1. rewrite prepend_nil.
    apply with_ScopedCoInit_apartment.
    + intro co. emits_tac.
    + intros co H. rewrite H. reflexivity.
Qed.

(** ** BringToForeground *)

Lemma attached_app (t u : list Event) (stack : list (DWORD * DWORD)) :
  attached (t ++ u) stack
  = match attached t stack with
    | Some stack' => attached u stack'
    | None => None
    end.
Proof.
  revert stack. induction t as [|e t IH]; intro stack; [reflexivity|].
  destruct e; simpl; try apply IH.
  destruct fAttach; [apply IH|].
  destruct stack as [|[a b] stack]; [reflexivity|].
  destruct ((idAttach =? a) && (idAttachTo =? b)); [apply IH | reflexivity].
Qed.

Lemma restores_thread_input_silent {A} (m : M A) :
  emits_only (fun e => negb (is_thread_input e)) m -> restores_thread_input m.
Proof.
  intros H s stack. specialize (H s).
  induction (trace_of (m s)) as [|e t IH]; [reflexivity|].
  simpl in H. apply andb_true_iff in H. destruct H as [He Ht].
  destruct e; simpl; try (apply IH, Ht). discriminate.
Qed.

Lemma restores_thread_input_bind {A B} (m : M A) (k : A -> M B) :
  restores_thread_input m -> (forall a, restores_thread_input (k a)) ->
  restores_thread_input (bind m k).
Proof.
  intros Hm Hk s stack.
  specialize (Hm s stack).
  destruct (m s) as [[a s1] t1] eqn:E.
  rewrite (bind_run m k s a s1 t1 E).
  unfold prepend, trace_of. simpl.
  unfold trace_of in Hm. simpl in Hm.
  rewrite attached_app, Hm. apply Hk.
Qed.

Lemma BringToForeground_run (P : Platform) (hwnd : HWND) (s : State) :
  let r := BringToForeground P hwnd s in
  (forall stack, attached (trace_of r) stack = Some stack)
  /\ forallb (only_window hwnd) (trace_of r) = true
  /\ if nonnull hwnd && IsWindow P hwnd
     then In (EvSetForegroundWindow hwnd) (trace_of r)
     else r = (tt, s, []).
Proof.
  unfold BringToForeground.
  destruct (nonnull hwnd); cbn [negb andb]; [|repeat split].
  destruct (IsWindow P hwnd); cbn [negb andb]; [|repeat split].
  unfold bind, when, emit, ret, only_window.
  repeat (cbv beta iota;
          match goal with
          | |- context [GetForegroundWindow ?x] =>
              let H := fresh in
              pose proof (GetForegroundWindow_run x) as H;
              destruct (GetForegroundWindow x) as [[? ?] ?];
              unfold value_of, trace_of in H; simpl in H;
              destruct H as [_ ->]
          | |- context [if ?c then _ else _] =>
              lazymatch c with
              | context [if _ then _ else _] => fail
              | _ => destruct c eqn:?
              end
          end);
    cbv beta iota; unfold trace_of; cbn; rewrite ?Z.eqb_refl;
    (split; [intro stack; cbn; rewrite ?Z.eqb_refl; reflexivity
            | split; [reflexivity | repeat first [left; reflexivity | right]]]).
Qed.

(** When it is given no window, or a window that no longer exists,
    [BringToForeground] does nothing at all.  Otherwise it asks for the
    foreground for that window, every window it shows, raises, activates or
    focuses is that window, and each thread input it attaches it detaches
    again before it returns, the one attached last first. *)
Theorem BringToForeground_scoped (P : Platform) (hwnd : HWND) (s : State) :
  let r := BringToForeground P hwnd s in
  attached (trace_of r) [] = Some []
  /\ forallb (only_window hwnd) (trace_of r) = true
  /\ if nonnull hwnd && IsWindow P hwnd
     then In (EvSetForegroundWindow hwnd) (trace_of r)
     else r = (tt, s, []).
Proof.
  destruct (BringToForeground_run P hwnd s) as (B & W & F).
  split; [apply B | split; [exact W | exact F]].
Qed.

Lemma restores_thread_input_BringToForeground (P : Platform) (hwnd : HWND) :
  restores_thread_input (BringToForeground P hwnd).
Proof. intros s stack. apply (BringToForeground_run P hwnd s). Qed.

Lemma restores_thread_input_attach {B} (a b : DWORD) (k : unit -> M B) :
  detaches a b (k tt) ->
  restores_thread_input (bind (emit (EvAttachThreadInput a b true)) k).
Proof. intros H s stack. rewrite bind_emit. apply H. Qed.

Lemma detaches_bind_detach {B} (a b : DWORD) (k : unit -> M B) :
  restores_thread_input (k tt) ->
  detaches a b (bind (emit (EvAttachThreadInput a b false)) k).
Proof.
  intros H s stack. rewrite bind_emit.
  unfold prepend, trace_of. simpl. rewrite !Z.eqb_refl. apply H.
Qed.

Lemma detaches_bind_silent {A B} (a b : DWORD) (m : M A) (k : A -> M B) :
  emits_only (fun e => negb (is_thread_input e)) m ->
  (forall x, detaches a b (k x)) -> detaches a b (bind m k).
Proof.
  intros Hm Hk s stack.
  pose proof (restores_thread_input_silent m Hm s ((a, b) :: stack)) as R.
  destruct (m s) as [[x s1] t1] eqn:E.
  rewrite (bind_run m k s x s1 t1 E).
  unfold prepend, trace_of. simpl.
  unfold trace_of in R. simpl in R.
  rewrite attached_app, R. apply Hk.
Qed.

Ltac restores_tac :=
  repeat first
    [ apply restores_thread_input_BringToForeground
    | apply restores_thread_input_silent; solve [emits_tac]
    | match goal with
      | |- restores_thread_input
             (bind (when ?c (emit (EvAttachThreadInput _ _ true))) _) =>
          destruct c; cbn [when]; [ apply restores_thread_input_attach | ]
      | |- restores_thread_input (bind _ _) =>
          apply restores_thread_input_bind; [ | intro ]
      | |- restores_thread_input (if ?c then _ else _) => destruct c
      | |- restores_thread_input (match ?x with _ => _ end) => destruct x
      | |- detaches _ _ (bind (emit (EvAttachThreadInput _ _ false)) _) =>
          apply detaches_bind_detach
      | |- detaches _ _ (bind _ _) =>
          apply detaches_bind_silent; [ solve [emits_tac] | intro ]
      end ].

(** No export leaves a thread input attached: whatever the arguments, the
    platform and the outcome, the calls of [AttachThreadInput] of every
    export come in pairs, an attachment and later its detachment, properly
    nested. *)
Theorem export_thread_input_restored (P : Platform) (c : Ceremony) (v : Variant)
        (args : list napi_value) (s : State) :
  attached (trace_of (export P c v args s)) [] = Some [].
Proof.
  enough (H : restores_thread_input (export P c v args)) by apply H.
  destruct c, v; unfold export, createCredential, getAssertion, async_call,
    IsAvailable, CreateCredential, GetAssertion, IsAvailableSync,
    CreateCredentialSync, GetAssertionSync, with_ScopedCoInit, run_async_work,
    Execute; cbv zeta; restores_tac.
Qed.

(** ** HResultToString *)

Lemma drop_leading_split {A} (p : A -> bool) (s : list A) :
  exists pre,
    s = pre ++ drop_leading p s
    /\ forallb p pre = true
    /\ match drop_leading p s with
       | [] => True
       | x :: _ => p x = false
       end.
Proof.
  induction s as [|x s IH].
  - exists []. repeat split.
  - simpl. destruct (p x) eqn:E.
    + destruct IH as (pre & E1 & E2 & E3).
      exists (x :: pre). simpl. rewrite E, E2, <- E1. repeat split. exact E3.
    + exists []. repeat split. exact E.
Qed.

(** Popping while [p] holds removes a tail of elements that satisfy [p],
    the longest one. *)
Lemma pop_back_while_split {A} (p : A -> bool) (s : list A) (d : A) :
  exists suffix,
    s = pop_back_while p s ++ suffix
    /\ forallb p suffix = true
    /\ (pop_back_while p s <> [] -> p (last (pop_back_while p s) d) = false).
Proof.
  unfold pop_back_while.
  destruct (drop_leading_split p (rev s)) as (pre & E1 & E2 & E3).
  exists (rev pre). split; [|split].
  - rewrite <- rev_app_distr, <- E1, rev_involutive. reflexivity.
  - rewrite forallb_forall in *. intros x Hx. apply E2, in_rev, Hx.
  - destruct (drop_leading p (rev s)) as [|x l]; [intro H; contradiction H; reflexivity|].
    intros _. simpl. rewrite last_last. exact E3.
Qed.

Lemma hex_digit_value_hex_digit (d : Z) :
  0 <= d < 16 ->
  hex_digit_value (hex_digit d) = d /\ is_upper_hex (hex_digit d) = true.
Proof.
  intro H.
  assert (E : d = 0 \/ d = 1 \/ d = 2 \/ d = 3 \/ d = 4 \/ d = 5 \/ d = 6 \/ d = 7
              \/ d = 8 \/ d = 9 \/ d = 10 \/ d = 11 \/ d = 12 \/ d = 13
              \/ d = 14 \/ d = 15) by lia.
  repeat (destruct E as [-> | E]; [split; reflexivity|]).
  subst d. split; reflexivity.
Qed.

(** [%08X] writes eight upper-case digits, and reading them gives the
    number back. *)
Lemma hex_value_hex8 (u : Z) :
  0 <= u < 2 ^ 32 ->
  hex_value (hex8 u) = u
  /\ forallb is_upper_hex (hex8 u) = true
  /\ length (hex8 u) = 8%nat.
Proof.
  intro H. unfold hex8, hex_value. cbn [map fold_left forallb length].
  assert (D : forall i, 0 <= (u / 16 ^ i) mod 16 < 16)
    by (intro i; apply Z.mod_pos_bound; lia).
  repeat match goal with
         | |- context [hex_digit ((u / 16 ^ ?i) mod 16)] =>
             let V := fresh in let U := fresh in
             destruct (hex_digit_value_hex_digit _ (D i)) as [V U];
             rewrite ?V, ?U; clear V U;
             generalize dependent (hex_digit ((u / 16 ^ i) mod 16)); intros
         end.
  split; [|split; reflexivity].
  clear D.
  assert (E0 : u / 16 ^ 0 = u) by (rewrite Z.pow_0_r; apply Z.div_1_r).
  assert (S : forall i, 0 <= i -> u / 16 ^ (i + 1)  = (u / 16 ^ i) / 16).
  { intros i Hi. rewrite Z.pow_add_r, Z.pow_1_r by lia.
    rewrite Z.div_div by lia. reflexivity. }
  pose proof (S 0 ltac:(lia)) as S0. pose proof (S 1 ltac:(lia)) as S1.
  pose proof (S 2 ltac:(lia)) as S2. pose proof (S 3 ltac:(lia)) as S3.
  pose proof (S 4 ltac:(lia)) as S4. pose proof (S 5 ltac:(lia)) as S5.
  pose proof (S 6 ltac:(lia)) as S6. pose proof (S 7 ltac:(lia)) as S7.
  change (0 + 1) with 1 in S0. change (1 + 1) with 2 in S1.
  change (2 + 1) with 3 in S2. change (3 + 1) with 4 in S3.
  change (4 + 1) with 5 in S4. change (5 + 1) with 6 in S5.
  change (6 + 1) with 7 in S6. change (7 + 1) with 8 in S7.
  assert (E8 : u / 16 ^ 8 = 0) by (apply Z.div_small; lia).
  pose proof (Z.div_mod (u / 16 ^ 0) 16 ltac:(lia)).
  pose proof (Z.div_mod (u / 16 ^ 1) 16 ltac:(lia)).
  pose proof (Z.div_mod (u / 16 ^ 2) 16 ltac:(lia)).
  pose proof (Z.div_mod (u / 16 ^ 3) 16 ltac:(lia)).
  pose proof (Z.div_mod (u / 16 ^ 4) 16 ltac:(lia)).
  pose proof (Z.div_mod (u / 16 ^ 5) 16 ltac:(lia)).
  pose proof (Z.div_mod (u / 16 ^ 6) 16 ltac:(lia)).
  pose proof (Z.div_mod (u / 16 ^ 7) 16 ltac:(lia)).
  lia.
Qed.

Lemma HResultToString_starts (P : Platform) (hr : HRESULT) :
  exists rest,
    HResultToString P hr = lit "HRESULT=0x" ++ hex8 (hr mod 2 ^ 32) ++ rest.
Proof.
  unfold HResultToString. cbv zeta.
  repeat match goal with
         | |- context [if ?c then _ else _] => destruct c
         end.
  - exists []. rewrite app_nil_r. reflexivity.
  - exists []. rewrite app_nil_r. reflexivity.
  - eexists. rewrite <- !app_assoc. reflexivity.
Qed.

(** The text of a status always starts with [HRESULT=0x] and the eight
    upper-case hexadecimal digits of the status as an unsigned 32-bit
    number: reading the digits back gives that number, so different
    statuses have different texts whatever messages the system has. *)
Theorem HResultToString_code (P : Platform) (hr : HRESULT) :
  let text := HResultToString P hr in
  let digits := firstn 8 (skipn 10 text) in
  firstn 10 text = lit "HRESULT=0x"
  /\ length digits = 8%nat
  /\ forallb is_upper_hex digits = true
  /\ hex_value digits = hr mod 2 ^ 32.
Proof.
  destruct (HResultToString_starts P hr) as [rest E].
  cbv zeta. rewrite E.
  assert (R : 0 <= hr mod 2 ^ 32 < 2 ^ 32) by (apply Z.mod_pos_bound; lia).
  destruct (hex_value_hex8 _ R) as (V & U & L).
  change (skipn 10 (lit "HRESULT=0x" ++ hex8 (hr mod 2 ^ 32) ++ rest))
    with (hex8 (hr mod 2 ^ 32) ++ rest).
  change (firstn 10 (lit "HRESULT=0x" ++ hex8 (hr mod 2 ^ 32) ++ rest))
    with (lit "HRESULT=0x").
  replace (firstn 8 (hex8 (hr mod 2 ^ 32) ++ rest)) with (hex8 (hr mod 2 ^ 32)).
  - repeat split; assumption.
  - symmetry. rewrite firstn_app, L, Nat.sub_diag, firstn_O, app_nil_r.
    rewrite <- L at 1. apply firstn_all.
Qed.

(** What follows the code in the text of a status is nothing, when the
    system has no message for the status or its conversion to UTF-8 is
    empty, and otherwise the message between [" ("] and [")"], without the
    carriage returns, line feeds and spaces it ends with: what is removed is
    a tail of such characters, and what is left does not end with one. *)
Theorem HResultToString_message (P : Platform) (hr : HRESULT) :
  exists w suffix,
    FormatMessageW P hr = w ++ suffix
    /\ forallb is_trailing suffix = true
    /\ (w <> [] -> is_trailing (last w 0%N) = false)
    /\ HResultToString P hr
       = lit "HRESULT=0x" ++ hex8 (hr mod 2 ^ 32)
           ++ (if empty (WideToUtf8 P w) then []
               else lit " (" ++ WideToUtf8 P w ++ lit ")").
Proof.
  unfold HResultToString. cbv zeta.
  destruct (pop_back_while_split is_trailing (FormatMessageW P hr) 0%N)
    as (suffix & E1 & E2 & E3).
  change (fun c : N => (N.eqb c wCR || N.eqb c wLF || N.eqb c wSP)%bool)
    with is_trailing.
  exists (pop_back_while is_trailing (FormatMessageW P hr)), suffix.
  repeat (split; [assumption|]).
  destruct (FormatMessageW P hr) as [|c msg] eqn:E.
  - reflexivity.
  - cbn [empty].
    match goal with
    | |- (if ?e then _ else _) = _ => change e with
          (empty (WideToUtf8 P (pop_back_while is_trailing (c :: msg))))
    end.
    destruct (empty (WideToUtf8 P (pop_back_while is_trailing (c :: msg)))).
    + rewrite app_nil_r. reflexivity.
    + rewrite <- !app_assoc. reflexivity.
Qed.


(** ** ReadHwndFromBuffer *)

Lemma to_N_byte_of_N (n : N) : (n < 256)%N -> Byte.to_N (Demo.byte_of_N n) = n.
Proof.
  intro H. unfold Demo.byte_of_N. rewrite N.mod_small by exact H.
  destruct (Byte.of_N n) as [b|] eqn:E.
  - apply Byte.to_of_N, E.
  - apply Byte.of_N_None_iff in E. lia.
Qed.

Lemma le_decode_le_encode (n : nat) (z : Z) :
  le_decode (le_encode n z) = z mod 256 ^ Z.of_nat n.
Proof.
  revert z. induction n as [|n IH]; intro z.
  - simpl. rewrite Z.mod_1_r. reflexivity.
  - cbn [le_encode le_decode]. rewrite IH.
    assert (B : 0 <= z mod 256 < 256) by (apply Z.mod_pos_bound; lia).
    rewrite to_N_byte_of_N by lia.
    rewrite Z2N.id by lia.
    rewrite Nat2Z.inj_succ, Z.pow_succ_r by lia.
    rewrite Z.rem_mul_r by lia. reflexivity.
Qed.

Lemma firstn_le_encode (k n : nat) (z : Z) :
  (k <= n)%nat -> firstn k (le_encode n z) = le_encode k z.
Proof.
  revert n z. induction k as [|k IH]; intros n z H; [reflexivity|].
  destruct n as [|n]; [lia|].
  cbn [le_encode firstn]. rewrite IH by lia. reflexivity.
Qed.

(** A window handle that the caller wrote into a buffer as a little-endian
    integer, of the size of a pointer or of eight bytes, is read back as it
    was written, up to the size of a pointer: a 32-bit process keeps the low
    four bytes of an eight-byte buffer. *)
Theorem ReadHwndFromBuffer_round_trip (P : Platform) (h : Z) (n : nat) :
  n = sizeof_pointer P \/ n = 8%nat ->
  (sizeof_pointer P <= n)%nat ->
  ReadHwndFromBuffer P (Some (le_encode n h)) n
  = h mod 256 ^ Z.of_nat (sizeof_pointer P).
Proof.
  intros Hn Hle. unfold ReadHwndFromBuffer.
  replace (negb (Nat.eqb n (sizeof_pointer P)) && negb (Nat.eqb n 8))%bool
    with false.
  - rewrite firstn_le_encode by exact Hle. apply le_decode_le_encode.
  - symmetry. destruct Hn as [-> | ->].
    + rewrite Nat.eqb_refl. reflexivity.
    + rewrite Nat.eqb_refl. apply andb_false_r.
Qed.

Lemma ReadHwndFromBuffer_round_trip_witness :
  let P := Demo.platform [] S_OK (S_OK, None) (S_OK, None) in
  ReadHwndFromBuffer P (Some (le_encode 8 57005)) 8
  = 57005 mod 256 ^ Z.of_nat (sizeof_pointer P).
Proof.
  apply (ReadHwndFromBuffer_round_trip
           (Demo.platform [] S_OK (S_OK, None) (S_OK, None)) 57005 8).
  - right. reflexivity.
  - simpl. lia.
Defined.

(** Where a pointer has at most eight bytes, the handle read from a buffer
    depends on the bytes of the buffer only, not on the memory behind it:
    it is null unless the buffer has the size of a pointer or eight bytes,
    and the integer of its first bytes otherwise. *)
Theorem ReadHwndFromBuffer_in_bounds (P : Platform) (mem behind : bytes) :
  (sizeof_pointer P <= 8)%nat ->
  ReadHwndFromBuffer P (Some (mem ++ behind)) (length mem)
  = if (Nat.eqb (length mem) (sizeof_pointer P) || Nat.eqb (length mem) 8)%bool
    then le_decode (firstn (sizeof_pointer P) mem)
    else nullptr.
Proof.
  intro H. unfold ReadHwndFromBuffer.
  destruct (Nat.eqb (length mem) (sizeof_pointer P)) eqn:E1;
    destruct (Nat.eqb (length mem) 8) eqn:E2; cbn [negb andb orb];
    try reflexivity.
  - apply Nat.eqb_eq in E1. rewrite firstn_app, <- E1, Nat.sub_diag, firstn_O, app_nil_r.
    reflexivity.
  - apply Nat.eqb_eq in E1. rewrite firstn_app, <- E1, Nat.sub_diag, firstn_O, app_nil_r.
    reflexivity.
  - apply Nat.eqb_eq in E2. rewrite firstn_app.
    replace (sizeof_pointer P - length mem)%nat with 0%nat by lia.
    rewrite firstn_O, app_nil_r. reflexivity.
Qed.

Lemma ReadHwndFromBuffer_in_bounds_witness :
  let P := Demo.platform [] S_OK (S_OK, None) (S_OK, None) in
  ReadHwndFromBuffer P (Some (le_encode 8 57005 ++ [xff; xff])) 8 = 57005.
Proof.
  apply (ReadHwndFromBuffer_in_bounds
           (Demo.platform [] S_OK (S_OK, None) (S_OK, None))
           (le_encode 8 57005) [xff; xff]).
  simpl. lia.
Defined.

(** ** The arguments of the exports *)

Ltac typed_tac :=
  unfold export, createCredential, getAssertion, async_call, IsAvailable,
    CreateCredential, GetAssertion, IsAvailableSync, CreateCredentialSync,
    GetAssertionSync, with_ScopedCoInit, run_async_work;
  cbn [well_typed length Nat.ltb Nat.leb argv nth GetStringArg GetBufferArg];
  first
    [ split; [eexists; reflexivity | split; reflexivity]
    | unfold Execute; cbv zeta; solve [emits_tac] ].

(** An export whose arguments are missing or of the wrong type throws one
    type error and does nothing else: it makes no platform call, queues no
    work, returns nothing and leaves the state of the addon as it was.  An
    export whose arguments are there never throws a type error, whatever
    follows them: a window argument that is not a buffer is ignored. *)
Theorem export_type_error (P : Platform) (c : Ceremony) (v : Variant)
        (args : list napi_value) (s : State) :
  let r := export P c v args s in
  if well_typed c args
  then forallb (fun e => negb (is_type_error e)) (trace_of r) = true
  else (exists message, trace_of r = [EvNapiThrowTypeError message])
       /\ state_of r = s /\ value_of r = None.
Proof.
  cbv zeta.
  enough (H : if well_typed c args
              then emits_only (fun e => negb (is_type_error e)) (export P c v args)
              else (exists message,
                       trace_of (export P c v args s) = [EvNapiThrowTypeError message])
                   /\ state_of (export P c v args s) = s
                   /\ value_of (export P c v args s) = None).
  { destruct (well_typed c args); [apply H | exact H]. }
  destruct c.
  - destruct v; typed_tac.
  - destruct args as [|[] [|[] [|[] rest]]]; destruct v; typed_tac.
  - destruct args as [|[] [|[] rest]]; destruct v; typed_tac.
Qed.

(** ** The two probes *)

Lemma emits_only_not_In (Q : Event -> bool) {A} (m : M A) (s : State) (e : Event) :
  emits_only Q m -> Q e = false -> ~ In e (trace_of (m s)).
Proof.
  intros H He Hin. specialize (H s).
  rewrite forallb_forall in H. specialize (H e Hin). congruence.
Qed.

Lemma IsAvailable_outcome (P : Platform) (args : list napi_value) (s : State) :
  outcomes (export P Probe Asynchronous args s)
  = [ if FAILED (fst (WebAuthNIsUserVerifyingPlatformAuthenticatorAvailable P))
      then Failed
             (lit "WebAuthNIsUserVerifyingPlatformAuthenticatorAvailable failed: "
                ++ HResultToString P
                     (fst (WebAuthNIsUserVerifyingPlatformAuthenticatorAvailable P)))
      else Succeeded
             (js_boolean
                (snd (WebAuthNIsUserVerifyingPlatformAuthenticatorAvailable P) =? 1)) ].
Proof.
  unfold export, async_call, IsAvailable, PromiseFromWork, run_async_work, Execute.
  cbn [do_is_available].
  destruct (WebAuthNIsUserVerifyingPlatformAuthenticatorAvailable P) as [hr available].
  cbn [fst snd].
  generalize (HResultToString P hr). intro text.
  destruct (FAILED hr); reflexivity.
Qed.

(** Whenever the synchronous probe gets as far as asking the platform, and
    the platform answers with one of the two values of a [BOOL], it reports
    what the asynchronous probe reports: the same boolean, or the same
    error. *)
Theorem IsAvailable_variants_agree (P : Platform) (args args' : list napi_value)
        (s s' : State) :
  snd (WebAuthNIsUserVerifyingPlatformAuthenticatorAvailable P) = 0
  \/ snd (WebAuthNIsUserVerifyingPlatformAuthenticatorAvailable P) = 1 ->
  In EvIsUserVerifyingPlatformAuthenticatorAvailable
     (trace_of (export P Probe Synchronous args s)) ->
  outcomes (export P Probe Synchronous args s)
  = outcomes (export P Probe Asynchronous args' s').
Proof.
  intros Hb Hin. rewrite IsAvailable_outcome.
  revert Hin. unfold export, IsAvailableSync, with_ScopedCoInit.
  rewrite (bind_run _ _ _ _ _ _ (ScopedCoInit_ctor_run P s)). cbv beta.
  cbn [did_init].
  assert (Ha : ~ In EvIsUserVerifyingPlatformAuthenticatorAvailable
                    (apartment_attempts P)).
  { unfold apartment_attempts.
    destruct (CoInitializeEx P COINIT_APARTMENTTHREADED =? RPC_E_CHANGED_MODE);
      simpl; intuition discriminate. }
  assert (Ra : flat_map reports (apartment_attempts P) = []).
  { unfold apartment_attempts.
    destruct (CoInitializeEx P COINIT_APARTMENTTHREADED =? RPC_E_CHANGED_MODE);
      reflexivity. }
  revert Ha Ra. generalize (apartment_attempts P). intros ta Ha Ra.
  destruct (SUCCEEDED (apartment_status P)); cbn [negb].
  2:{ unfold throw_error, ScopedCoInit_dtor, when, bind, emit, ret, prepend,
        trace_of. cbn. rewrite app_nil_r, in_app_iff.
      intros [H | H]; [contradiction (Ha H) | simpl in H; intuition discriminate]. }
  rewrite !bind_assoc.
  pose proof (emits_only_not_In (fun e => negb (is_probe e))
                (EnsureComSecurityInitialized P) s
                EvIsUserVerifyingPlatformAuthenticatorAvailable
                ltac:(emits_tac) eq_refl) as He.
  pose proof (emits_only_silent (EnsureComSecurityInitialized P) s
                ltac:(emits_tac)) as Re.
  destruct (EnsureComSecurityInitialized P s) as [[sec s1] t1] eqn:E.
  rewrite (bind_run _ _ _ _ _ _ E). cbv beta.
  unfold trace_of in He, Re. simpl in He, Re.
  destruct (WebAuthNIsUserVerifyingPlatformAuthenticatorAvailable P)
    as [hr available].
  cbn [fst snd] in *.
  generalize (HResultToString P hr). generalize (HResultToString P sec).
  intros text' text.
  destruct (FAILED sec).
  { unfold throw_error, ScopedCoInit_dtor, when, bind, emit, ret, prepend,
      trace_of. cbn. rewrite !in_app_iff.
    intros [H | [H | H]];
      [contradiction (Ha H) | contradiction (He H) | simpl in H; intuition discriminate]. }
  intros _.
  destruct (FAILED hr).
  - unfold outcomes, throw_error, ScopedCoInit_dtor, when, bind, emit, ret,
      prepend, trace_of, value_of. cbn.
    rewrite !flat_map_app, Ra, Re. reflexivity.
  - unfold outcomes, throw_error, ScopedCoInit_dtor, when, bind, emit, ret,
      prepend, trace_of, value_of. cbn.
    rewrite !flat_map_app, Ra, Re. cbn.
    destruct Hb as [-> | ->]; reflexivity.
Qed.

Lemma IsAvailable_variants_agree_witness :
  let P := Demo.platform [] S_OK (S_OK, None) (S_OK, None) in
  outcomes (export P Probe Synchronous [] (Demo.fresh 0))
  = outcomes (export P Probe Asynchronous [] (Demo.fresh 0)).
Proof.
  apply (IsAvailable_variants_agree
           (Demo.platform [] S_OK (S_OK, None) (S_OK, None)) [] []
           (Demo.fresh 0) (Demo.fresh 0)).
  - right. reflexivity.
  - vm_compute. auto.
Defined.

(** ** getAssertion: the native result and the outcome *)

Lemma quiet_no_assertion_release (t : list Event) :
  quiet t -> assertion_releases t = 0%nat.
Proof.
  unfold assertion_releases. induction t as [|e t IH]; [reflexivity|].
  intro H. apply quiet_inv in H. destruct H as [He Ht].
  simpl. destruct e; try (apply IH, Ht); discriminate.
Qed.

(** In every assertion ceremony that calls the authenticator, asynchronous
    or synchronous: the native assertion, when the authenticator produced
    one, is released exactly once, right after the call and before the
    outcome is reported, whether the call failed or succeeded; when it
    produced none, nothing is released.  A failure status is reported as
    the platform failure with the text of the status, any success as
    [true]. *)
Theorem getAssertion_result_released (P : Platform) (v : Variant)
        (args : list napi_value) (s : State)
        (pre : list Event) (call : GetAssertionCall) (post : list Event) :
  split_at_get (trace_of (getAssertion P v args s)) = Some (pre, call, post) ->
  let hr := fst (WebAuthNAuthenticatorGetAssertion P) in
  let assertion := snd (WebAuthNAuthenticatorGetAssertion P) in
  assertion_releases pre = 0%nat
  /\ assertion_releases post
     = match assertion with Some _ => 1%nat | None => 0%nat end
  /\ post = released_assertion assertion
              ++ (if FAILED hr
                  then report_error v
                         (lit "WebAuthNAuthenticatorGetAssertion failed: "
                            ++ HResultToString P hr)
                  else report_true v)
  /\ (v = Synchronous ->
      value_of (getAssertion P v args s)
      = if FAILED hr then None else Some (js_boolean true)).
Proof.
  intros H hr assertion.
  destruct (getAssertion_call P v args s pre call post H)
    as (rpId & credId & rest & hwnd & ch & _ & _ & Q & -> & V & _).
  rewrite V. clear V H.
  subst hr assertion. unfold get_tail, get_value.
  destruct (WebAuthNAuthenticatorGetAssertion P) as [hr a]. cbn [fst snd].
  split; [apply quiet_no_assertion_release, Q|].
  split; [destruct a, (FAILED hr), v; reflexivity|].
  split; [reflexivity|].
  intros ->. reflexivity.
Qed.

Lemma getAssertion_result_released_witness :
  let P := Demo.platform [100] S_OK (S_OK, None) (E_FAIL, Some Demo.assertion0) in
  let r := getAssertion P Asynchronous
             [js_string (lit "example.com"); js_buffer Demo.credential16]
             (Demo.fresh 100) in
  exists pre call post,
    split_at_get (trace_of r) = Some (pre, call, post)
    /\ assertion_releases pre = 0%nat
    /\ assertion_releases post = 1%nat
    /\ post = [EvFreeAssertion Demo.assertion0;
               EvNapiRejectDeferred
                 (lit "WebAuthNAuthenticatorGetAssertion failed: HRESULT=0x80004005");
               EvNapiDeleteAsyncWork].
Proof.
  intros P r.
  destruct (split_at_get (trace_of r)) as [[[pre call] post]|] eqn:E;
    [|vm_compute in E; discriminate].
  exists pre, call, post. split; [reflexivity|].
  destruct (getAssertion_result_released
              P Asynchronous
              [js_string (lit "example.com"); js_buffer Demo.credential16]
              (Demo.fresh 100) pre call post E)
    as (R1 & R2 & R3 & _).
  split; [exact R1|]. split; [exact R2|]. exact R3.
Defined.

(** ** The challenge and the user id *)

Lemma keeps_random_ret {A} (a : A) : keeps_random (ret a).
Proof. intro s. reflexivity. Qed.

Lemma keeps_random_emit (e : Event) : keeps_random (emit e).
Proof. intro s. reflexivity. Qed.

Lemma keeps_random_bind {A B} (m : M A) (k : A -> M B) :
  keeps_random m -> (forall a, keeps_random (k a)) -> keeps_random (bind m k).
Proof.
  intros Hm Hk s. specialize (Hm s).
  destruct (m s) as [[a s1] t1] eqn:E.
  rewrite (bind_run m k s a s1 t1 E).
  unfold prepend, state_of. simpl.
  unfold state_of in Hm. simpl in Hm. rewrite <- Hm. apply Hk.
Qed.

Lemma keeps_random_when (c : bool) (m : M unit) :
  keeps_random m -> keeps_random (when c m).
Proof. intro H. destruct c; [exact H | apply keeps_random_ret]. Qed.

Lemma keeps_random_GetForegroundWindow : keeps_random GetForegroundWindow.
Proof. intro s. unfold GetForegroundWindow. destruct (foreground s); reflexivity. Qed.

Lemma keeps_random_GetActiveWindow : keeps_random GetActiveWindow.
Proof. intro s. unfold GetActiveWindow. destruct (active s); reflexivity. Qed.

Lemma keeps_random_EnsureComSecurityInitialized (P : Platform) :
  keeps_random (EnsureComSecurityInitialized P).
Proof.
  intro s. destruct (once s) eqn:E.
  - rewrite EnsureComSecurityInitialized_later by exact E. reflexivity.
  - rewrite EnsureComSecurityInitialized_first by exact E. reflexivity.
Qed.

Ltac keeps_random_tac :=
  unfold GetValidHwndForWebAuthn, BringToForeground, ScopedCoInit_ctor,
    ScopedCoInit_dtor, free_if_attestation, free_if_assertion,
    throw_error, throw_type_error, throw_type_error_nowork, PromiseFromWork,
    Complete;
  cbv zeta;
  repeat first
    [ apply keeps_random_ret
    | apply keeps_random_GetForegroundWindow
    | apply keeps_random_GetActiveWindow
    | apply keeps_random_EnsureComSecurityInitialized
    | apply keeps_random_emit
    | apply keeps_random_when
    | apply keeps_random_bind; [ | intro ]
    | match goal with
      | |- keeps_random (if ?c then _ else _) => destruct c
      | |- keeps_random (match ?x with _ => _ end) => destruct x
      end ].

Lemma fresh_event_other (P : Platform) (rnd : list (option bytes)) (t : list Event) :
  forallb (fun e => negb (is_call e)) t = true -> Forall (fresh_event P rnd) t.
Proof.
  intro H. rewrite forallb_forall in H. apply Forall_forall. intros e He.
  specialize (H e He). destruct e; try exact I; discriminate.
Qed.

Lemma fresh_calls_ret P rnd0 rnd {A} (a : A) : fresh_calls P rnd0 rnd (ret a).
Proof. intros s _. constructor. Qed.

Lemma fresh_calls_bind_silent P rnd0 rnd {A B} (m : M A) (k : A -> M B) :
  emits_only (fun e => negb (is_call e)) m ->
  keeps_random m ->
  (forall a, fresh_calls P rnd0 rnd (k a)) ->
  fresh_calls P rnd0 rnd (bind m k).
Proof.
  intros He Hr Hk s Hs. specialize (He s). specialize (Hr s).
  destruct (m s) as [[a s1] t1] eqn:E.
  rewrite (bind_run m k s a s1 t1 E).
  unfold prepend, trace_of. simpl.
  unfold trace_of in He. unfold state_of in Hr. simpl in He, Hr.
  apply Forall_app. split.
  - apply fresh_event_other, He.
  - apply Hk. rewrite Hr. exact Hs.
Qed.

Lemma fresh_calls_bind_emit P rnd0 rnd {B} (e : Event) (k : unit -> M B) :
  fresh_event P rnd0 e ->
  fresh_calls P rnd0 rnd (k tt) -> fresh_calls P rnd0 rnd (bind (emit e) k).
Proof.
  intros He Hk s Hs. rewrite bind_emit.
  unfold prepend, trace_of. simpl. constructor; [exact He | apply Hk, Hs].
Qed.

Lemma fresh_calls_bind_ret P rnd0 rnd {A B} (a : A) (k : A -> M B) :
  fresh_calls P rnd0 rnd (k a) -> fresh_calls P rnd0 rnd (bind (ret a) k).
Proof. intros Hk s Hs. rewrite bind_ret. apply Hk, Hs. Qed.

Lemma fresh_calls_assoc P rnd0 rnd {A B C} (m : M A) (f : A -> M B) (g : B -> M C) :
  fresh_calls P rnd0 rnd (bind m (fun x => bind (f x) g)) ->
  fresh_calls P rnd0 rnd (bind (bind m f) g).
Proof. intros H s Hs. rewrite bind_assoc. apply H, Hs. Qed.

Lemma drawn_length (r : option (option bytes)) (out : bytes) :
  drawn r out -> length out = 32%nat.
Proof.
  intros (bs & _ & ->). rewrite length_firstn, length_app, repeat_length. lia.
Qed.

(** [GetRandomBytes(out, 32)] takes the next answer of the generator, and
    succeeds only if that is 32 bytes for the buffer. *)
Lemma fresh_calls_bind_GetRandomBytes P rnd0 rnd {B} (k : bool * bytes -> M B) :
  (forall ok out,
      (ok = true -> drawn (hd_error rnd) out) ->
      fresh_calls P rnd0 (tl rnd) (k (ok, out))) ->
  fresh_calls P rnd0 rnd (bind (GetRandomBytes 32) k).
Proof.
  intros Hk s Hs.
  assert (E : exists ok out s1,
             GetRandomBytes 32 s = ((ok, out), s1, [])
             /\ random s1 = tl rnd
             /\ (ok = true -> drawn (hd_error rnd) out)).
  { unfold GetRandomBytes, BCryptGenRandom, bind, ret. rewrite Hs.
    destruct rnd as [|[bs|] rest].
    - eexists _, _, _. split; [reflexivity|]. split; [exact Hs|]. discriminate.
    - eexists _, _, _. split; [reflexivity|]. split; [reflexivity|].
      intros _. exists bs. split; reflexivity.
    - eexists _, _, _. split; [reflexivity|]. split; [reflexivity|]. discriminate. }
  destruct E as (ok & out & s1 & E & Hr & Hd).
  rewrite (bind_run _ k s _ s1 [] E), prepend_nil.
  apply Hk; assumption.
Qed.

Ltac fresh_event_tac :=
  cbn [fresh_event];
  first
    [ exact I
    | match goal with
      | Hc : true = true -> drawn _ ?c |- exists challenge, _ =>
          exists c; cbn;
          repeat split;
          try solve [ apply Hc; reflexivity
                    | apply (drawn_length _ _ (Hc eq_refl)) ];
          match goal with
          | Hu : true = true -> drawn _ ?u |- _ =>
              first [ apply Hu; reflexivity
                    | rewrite (drawn_length _ _ (Hu eq_refl)); reflexivity ]
          end
      end ].

Ltac fresh_step :=
  match goal with
  | |- fresh_calls _ _ _ (bind (bind _ _) _) => apply fresh_calls_assoc
  | |- fresh_calls _ _ _ (bind (ret _) _) =>
      apply fresh_calls_bind_ret; cbv beta iota
  | |- fresh_calls _ _ _ (bind (GetRandomBytes 32) _) =>
      apply fresh_calls_bind_GetRandomBytes; intros [] ? ?;
      cbv beta iota; cbn [negb orb]
  | |- fresh_calls _ _ _ (bind (emit _) _) =>
      apply fresh_calls_bind_emit; [ fresh_event_tac | ]
  | |- fresh_calls _ _ _ (bind (if ?c then _ else _) _) => destruct c eqn:?
  | |- fresh_calls _ _ _ (bind (match ?x with _ => _ end) _) => destruct x eqn:?
  | |- fresh_calls _ _ _ (bind _ _) =>
      apply fresh_calls_bind_silent;
      [ solve [emits_tac] | solve [keeps_random_tac] | intro ]
  | |- fresh_calls _ _ _ (if ?c then _ else _) => destruct c eqn:?
  | |- fresh_calls _ _ _ (match ?x with _ => _ end) => destruct x eqn:?
  | |- fresh_calls _ _ _ (ret _) => apply fresh_calls_ret
  end.

(** In every call of the authenticator, by any export, the challenge in the
    client data is the 32 bytes that the first call of the random number
    generator in this ceremony produced, and the user id of a creation the
    32 bytes of the second call.  So a ceremony whose random number
    generator fails never calls the authenticator, and no call carries a
    value that did not come from the generator. *)
Theorem export_fresh_challenge (P : Platform) (c : Ceremony) (v : Variant)
        (args : list napi_value) (s : State) :
  Forall (fresh_event P (random s)) (trace_of (export P c v args s)).
Proof.
  enough (H : fresh_calls P (random s) (random s) (export P c v args))
    by (apply H; reflexivity).
  generalize (random s). intro rnd.
  destruct c, v;
    unfold export, createCredential, getAssertion, async_call, IsAvailable,
      CreateCredential, GetAssertion, IsAvailableSync, CreateCredentialSync,
      GetAssertionSync, with_ScopedCoInit, throw_error, throw_type_error,
      throw_type_error_nowork, PromiseFromWork;
    cbv zeta;
    repeat (repeat fresh_step;
            unfold run_async_work, Execute, Complete;
            cbn [do_is_available do_make_credential do_get_assertion negb orb];
            cbv beta iota zeta).
Qed.

(** ** CoInitializeSecurity across the exports *)

Lemma security_calls_app (t u : list Event) :
  security_calls (t ++ u) = (security_calls t + security_calls u)%nat.
Proof. unfold security_calls. rewrite filter_app, length_app. reflexivity. Qed.

Lemma initializes_once_bind {A B} (m : M A) (k : A -> M B) :
  initializes_once m -> (forall a, initializes_once (k a)) ->
  initializes_once (bind m k).
Proof.
  intros Hm Hk s. specialize (Hm s).
  destruct (m s) as [[a s1] t1] eqn:E.
  rewrite (bind_run m k s a s1 t1 E).
  specialize (Hk a s1).
  unfold prepend, trace_of, state_of in *. simpl in *.
  destruct Hm as [Hm1 Hm2], Hk as [Hk1 Hk2].
  rewrite security_calls_app. split; [lia|].
  intro H. rewrite <- (Hm2 H). apply Hk2.
  rewrite H in Hm1. destruct (once s1); [reflexivity | simpl in Hm1; lia].
Qed.

Lemma initializes_once_silent {A} (m : M A) :
  emits_only (fun e => negb (is_CoInitializeSecurity e)) m ->
  keeps_security m -> initializes_once m.
Proof.
  intros He Hk s. specialize (He s). specialize (Hk s).
  destruct Hk as [Hk1 Hk2]. rewrite Hk1. split; [|intros _; exact Hk2].
  unfold security_calls.
  rewrite (filter_none is_CoInitializeSecurity _ He). reflexivity.
Qed.

Lemma initializes_once_EnsureComSecurityInitialized (P : Platform) :
  initializes_once (EnsureComSecurityInitialized P).
Proof.
  intro s. destruct (once s) eqn:E.
  - rewrite EnsureComSecurityInitialized_later by exact E.
    unfold state_of, trace_of. simpl. rewrite E. split; reflexivity.
  - rewrite EnsureComSecurityInitialized_first by exact E.
    split; [reflexivity | discriminate].
Qed.

Ltac keeps_security_tac :=
  unfold GetValidHwndForWebAuthn, BringToForeground, ScopedCoInit_ctor,
    ScopedCoInit_dtor, free_if_attestation, free_if_assertion,
    throw_error, throw_type_error, throw_type_error_nowork, PromiseFromWork,
    Complete;
  cbv zeta;
  repeat first
    [ apply keeps_security_ret
    | apply keeps_security_GetForegroundWindow
    | apply keeps_security_GetActiveWindow
    | apply keeps_security_GetRandomBytes
    | apply keeps_security_emit
    | apply keeps_security_when
    | apply keeps_security_bind; [ | intro ]
    | match goal with
      | |- keeps_security (if ?c then _ else _) => destruct c
      | |- keeps_security (match ?x with _ => _ end) => destruct x
      end ].

Ltac initializes_tac :=
  repeat first
    [ apply initializes_once_EnsureComSecurityInitialized
    | apply initializes_once_silent;
      [ solve [emits_tac] | solve [keeps_security_tac] ]
    | match goal with
      | |- initializes_once (bind _ _) =>
          apply initializes_once_bind; [ | intro ]
      | |- initializes_once (if ?c then _ else _) => destruct c
      | |- initializes_once (match ?x with _ => _ end) => destruct x
      end ].

Lemma initializes_once_export (P : Platform) (c : Ceremony) (v : Variant)
      (args : list napi_value) :
  initializes_once (export P c v args).
Proof.
  destruct c, v; unfold export, createCredential, getAssertion, async_call,
    IsAvailable, CreateCredential, GetAssertion, IsAvailableSync,
    CreateCredentialSync, GetAssertionSync, with_ScopedCoInit, run_async_work,
    Execute; cbv zeta; initializes_tac.
Qed.

(** Whatever exports a program calls, in whatever order and with whatever
    arguments and outcomes, [CoInitializeSecurity] is called at most once
    in the process; once it has been called it is never called again, and
    the status kept from that call is the one every later call sees. *)
Theorem session_security_once (P : Platform) (calls : list Call) (s : State) :
  let r := session P calls s in
  (security_calls (trace_of r) <= 1)%nat
  /\ (once s = true ->
      security_calls (trace_of r) = 0%nat
      /\ once (state_of r) = true
      /\ result (state_of r) = result s).
Proof.
  assert (H : initializes_once (session P calls)).
  { induction calls as [|c calls IH].
    - apply initializes_once_silent; [emits_tac | apply keeps_security_ret].
    - cbn [session]. apply initializes_once_bind.
      + apply initializes_once_export.
      + intros _. exact IH. }
  cbv zeta. destruct (H s) as [H1 H2].
  split.
  - destruct (once (state_of (session P calls s))), (once s); simpl in H1; lia.
  - intro E. rewrite E in H1. simpl in H1.
    destruct (once (state_of (session P calls s))); simpl in H1;
      [|lia].
    repeat split; [lia | exact (H2 E)].
Qed.

(** ** The life of asynchronous work *)

Lemma Execute_no_work_event (P : Platform) (ctx : AsyncContext) :
  emits_only (fun e => negb (is_work_event e)) (Execute P ctx).
Proof. unfold Execute. emits_tac. Qed.

Lemma run_async_work_life (P : Platform) (ctx : AsyncContext) (s : State) :
  exists mid settle,
    trace_of (run_async_work P (Some ctx) s) = mid ++ [settle; EvNapiDeleteAsyncWork]
    /\ forallb (fun e => negb (is_work_event e)) mid = true
    /\ is_settlement settle = true.
Proof.
  unfold run_async_work.
  pose proof (Execute_no_work_event P ctx s) as Q.
  destruct (Execute P ctx s) as [[ctx' s1] t1] eqn:E.
  rewrite (bind_run _ _ _ _ _ _ E).
  unfold trace_of in Q. simpl in Q.
  unfold Complete, prepend, trace_of, bind, emit, ret.
  destruct (negb (empty (error ctx'))); [|destruct (negb (empty (buffer_result ctx')))];
    cbn.
  - exists t1. eexists. split; [reflexivity|]. split; [exact Q | reflexivity].
  - exists (t1 ++ [EvNapiCreateBufferCopy (buffer_result ctx')]). eexists.
    split; [rewrite <- app_assoc; reflexivity|].
    split; [|reflexivity].
    rewrite forallb_app, Q. reflexivity.
  - exists t1. eexists. split; [reflexivity|]. split; [exact Q | reflexivity].
Qed.

Ltac work_tac :=
  unfold export, createCredential, getAssertion, async_call, IsAvailable,
    CreateCredential, GetAssertion, PromiseFromWork;
  cbn [well_typed length Nat.ltb Nat.leb argv nth GetStringArg GetBufferArg];
  first
    [ split; reflexivity
    | rewrite !bind_assoc, bind_emit, bind_ret; cbv beta iota;
      match goal with
      | |- context [bind (run_async_work ?P (Some ?ctx)) _ ?s'] =>
          let L := fresh "L" in
          let Hm := fresh "Hm" in let Hs := fresh "Hs" in
          let E := fresh "E" in
          destruct (run_async_work_life P ctx s') as (mid & settle & L & Hm & Hs);
          destruct (run_async_work P (Some ctx) s') as [[u s1] t1] eqn:E;
          rewrite (bind_run _ _ _ _ _ _ E);
          unfold trace_of in L; simpl in L; subst t1;
          unfold prepend, ret, trace_of, value_of; cbn [fst snd app];
          rewrite app_nil_r;
          split; [reflexivity|];
          eexists; exists mid, settle;
          split; [reflexivity|]; split; assumption
      end ].

(** An asynchronous export whose arguments pass the check returns a
    promise, and its work is queued first, settles the promise once, by a
    rejection or a resolution, and is deleted right after that, which is
    the last thing that happens; nothing is queued, settled or deleted in
    between.  An asynchronous export whose arguments do not pass the check
    returns no promise and queues, settles and deletes nothing. *)
Theorem async_export_work (P : Platform) (c : Ceremony)
        (args : list napi_value) (s : State) :
  let r := export P c Asynchronous args s in
  if well_typed c args
  then value_of r = Some js_promise
       /\ exists name mid settle,
           trace_of r
           = EvNapiQueueAsyncWork name :: mid ++ [settle; EvNapiDeleteAsyncWork]
           /\ forallb (fun e => negb (is_work_event e)) mid = true
           /\ is_settlement settle = true
  else value_of r = None
       /\ forallb (fun e => negb (is_work_event e)) (trace_of r) = true.
Proof.
  cbv zeta. destruct c.
  - work_tac.
  - destruct args as [|[] [|[] [|[] rest]]]; work_tac.
  - destruct args as [|[] [|[] rest]]; work_tac.
Qed.

(** ** The model at work *)

Example Base64UrlEncode_vectors :
  Base64UrlEncode (lit "foobar") = lit "Zm9vYmFy"
  /\ Base64UrlEncode (lit "fooba") = lit "Zm9vYmE"
  /\ Base64UrlEncode (lit "foob") = lit "Zm9vYg"
  /\ Base64UrlEncode [xfb; xff; xfe] = lit "-__-"
  /\ Base64UrlEncode [xfb; xef] = lit "--8"
  /\ Base64UrlEncode Demo.challenge32
     = lit "qqqqqqqqqqqqqqqqqqqqqqqqqqqqqqqqqqqqqqqqqqo".
Proof. repeat split; vm_compute; reflexivity. Qed.

Example HResultToString_E_FAIL :
  HResultToString (Demo.platform [] S_OK (S_OK, None) (S_OK, None)) E_FAIL
  = lit "HRESULT=0x80004005".
Proof. vm_compute. reflexivity. Qed.

Example ReadHwndFromBuffer_example :
  let P := Demo.platform [] S_OK (S_OK, None) (S_OK, None) in
  hwnd_arg P (Demo.example_args 57005) 3 = 57005
  /\ hwnd_arg P [js_string []; js_string []; js_string []; js_buffer [x01; x02]] 3
     = nullptr
  /\ hwnd_arg P [js_string []; js_string []; js_string []] 3 = nullptr.
Proof. vm_compute. repeat split. Qed.

(** In a freshly started process whose [CoInitializeSecurity] fails, three
    calls of [EnsureComSecurityInitialized] return the failure three times
    and [CoInitializeSecurity] has run once. *)
Example EnsureComSecurityInitialized_failure_cached :
  let P := Demo.platform [] E_FAIL (S_OK, None) (S_OK, None) in
  let r := ensure_calls P 3 (Demo.fresh 0) in
  value_of r = [E_FAIL; E_FAIL; E_FAIL]
  /\ trace_of r = [EvCoInitializeSecurity].
Proof. vm_compute. repeat split. Qed.

Example EnsureComSecurityInitialized_too_late :
  let P := Demo.platform [] RPC_E_TOO_LATE (S_OK, None) (S_OK, None) in
  let r := ensure_calls P 2 (Demo.fresh 0) in
  value_of r = [S_OK; S_OK] /\ trace_of r = [EvCoInitializeSecurity].
Proof. vm_compute. repeat split. Qed.
